(** * ragchatchok: upload/chat orchestrator, Markdown renderer and service wrapper

    A shallow embedding of the application logic of the repository:

    - [JS]: the string primitives of the host language the code relies on
      ([split], [trim], [includes], [toLowerCase], the regular expressions
      of the renderer);
    - [Markdown]: [renderMarkdown] of the chat interface component;
    - [Gemini]: [uploadToRagStore] (the polling loop) and the shape
      sniffing of [generateExampleQuestions];
    - [App]: the state container of [src/App.tsx] and its handlers;
    - [PersistedApp]: the revision of the application component that
      mirrors the session into [localStorage].

    Strings are sequences of code units; the model covers the code units
    U+0000 to U+00FF, one [ascii] each. *)

From Stdlib Require Import Ascii String List Bool Arith ZArith QArith Lia.
From Stdlib Require Import Numbers.DecimalString.
From stdpp Require Import gmap strings.
Import ListNotations.

Local Open Scope string_scope.
Local Open Scope list_scope.

(** ** Host-language string primitives *)
Module JS.

(** The double quote, written by its code so that literals stay plain. *)
Definition dquote : ascii := "034"%char.

Definition code (c : ascii) : nat := nat_of_ascii c.

(** [\s] of a regular expression and the characters [trim] removes:
    TAB, LF, VT, FF, CR, SPACE and NO-BREAK SPACE. *)
Definition is_whitespace (c : ascii) : bool :=
  let n := code c in
  (((9 <=? n) && (n <=? 13)) || (n =? 32) || (n =? 160))%nat.

(** [\d]. *)
Definition is_digit (c : ascii) : bool :=
  let n := code c in ((48 <=? n) && (n <=? 57))%nat.

(** The characters [.] refuses: LF and CR. *)
Definition is_line_terminator (c : ascii) : bool :=
  let n := code c in ((n =? 10) || (n =? 13))%nat.

Definition newline : ascii := "010"%char.

Definition is_empty (s : string) : bool :=
  match s with EmptyString => true | String _ _ => false end.

(** Truthiness of a string: [if (s)]. *)
Definition truthy (s : string) : bool := negb (is_empty s).

Fixpoint all_chars (p : ascii -> bool) (s : string) : bool :=
  match s with
  | EmptyString => true
  | String c s' => p c && all_chars p s'
  end.

Fixpoint drop_while (p : ascii -> bool) (s : string) : string :=
  match s with
  | EmptyString => EmptyString
  | String c s' => if p c then drop_while p s' else s
  end.

Fixpoint take_while (p : ascii -> bool) (s : string) : string :=
  match s with
  | EmptyString => EmptyString
  | String c s' => if p c then String c (take_while p s') else EmptyString
  end.

(** [s.trim()]. *)
Fixpoint trimEnd (s : string) : string :=
  match s with
  | EmptyString => EmptyString
  | String c s' =>
      let t := trimEnd s' in
      if is_whitespace c && is_empty t then EmptyString else String c t
  end.

Definition trimStart (s : string) : string := drop_while is_whitespace s.

Definition trim (s : string) : string := trimEnd (trimStart s).

(** [s.split('\n')]: never the empty list. *)
Fixpoint split_newline (s : string) : list string :=
  match s with
  | EmptyString => [EmptyString]
  | String c s' =>
      if Ascii.eqb c newline then EmptyString :: split_newline s'
      else match split_newline s' with
           | l :: ls => String c l :: ls
           | [] => [String c EmptyString]
           end
  end.

(** [p] is a prefix of [s]: what is left of [s] after it. *)
Fixpoint strip_prefix (p s : string) : option string :=
  match p with
  | EmptyString => Some s
  | String a p' =>
      match s with
      | EmptyString => None
      | String b s' => if Ascii.eqb a b then strip_prefix p' s' else None
      end
  end.

Definition starts_with (p s : string) : bool :=
  match strip_prefix p s with Some _ => true | None => false end.

(** [s.includes(needle)]. *)
Fixpoint includes (s needle : string) : bool :=
  starts_with needle s ||
  match s with
  | EmptyString => false
  | String _ s' => includes s' needle
  end.

(** [s.toLowerCase()] on the code units of the model: A-Z, and the
    capital letters U+00C0 to U+00DE except the multiplication sign. *)
Definition lower_char (c : ascii) : ascii :=
  let n := code c in
  if (((65 <=? n) && (n <=? 90))
      || ((192 <=? n) && (n <=? 222) && negb (n =? 215)))%nat
  then ascii_of_nat (n + 32) else c.

Fixpoint toLowerCase (s : string) : string :=
  match s with
  | EmptyString => EmptyString
  | String c s' => String (lower_char c) (toLowerCase s')
  end.

(** [m] contains [needle] when letter case is ignored: some substring
    of [m] and [needle] have the same lower-case form. *)
Definition contains_ignoring_case (m needle : string) : Prop :=
  exists pre mid post : string,
    m = (pre ++ mid ++ post)%string /\ toLowerCase mid = toLowerCase needle.

(** [String(n)] / template interpolation of a non-negative integer. *)
Definition string_of_nat (n : nat) : string :=
  NilZero.string_of_uint (Nat.to_uint n).

(** The same for an integer of any size, such as [Date.now()]. *)
Definition string_of_N (n : N) : string :=
  NilZero.string_of_uint (N.to_uint n).

(** [ss.join(sep)]. *)
Fixpoint join (sep : string) (ss : list string) : string :=
  match ss with
  | [] => EmptyString
  | [s] => s
  | s :: rest => s ++ sep ++ join sep rest
  end.

(** *** Regular expressions of the renderer *)

(** [(.*?)delim]: the shortest run of characters other than line
    terminators after which [delim] follows; the capture and what is
    left after the delimiter. *)
Fixpoint lazy_until (delim s : string) : option (string * string) :=
  match strip_prefix delim s with
  | Some rest => Some (EmptyString, rest)
  | None =>
      match s with
      | EmptyString => None
      | String c s' =>
          if is_line_terminator c then None
          else match lazy_until delim s' with
               | Some (cap, rest) => Some (String c cap, rest)
               | None => None
               end
      end
  end.

(** [open(.*?)close] anchored at the start of [s]. *)
Definition delimited (delim s : string) : option (string * string) :=
  match strip_prefix delim s with
  | Some t => lazy_until delim t
  | None => None
  end.

(** An alternation [a|b]: the first alternative that matches. *)
Definition alt (a b : string -> option (string * string)) (s : string)
  : option (string * string) :=
  match a s with
  | Some r => Some r
  | None => b s
  end.

(** [/\*\*(.*?)\*\*|__(.*?)__/] at the start of [s]: the capture
    ([$1$2], one of the two is always undefined) and the rest. *)
Definition match_strong : string -> option (string * string) :=
  alt (delimited "**") (delimited "__").

(** [/\*(.*?)\*|_(.*?)_/]. *)
Definition match_em : string -> option (string * string) :=
  alt (delimited "*") (delimited "_").

Definition backtick : ascii := "`"%char.

Definition not_backtick (c : ascii) : bool := negb (Ascii.eqb c backtick).

(** [/`([^`]+)`/]: a backtick, the longest non-empty run without a
    backtick, a backtick. *)
Definition match_code (s : string) : option (string * string) :=
  match s with
  | String c t =>
      if Ascii.eqb c backtick then
        let cap := take_while not_backtick t in
        match cap, drop_while not_backtick t with
        | String _ _, String _ rest => Some (cap, rest)
        | _, _ => None
        end
      else None
  | EmptyString => None
  end.

(** [s.replace(/re/g, open + '$1$2' + close)]: scan from the left; at a
    position where the expression matches, emit the replacement and
    resume after the match ([skip] counts the matched characters still
    to be passed over); elsewhere copy the character. *)
Fixpoint replace_from (m : string -> option (string * string))
    (opening closing : string) (skip : nat) (s : string) : string :=
  match s with
  | EmptyString => EmptyString
  | String c s' =>
      match skip with
      | S k => replace_from m opening closing k s'
      | O =>
          match m s with
          | Some (cap, rest) =>
              opening ++ cap ++ closing
              ++ replace_from m opening closing
                   (String.length s' - String.length rest) s'
          | None => String c (replace_from m opening closing 0 s')
          end
      end
  end.

Definition replaceAll (m : string -> option (string * string))
    (opening closing : string) (s : string) : string :=
  replace_from m opening closing 0 s.

(** The ordered-list pattern: start of line, [\s*], [\d+], a dot, one
    [\s], then a greedy capture of characters other than line
    terminators. The capture group when the line matches. *)
Definition match_ol (line : string) : option string :=
  let t := drop_while is_whitespace line in
  match take_while is_digit t, drop_while is_digit t with
  | String _ _, String dot (String w rest) =>
      if Ascii.eqb dot "."%char && is_whitespace w
      then Some (take_while (fun c => negb (is_line_terminator c)) rest)
      else None
  | _, _ => None
  end.

(** The unordered-list pattern: start of line, [\s*], a star or a
    hyphen, one [\s], then the same greedy capture. *)
Definition match_ul (line : string) : option string :=
  match drop_while is_whitespace line with
  | String b (String w rest) =>
      if (Ascii.eqb b "*"%char || Ascii.eqb b "-"%char) && is_whitespace w
      then Some (take_while (fun c => negb (is_line_terminator c)) rest)
      else None
  | _ => None
  end.

End JS.

(** ** The Markdown renderer of the chat interface *)
Module Markdown.
Import JS.

Inductive ListType := ul | ol.

Definition ListType_eqb (a b : ListType) : bool :=
  match a, b with
  | ul, ul | ol, ol => true
  | _, _ => false
  end.

Definition tag_name (t : ListType) : string :=
  match t with ul => "ul" | ol => "ol" end.

Definition P_OPEN : string := "<p class=" ++ String dquote "my-2" ++ String dquote ">".
Definition P_CLOSE : string := "</p>".
Definition BR : string := "<br/>".
Definition OL_OPEN : string :=
  "<ol class=" ++ String dquote "list-decimal list-inside my-2 pl-5 space-y-1"
  ++ String dquote ">".
Definition UL_OPEN : string :=
  "<ul class=" ++ String dquote "list-disc list-inside my-2 pl-5 space-y-1"
  ++ String dquote ">".
Definition CODE_OPEN : string :=
  "<code class="
  ++ String dquote "bg-hitech-surface/50 px-1 py-0.5 rounded-sm font-mono text-sm"
  ++ String dquote ">".

Definition list_open (t : ListType) : string :=
  match t with ul => UL_OPEN | ol => OL_OPEN end.

Definition list_close (t : ListType) : string := "</" ++ tag_name t ++ ">".

Definition li (content : string) : string := "<li>" ++ content ++ "</li>".

(** The three chained [replace] calls applied to a raw line. *)
Definition inline (rawLine : string) : string :=
  replaceAll match_code CODE_OPEN "</code>"
    (replaceAll match_em "<em>" "</em>"
       (replaceAll match_strong "<strong>" "</strong>" rawLine)).

(** The mutable locals of [renderMarkdown]. *)
Record Render := mkRender {
  html : string;
  listType : option ListType;
  paraBuffer : string
}.

Definition flushPara (r : Render) : Render :=
  if truthy (paraBuffer r)
  then mkRender (html r ++ P_OPEN ++ paraBuffer r ++ P_CLOSE) (listType r) EmptyString
  else r.

Definition flushList (r : Render) : Render :=
  match listType r with
  | Some t => mkRender (html r ++ list_close t) None (paraBuffer r)
  | None => r
  end.

Definition emit (r : Render) (s : string) : Render :=
  mkRender (html r ++ s) (listType r) (paraBuffer r).

Definition is_list (r : Render) (t : ListType) : bool :=
  match listType r with
  | Some t' => ListType_eqb t' t
  | None => false
  end.

(** The branch taken for a list line of type [t] with capture [item]. *)
Definition list_line (t : ListType) (item : string) (r : Render) : Render :=
  let r1 := flushPara r in
  let r2 :=
    if is_list r1 t then r1
    else let r' := flushList r1 in
         mkRender (html r' ++ list_open t) (Some t) (paraBuffer r') in
  emit r2 (li item).

(** One iteration of the loop over the lines. *)
Definition render_line (r : Render) (rawLine : string) : Render :=
  let line := inline rawLine in
  match match_ol line with
  | Some item => list_line ol item r
  | None =>
      match match_ul line with
      | Some item => list_line ul item r
      | None =>
          let r1 := flushList r in
          if is_empty (trim line) then flushPara r1
          else mkRender (html r1) (listType r1)
                 (paraBuffer r1
                  ++ (if truthy (paraBuffer r1) then BR else EmptyString)
                  ++ line)
      end
  end.

Definition render_start : Render := mkRender EmptyString None EmptyString.

Definition render_lines (lines : list string) : Render :=
  fold_left render_line lines render_start.

(** [renderMarkdown(text).__html]. *)
Definition renderMarkdown (text : string) : string :=
  if is_empty text then EmptyString
  else html (flushList (flushPara (render_lines (split_newline text)))).

(** *** Vocabulary for the properties of the renderer *)

(** The text with each line break replaced by [<br/>]. *)
Fixpoint br_for_newlines (s : string) : string :=
  match s with
  | EmptyString => EmptyString
  | String c s' =>
      if Ascii.eqb c newline then BR ++ br_for_newlines s'
      else String c (br_for_newlines s')
  end.

(** The expression [m] matches at some position of [s]. *)
Fixpoint matches_somewhere (m : string -> option (string * string)) (s : string)
  : bool :=
  match m s with
  | Some _ => true
  | None =>
      match s with
      | EmptyString => false
      | String _ s' => matches_somewhere m s'
      end
  end.

(** A line holds a bold, italic or inline-code token. *)
Definition has_markup (line : string) : bool :=
  matches_somewhere match_strong line
  || matches_somewhere match_em line
  || matches_somewhere match_code line.

(** A line matches the ordered- or the unordered-list pattern. *)
Definition is_list_line (line : string) : bool :=
  match match_ol line, match_ul line with
  | None, None => false
  | _, _ => true
  end.

(** A blank line: [line.trim() === '']. *)
Definition is_blank (line : string) : bool := is_empty (trim line).

Definition plain_line (line : string) : bool :=
  negb (has_markup line) && negb (is_list_line line) && negb (is_blank line).

(** The three characters the inline expressions start with. *)
Definition is_marker (c : ascii) : bool :=
  Ascii.eqb c "*"%char || Ascii.eqb c "_"%char || Ascii.eqb c backtick.

(** An expression that can only match where a marker stands. *)
Definition marker_led (m : string -> option (string * string)) : Prop :=
  forall s, m s <> None -> exists c s', s = String c s' /\ is_marker c = true.

(** How the paragraph buffer grows by one line. *)
Definition buffer_line (buffer line : string) : string :=
  buffer ++ (if truthy buffer then BR else EmptyString) ++ line.

(** The fragment as a sequence of complete elements: a paragraph with
    its content, or one list with its items. *)
Inductive Block :=
| Paragraph (content : string)
| ListOf (t : ListType) (items : list string).

Fixpoint concat_strings (ss : list string) : string :=
  match ss with
  | [] => EmptyString
  | s :: rest => s ++ concat_strings rest
  end.

Definition render_block (b : Block) : string :=
  match b with
  | Paragraph content => P_OPEN ++ content ++ P_CLOSE
  | ListOf t items => list_open t ++ concat_strings (map li items) ++ list_close t
  end.

Definition render_blocks (bs : list Block) : string :=
  concat_strings (map render_block bs).

(** No empty paragraph and no empty list. *)
Definition block_ok (b : Block) : Prop :=
  match b with
  | Paragraph content => content <> EmptyString
  | ListOf _ items => items <> []
  end.

(** The contents of a block satisfy [P]. *)
Definition block_contents (P : string -> Prop) (b : Block) : Prop :=
  match b with
  | Paragraph content => P content
  | ListOf _ items => Forall P items
  end.

(** The invariant of the loop over the lines. What has been written is
    a sequence of complete elements, followed, when a list is open, by
    its opening tag and at least one item; while a list is open the
    paragraph buffer is empty, so at most one container is pending. *)
Definition well_nested (P : string -> Prop) (r : Render) : Prop :=
  P (paraBuffer r)
  /\ exists bs,
      Forall block_ok bs /\ Forall (block_contents P) bs
      /\ match listType r with
         | None => html r = render_blocks bs
         | Some t =>
             paraBuffer r = EmptyString
             /\ exists items,
                 items <> [] /\ Forall P items
                 /\ html r
                    = (render_blocks bs ++ list_open t
                       ++ concat_strings (map li items))%string
         end.

(** The list type and the item of a list line, as the two tests of the
    loop decide it. *)
Definition classify (line : string) : option (ListType * string) :=
  match match_ol line with
  | Some item => Some (ol, item)
  | None =>
      match match_ul line with
      | Some item => Some (ul, item)
      | None => None
      end
  end.

(** What a raw line contributes to the fragment satisfies [P]: the
    line after the inline replacements, and its item if it is a list
    line. *)
Definition line_contents (P : string -> Prop) (rawLine : string) : Prop :=
  P (inline rawLine)
  /\ forall t item, classify (inline rawLine) = Some (t, item) -> P item.



(** A scan of a fragment for list tags: an opening tag is legal only
    when no list is open, a closing tag only when the list of its own
    type is open. The result is the list left open at the end, or
    [None] when a tag was illegal. *)
Fixpoint scan_list_tags (s : string) (opened : option ListType)
  : option (option ListType) :=
  match s with
  | EmptyString => Some opened
  | String _ s' =>
      if starts_with "<ul" s then
        match opened with
        | None => scan_list_tags s' (Some ul)
        | Some _ => None
        end
      else if starts_with "<ol" s then
        match opened with
        | None => scan_list_tags s' (Some ol)
        | Some _ => None
        end
      else if starts_with "</ul>" s then
        match opened with
        | Some ul => scan_list_tags s' None
        | _ => None
        end
      else if starts_with "</ol>" s then
        match opened with
        | Some ol => scan_list_tags s' None
        | _ => None
        end
      else scan_list_tags s' opened
  end.




(** A match of the expression is a capture between two non-empty runs
    of markers, followed by the rest of the text. *)
Definition wraps (m : string -> option (string * string)) : Prop :=
  forall s cap rest,
    m s = Some (cap, rest) ->
    exists (x y : ascii) (d1 d2 : string),
      s = (String x d1 ++ cap ++ String y d2 ++ rest)%string
      /\ is_marker y = true.


End Markdown.

(** ** The service wrapper *)
Module Gemini.
Import JS.

(** A value caught by [catch (err)]: an [Error] object with its message,
    or any other thrown value with its truthiness and [String(err)]. *)
Inductive Thrown :=
| ErrorObj (message : string)
| NonError (truthy_value : bool) (as_string : string).

(** [err instanceof Error ? err.message : String(err)]. *)
Definition thrown_text (err : Thrown) : string :=
  match err with
  | ErrorObj m => m
  | NonError _ str => str
  end.

Definition thrown_truthy (err : Thrown) : bool :=
  match err with
  | ErrorObj _ => true
  | NonError b _ => b
  end.

Definition NOT_INITIALIZED : Thrown := ErrorObj "Gemini AI non inizializzato".

Definition e_grave : ascii := "232"%char.

Definition KEY_NOT_CONFIGURED : string :=
  "La Chiave API non " ++ String e_grave
  " configurata. Forniscine una o imposta la variabile d'ambiente API_KEY.".

(** [initialize(apiKey?)]: the key to use, or the error thrown. The
    module variable [ai] is set exactly when a key is returned. *)
Definition initialize (apiKey env_API_KEY : option string) : Thrown + string :=
  let usable (k : option string) :=
    match k with Some v => truthy v | None => false end in
  let keyToUse := if usable apiKey then apiKey else env_API_KEY in
  match keyToUse with
  | Some k => if truthy k then inr k else inl (ErrorObj KEY_NOT_CONFIGURED)
  | None => inl (ErrorObj KEY_NOT_CONFIGURED)
  end.

(** [createRagStore]: [created] is the settled [fileSearchStores.create]
    call, a rejection or the store with its optional name. *)
Definition createRagStore (ai : bool) (created : Thrown + option string)
  : Thrown + string :=
  if negb ai then inl NOT_INITIALIZED
  else match created with
       | inl e => inl e
       | inr (Some n) =>
           if truthy n then inr n
           else inl (ErrorObj "Impossibile creare l'archivio RAG: nome mancante.")
       | inr None =>
           inl (ErrorObj "Impossibile creare l'archivio RAG: nome mancante.")
       end.

(** *** uploadToRagStore *)

(** What awaiting an operation handle gives: an operation whose [done]
    flag is unset or set, or a rejection. *)
Inductive Poll :=
| Pending
| Done
| Rejected (e : Thrown).

(** The remote operation as seen by the caller: [ops 0] answers the
    upload call, [ops (S k)] the [k]-th [operations.get]. *)
Definition Operation := nat -> Poll.

(** The function has returned (with the arguments of the [delay] calls
    it made, oldest first), has thrown, or is still in its loop after
    the iterations the fuel allows. *)
Inductive Upload :=
| Returned (delays : list nat)
| Threw (e : Thrown)
| Looping.

Definition POLL_INTERVAL_MS : nat := 3000.

(** The [while (!op.done)] loop; [k] operations have been observed as
    pending so far and [delays] were awaited. *)
Fixpoint poll_loop (fuel : nat) (ops : Operation) (k : nat) (delays : list nat)
  : Upload :=
  match ops k with
  | Done => Returned delays
  | Rejected e => Threw e
  | Pending =>
      match fuel with
      | O => Looping
      | S fuel' => poll_loop fuel' ops (S k) (delays ++ [POLL_INTERVAL_MS])
      end
  end.

Definition uploadToRagStore (ai : bool) (fuel : nat) (ops : Operation) : Upload :=
  if negb ai then Threw NOT_INITIALIZED
  else poll_loop fuel ops 0 [].

(** *** generateExampleQuestions *)

(** A value produced by [JSON.parse]. An object is given by its
    bindings, looked up by key. *)
#[local] Unset Elimination Schemes.
Inductive json :=
| JNull
| JBool (b : bool)
| JNum (q : Q)
| JStr (s : string)
| JArr (items : list json)
| JObj (fields : list (string * json)).
#[local] Set Elimination Schemes.

Fixpoint lookup_field (key : string) (fields : list (string * json)) : option json :=
  match fields with
  | [] => None
  | (k, v) :: rest => if String.eqb k key then Some v else lookup_field key rest
  end.

Definition js_truthy (v : json) : bool :=
  match v with
  | JNull => false
  | JBool b => b
  | JNum q => negb (Z.eqb (Qnum q) 0)
  | JStr s => truthy s
  | JArr _ | JObj _ => true
  end.

(** [typeof firstItem === 'object' && firstItem !== null &&
     'questions' in firstItem && Array.isArray(firstItem.questions)]. *)
Definition has_questions_array (firstItem : json) : bool :=
  match firstItem with
  | JObj fields =>
      match lookup_field "questions" fields with
      | Some (JArr _) => true
      | _ => false
      end
  | _ => false
  end.

(** [item.questions || []]; reading a property of [null] throws. *)
Definition questions_or_empty (item : json) : option json :=
  match item with
  | JNull => None
  | JObj fields =>
      match lookup_field "questions" fields with
      | Some v => Some (if js_truthy v then v else JArr [])
      | None => Some (JArr [])
      end
  | _ => Some (JArr [])
  end.

(** [flatMap] splices an array returned by the callback and appends
    any other value as it is. *)
Fixpoint flatMap_questions (items : list json) : option (list json) :=
  match items with
  | [] => Some []
  | item :: rest =>
      match questions_or_empty item with
      | None => None
      | Some v =>
          match flatMap_questions rest with
          | None => None
          | Some tail =>
              Some (match v with JArr xs => xs | other => [other] end ++ tail)
          end
      end
  end.

(** [.filter(q => typeof q === 'string')]. *)
Fixpoint only_strings (vs : list json) : list string :=
  match vs with
  | [] => []
  | JStr s :: rest => s :: only_strings rest
  | _ :: rest => only_strings rest
  end.

(** What the function wrote to the console. *)
Inductive Log := Silent | Warned | Errored.

(** The part of [generateExampleQuestions] after [JSON.parse]. *)
Definition questionsOfParsed (parsedData : json) : list string * Log :=
  match parsedData with
  | JArr [] => ([], Silent)
  | JArr ((firstItem :: _) as items) =>
      if has_questions_array firstItem then
        match flatMap_questions items with
        | Some vs => (only_strings vs, Silent)
        | None => ([], Errored)
        end
      else
        match firstItem with
        | JStr _ => (only_strings items, Silent)
        | _ => ([], Warned)
        end
  | _ => ([], Warned)
  end.

(** The two shapes the prompt and the comments name: a flat array of
    strings, and an array of objects each carrying an array under
    [questions]. *)
Definition is_string_array (parsedData : json) : Prop :=
  exists qs, parsedData = JArr (map JStr qs).

Definition is_group (item : json) (questions : list json) : Prop :=
  exists fields,
    item = JObj fields /\ lookup_field "questions" fields = Some (JArr questions).

Definition is_grouped_array (parsedData : json) : Prop :=
  exists items qss, parsedData = JArr items /\ Forall2 is_group items qss.

(** [generateExampleQuestions]: [answer] is the parsed model answer, or
    [None] when the request, the text extraction or [JSON.parse] threw
    (the [catch] branch logs and returns the empty list). *)
Definition generateExampleQuestions (ai : bool) (answer : option json)
  : Thrown + list string :=
  if negb ai then inl NOT_INITIALIZED
  else match answer with
       | Some parsedData => inr (fst (questionsOfParsed parsedData))
       | None => inr []
       end.

End Gemini.

(** ** The application component of [src/App.tsx] *)
Module App.
Import JS Gemini.

(** [AppStatus], with the members the component uses. *)
Inductive AppStatus := Initializing | Welcome | Uploading | Chatting | Error.

(** A browser [File]; the component reads its [name] only. *)
Record File := mkFile { name : string }.

(** Modelled from the spec: the type of a grounding chunk is declared
    in the types module, which is not among the sources; the glossary
    describes it as a citation fragment pointing to source text. *)
Inductive GroundingChunk := Citation (source_text : string).

Inductive Role := user | model.

Record Part := mkPart { text : string }.

Record ChatMessage := mkChatMessage {
  role : Role;
  parts : list Part;
  groundingChunks : option (list GroundingChunk)
}.

Record UploadProgress := mkProgress {
  current : nat;
  total : nat;
  message : option string;
  fileName : option string
}.

(** The [useState] cells of the component. *)
Record State := mkState {
  status : AppStatus;
  isApiKeySelected : bool;
  isAistudioAvailable : bool;
  apiKeyError : option string;
  error : option string;
  uploadProgress : option UploadProgress;
  activeRagStoreName : option string;
  chatHistory : list ChatMessage;
  isQueryLoading : bool;
  exampleQuestions : list string;
  documentName : string;
  files : list File
}.

Definition setStatus (v : AppStatus) (s : State) : State :=
  mkState v (isApiKeySelected s) (isAistudioAvailable s) (apiKeyError s)
    (error s) (uploadProgress s) (activeRagStoreName s) (chatHistory s)
    (isQueryLoading s) (exampleQuestions s) (documentName s) (files s).

Definition setIsApiKeySelected (v : bool) (s : State) : State :=
  mkState (status s) v (isAistudioAvailable s) (apiKeyError s)
    (error s) (uploadProgress s) (activeRagStoreName s) (chatHistory s)
    (isQueryLoading s) (exampleQuestions s) (documentName s) (files s).

Definition setApiKeyError (v : option string) (s : State) : State :=
  mkState (status s) (isApiKeySelected s) (isAistudioAvailable s) v
    (error s) (uploadProgress s) (activeRagStoreName s) (chatHistory s)
    (isQueryLoading s) (exampleQuestions s) (documentName s) (files s).

Definition setError (v : option string) (s : State) : State :=
  mkState (status s) (isApiKeySelected s) (isAistudioAvailable s) (apiKeyError s)
    v (uploadProgress s) (activeRagStoreName s) (chatHistory s)
    (isQueryLoading s) (exampleQuestions s) (documentName s) (files s).

Definition setUploadProgress (v : option UploadProgress) (s : State) : State :=
  mkState (status s) (isApiKeySelected s) (isAistudioAvailable s) (apiKeyError s)
    (error s) v (activeRagStoreName s) (chatHistory s)
    (isQueryLoading s) (exampleQuestions s) (documentName s) (files s).

Definition setActiveRagStoreName (v : option string) (s : State) : State :=
  mkState (status s) (isApiKeySelected s) (isAistudioAvailable s) (apiKeyError s)
    (error s) (uploadProgress s) v (chatHistory s)
    (isQueryLoading s) (exampleQuestions s) (documentName s) (files s).

(** [setChatHistory(prev => f(prev))]; a constant [f] is the plain set. *)
Definition setChatHistory (f : list ChatMessage -> list ChatMessage) (s : State)
  : State :=
  mkState (status s) (isApiKeySelected s) (isAistudioAvailable s) (apiKeyError s)
    (error s) (uploadProgress s) (activeRagStoreName s) (f (chatHistory s))
    (isQueryLoading s) (exampleQuestions s) (documentName s) (files s).

Definition setIsQueryLoading (v : bool) (s : State) : State :=
  mkState (status s) (isApiKeySelected s) (isAistudioAvailable s) (apiKeyError s)
    (error s) (uploadProgress s) (activeRagStoreName s) (chatHistory s)
    v (exampleQuestions s) (documentName s) (files s).

Definition setExampleQuestions (v : list string) (s : State) : State :=
  mkState (status s) (isApiKeySelected s) (isAistudioAvailable s) (apiKeyError s)
    (error s) (uploadProgress s) (activeRagStoreName s) (chatHistory s)
    (isQueryLoading s) v (documentName s) (files s).

Definition setDocumentName (v : string) (s : State) : State :=
  mkState (status s) (isApiKeySelected s) (isAistudioAvailable s) (apiKeyError s)
    (error s) (uploadProgress s) (activeRagStoreName s) (chatHistory s)
    (isQueryLoading s) (exampleQuestions s) v (files s).

Definition setFiles (v : list File) (s : State) : State :=
  mkState (status s) (isApiKeySelected s) (isAistudioAvailable s) (apiKeyError s)
    (error s) (uploadProgress s) (activeRagStoreName s) (chatHistory s)
    (isQueryLoading s) (exampleQuestions s) (documentName s) v.


(** [handleError(message, err)]. *)
Definition handleError (msg : string) (err : Thrown) (s : State) : State :=
  setStatus Error
    (setError
       (Some (msg ++ (if thrown_truthy err then ": " ++ thrown_text err
                      else EmptyString))%string)
       s).

Definition clearError (s : State) : State :=
  setStatus Welcome (setError None s).

(** Calls into the service module, in the order they are made. *)
Inductive Call :=
| CallInitialize
| CallCreateRagStore (displayName : string)
| CallUploadToRagStore (ragStoreName : string) (file : File)
| CallGenerateExampleQuestions (ragStoreName : string)
| CallFileSearch (ragStoreName : string) (query : string)
| CallDeleteRagStore (ragStoreName : string).

(** How an [async] handler stands: its promise resolved, rejected with
    the thrown value, or it is still awaiting. *)
Inductive Outcome :=
| Resolved
| Failed (err : Thrown)
| Awaiting.

(** What the environment and the remote service answer during one
    upload: the configured key, the clock, the created store, the
    operation of each file (by index) and the parsed suggestions. *)
Record Remote := mkRemote {
  env_API_KEY : option string;
  now : N;
  created : Thrown + option string;
  operations : nat -> Operation;
  suggestions : option json
}.

Definition EMBEDDING : string := "Generazione degli incorporamenti...".

(** The document label of a successful upload. *)
Definition docName (fs : list File) : string :=
  match fs with
  | [f] => name f
  | [f0; f1] => name f0 ++ " e " ++ name f1
  | _ => string_of_nat (length fs) ++ " documenti"
  end.

(** How the awaited steps of the [try] block end, with the last value
    given to [setUploadProgress]. *)
Inductive Steps :=
| StepsDone (ragStoreName : string) (questions : list string)
| StepsThrew (err : Thrown)
| StepsAwaiting.

(** The [for] loop over the files, from index [i]; [n] is
    [files.length]. *)
Fixpoint upload_files (fuel : nat) (w : Remote) (ragStoreName : string)
    (n i : nat) (rest : list File) (progress : option UploadProgress)
  : list Call * option UploadProgress * option (option Thrown) :=
  match rest with
  | [] => ([], progress, Some None)
  | f :: rest' =>
      let progress' :=
        Some (mkProgress (i + 1)
                (match progress with Some p => total p | None => 0 end)
                (Some EMBEDDING)
                (Some ("(" ++ string_of_nat (i + 1) ++ "/" ++ string_of_nat n
                       ++ ") " ++ name f)%string)) in
      match uploadToRagStore true fuel (operations w i) with
      | Returned _ =>
          let '(calls, p, r) :=
            upload_files fuel w ragStoreName n (S i) rest' progress' in
          (CallUploadToRagStore ragStoreName f :: calls, p, r)
      | Threw e => ([CallUploadToRagStore ragStoreName f], progress', Some (Some e))
      | Looping => ([CallUploadToRagStore ragStoreName f], progress', None)
      end
  end.

(** The body of the [try] block up to the cosmetic delay. *)
Definition upload_steps (fuel : nat) (w : Remote) (fs : list File)
  : list Call * option UploadProgress * Steps :=
  let totalSteps := length fs + 2 in
  let storeName := ("chat-session-" ++ string_of_N (now w))%string in
  match createRagStore true (created w) with
  | inl e =>
      ([CallCreateRagStore storeName],
       Some (mkProgress 0 totalSteps
               (Some "Creazione dell'indice del documento...") None),
       StepsThrew e)
  | inr ragStoreName =>
      let p1 := Some (mkProgress 1 totalSteps (Some EMBEDDING) None) in
      match upload_files fuel w ragStoreName (length fs) 0 fs p1 with
      | (calls, p, None) => (CallCreateRagStore storeName :: calls, p, StepsAwaiting)
      | (calls, p, Some (Some e)) =>
          (CallCreateRagStore storeName :: calls, p, StepsThrew e)
      | (calls, _, Some None) =>
          match generateExampleQuestions true (suggestions w) with
          | inl e =>
              (CallCreateRagStore storeName
                 :: calls ++ [CallGenerateExampleQuestions ragStoreName],
               Some (mkProgress (length fs + 1) totalSteps
                       (Some "Generazione di suggerimenti...") (Some EmptyString)),
               StepsThrew e)
          | inr questions =>
              (CallCreateRagStore storeName
                 :: calls ++ [CallGenerateExampleQuestions ragStoreName],
               Some (mkProgress totalSteps totalSteps
                       (Some "Tutto pronto!") (Some EmptyString)),
               StepsDone ragStoreName questions)
          end
      end
  end.

Definition E_grave : ascii := "200"%char.

Definition KEY_REQUIRED : Thrown :=
  ErrorObj (String E_grave " richiesta la Chiave API.").

Definition SELECT_KEY : string :=
  "Per favore, seleziona o imposta la tua Chiave API Gemini.".

Definition INVALID_KEY : string :=
  "La chiave API fornita non " ++ String e_grave
  " valida. Selezionane una diversa o impostane una corretta e riprova.".

(** The test of the [catch] block on the lower-cased message. *)
Definition is_invalid_key_error (err : Thrown) : bool :=
  let errorMessage := toLowerCase (thrown_text err) in
  includes errorMessage "api key not valid"
  || includes errorMessage "requested entity was not found".

(** The error signatures the [catch] block is written for, as a
    property of the message: it contains one of the two texts, letter
    case ignored. *)
Definition invalid_credential_signature (err : Thrown) : Prop :=
  contains_ignoring_case (thrown_text err) "api key not valid"
  \/ contains_ignoring_case (thrown_text err) "requested entity was not found".

(** [handleUploadAndStartChat], run from state [s] (the render whose
    closure the handler is) against the answers [w], with no other
    event in between: the state reached, the service calls made and how
    the handler stands. *)
Definition handleUploadAndStartChat (fuel : nat) (w : Remote) (s : State)
  : State * list Call * Outcome :=
  if negb (isApiKeySelected s) then
    (setApiKeyError (Some SELECT_KEY) s, [], Failed KEY_REQUIRED)
  else
    match files s with
    | [] => (s, [], Resolved)
    | _ :: _ =>
        let s1 := setApiKeyError None s in
        match initialize None (env_API_KEY w) with
        | inl err =>
            (handleError
               "Inizializzazione fallita. Assicurati che la tua chiave API sia valida."
               err s1,
             [CallInitialize], Failed err)
        | inr _ =>
            let s2 := setStatus Uploading s1 in
            match upload_steps fuel w (files s) with
            | (calls, p, StepsAwaiting) =>
                (setUploadProgress p s2, CallInitialize :: calls, Awaiting)
            | (calls, p, StepsDone ragStoreName questions) =>
                let s3 := setExampleQuestions questions s2 in
                let s4 := setDocumentName (docName (files s)) s3 in
                let s5 := setActiveRagStoreName (Some ragStoreName) s4 in
                let s6 := setChatHistory (fun _ => []) s5 in
                let s7 := setStatus Chatting s6 in
                let s8 := setFiles [] s7 in
                (setUploadProgress None s8, CallInitialize :: calls, Resolved)
            | (calls, p, StepsThrew err) =>
                let s3 :=
                  if is_invalid_key_error err then
                    setStatus Welcome
                      (setIsApiKeySelected false
                         (setApiKeyError (Some INVALID_KEY) s2))
                  else handleError "Impossibile avviare la sessione di chat" err s2 in
                (setUploadProgress None s3, CallInitialize :: calls, Failed err)
            end
        end
    end.

(** [handleEndChat]. *)
Definition handleEndChat (s : State) : State * list Call :=
  let calls :=
    match activeRagStoreName s with
    | Some n => if truthy n then [CallDeleteRagStore n] else []
    | None => []
    end in
  (setStatus Welcome
     (setFiles []
        (setDocumentName EmptyString
           (setExampleQuestions []
              (setChatHistory (fun _ => [])
                 (setActiveRagStoreName None s))))),
   calls).

Record QueryResult := mkQueryResult {
  result_text : string;
  result_groundingChunks : list GroundingChunk
}.

Definition APOLOGY : string := "Spiacente, ho riscontrato un errore. Riprova.".

(** [handleSendMessage] up to its [await]: [None] when the handler
    returns at once because no store is active. *)
Definition handleSendMessage_begin (msg : string) (s : State)
  : option (State * Call) :=
  match activeRagStoreName s with
  | Some store =>
      if truthy store then
        let userMessage := mkChatMessage user [mkPart msg] None in
        Some (setIsQueryLoading true
                (setChatHistory (fun prev => prev ++ [userMessage]) s),
              CallFileSearch store msg)
      else None
  | None => None
  end.

(** [handleSendMessage] from the settled [fileSearch] call on, applied
    to the state [s] of that moment. *)
Definition handleSendMessage_settle (answer : Thrown + QueryResult) (s : State)
  : State :=
  match answer with
  | inr result =>
      let modelMessage :=
        mkChatMessage model [mkPart (result_text result)]
          (Some (result_groundingChunks result)) in
      setIsQueryLoading false
        (setChatHistory (fun prev => prev ++ [modelMessage]) s)
  | inl err =>
      let errorMessage := mkChatMessage model [mkPart APOLOGY] None in
      setIsQueryLoading false
        (handleError "Impossibile ottenere una risposta" err
           (setChatHistory (fun prev => prev ++ [errorMessage]) s))
  end.

(** The whole handler when nothing else happens while it awaits. *)
Definition handleSendMessage (msg : string) (answer : Thrown + QueryResult)
    (s : State) : State * list Call :=
  match handleSendMessage_begin msg s with
  | Some (s1, call) => (handleSendMessage_settle answer s1, [call])
  | None => (s, [])
  end.

End App.

(** ** The revision of the application component with a persisted session

    The second application component kept in the repository (after
    [ClearChatIcon] in [src/components/icons/ClearChatIcon.tsx]) holds
    the credential as a text and mirrors the session into
    [localStorage] from two effects. The types, the awaited steps of
    the upload and the document label are those of [App]. *)
Module PersistedApp.
Import JS Gemini.
Import App.

Record State := mkState {
  status : AppStatus;
  isAistudioAvailable : bool;
  isAistudioKeySelected : bool;
  apiKey : string;
  apiKeyError : option string;
  error : option string;
  uploadProgress : option UploadProgress;
  activeRagStoreName : option string;
  chatHistory : list ChatMessage;
  isQueryLoading : bool;
  exampleQuestions : list string;
  documentName : string;
  files : list File
}.

Definition setStatus (v : AppStatus) (s : State) : State :=
  mkState v (isAistudioAvailable s) (isAistudioKeySelected s) (apiKey s)
    (apiKeyError s) (error s) (uploadProgress s) (activeRagStoreName s)
    (chatHistory s) (isQueryLoading s) (exampleQuestions s) (documentName s)
    (files s).

Definition setIsAistudioKeySelected (v : bool) (s : State) : State :=
  mkState (status s) (isAistudioAvailable s) v (apiKey s)
    (apiKeyError s) (error s) (uploadProgress s) (activeRagStoreName s)
    (chatHistory s) (isQueryLoading s) (exampleQuestions s) (documentName s)
    (files s).

Definition setApiKeyError (v : option string) (s : State) : State :=
  mkState (status s) (isAistudioAvailable s) (isAistudioKeySelected s) (apiKey s)
    v (error s) (uploadProgress s) (activeRagStoreName s)
    (chatHistory s) (isQueryLoading s) (exampleQuestions s) (documentName s)
    (files s).

Definition setError (v : option string) (s : State) : State :=
  mkState (status s) (isAistudioAvailable s) (isAistudioKeySelected s) (apiKey s)
    (apiKeyError s) v (uploadProgress s) (activeRagStoreName s)
    (chatHistory s) (isQueryLoading s) (exampleQuestions s) (documentName s)
    (files s).

Definition setUploadProgress (v : option UploadProgress) (s : State) : State :=
  mkState (status s) (isAistudioAvailable s) (isAistudioKeySelected s) (apiKey s)
    (apiKeyError s) (error s) v (activeRagStoreName s)
    (chatHistory s) (isQueryLoading s) (exampleQuestions s) (documentName s)
    (files s).

Definition setActiveRagStoreName (v : option string) (s : State) : State :=
  mkState (status s) (isAistudioAvailable s) (isAistudioKeySelected s) (apiKey s)
    (apiKeyError s) (error s) (uploadProgress s) v
    (chatHistory s) (isQueryLoading s) (exampleQuestions s) (documentName s)
    (files s).

Definition setChatHistory (v : list ChatMessage) (s : State) : State :=
  mkState (status s) (isAistudioAvailable s) (isAistudioKeySelected s) (apiKey s)
    (apiKeyError s) (error s) (uploadProgress s) (activeRagStoreName s)
    v (isQueryLoading s) (exampleQuestions s) (documentName s)
    (files s).

Definition setExampleQuestions (v : list string) (s : State) : State :=
  mkState (status s) (isAistudioAvailable s) (isAistudioKeySelected s) (apiKey s)
    (apiKeyError s) (error s) (uploadProgress s) (activeRagStoreName s)
    (chatHistory s) (isQueryLoading s) v (documentName s)
    (files s).

Definition setDocumentName (v : string) (s : State) : State :=
  mkState (status s) (isAistudioAvailable s) (isAistudioKeySelected s) (apiKey s)
    (apiKeyError s) (error s) (uploadProgress s) (activeRagStoreName s)
    (chatHistory s) (isQueryLoading s) (exampleQuestions s) v
    (files s).

Definition setFiles (v : list File) (s : State) : State :=
  mkState (status s) (isAistudioAvailable s) (isAistudioKeySelected s) (apiKey s)
    (apiKeyError s) (error s) (uploadProgress s) (activeRagStoreName s)
    (chatHistory s) (isQueryLoading s) (exampleQuestions s) (documentName s)
    v.

Definition handleError (msg : string) (err : Thrown) (s : State) : State :=
  setStatus Error
    (setError
       (Some (msg ++ (if thrown_truthy err then ": " ++ thrown_text err
                      else EmptyString))%string)
       s).

(** [isApiKeyConfigured], computed at each render. *)
Definition isApiKeyConfigured (s : State) : bool :=
  if isAistudioAvailable s then isAistudioKeySelected s
  else negb (is_empty (trim (apiKey s))).

Definition KEY_NEEDED : string :=
  String E_grave " richiesta una Chiave API Gemini per continuare.".

Definition KEY_INVALID : string :=
  "La Chiave API Gemini non " ++ String e_grave " valida.".

Definition handleUploadAndStartChat (fuel : nat) (w : Remote) (s : State)
  : State * list Call * Outcome :=
  if negb (isApiKeyConfigured s) then
    (setApiKeyError (Some KEY_NEEDED) s, [], Failed KEY_REQUIRED)
  else
    match files s with
    | [] => (s, [], Resolved)
    | _ :: _ =>
        let s1 := setApiKeyError None s in
        match initialize (if isAistudioAvailable s then None else Some (apiKey s))
                (env_API_KEY w) with
        | inl err =>
            (handleError
               "Inizializzazione fallita. Assicurati che la tua chiave API sia valida."
               err s1,
             [CallInitialize], Failed err)
        | inr _ =>
            let s2 := setStatus Uploading s1 in
            match upload_steps fuel w (files s) with
            | (calls, p, StepsAwaiting) =>
                (setUploadProgress p s2, CallInitialize :: calls, Awaiting)
            | (calls, p, StepsDone ragStoreName questions) =>
                let s3 := setExampleQuestions questions s2 in
                let s4 := setDocumentName (docName (files s)) s3 in
                let s5 := setChatHistory [] s4 in
                let s6 := setActiveRagStoreName (Some ragStoreName) s5 in
                let s7 := setStatus Chatting s6 in
                let s8 := setFiles [] s7 in
                (setUploadProgress None s8, CallInitialize :: calls, Resolved)
            | (calls, p, StepsThrew err) =>
                let s3 :=
                  if is_invalid_key_error err then
                    let s' := setApiKeyError (Some KEY_INVALID) s2 in
                    setStatus Welcome
                      (if isAistudioAvailable s
                       then setIsAistudioKeySelected false s' else s')
                  else handleError "Impossibile avviare la sessione di chat" err s2 in
                (setUploadProgress None s3, CallInitialize :: calls, Failed err)
            end
        end
    end.

Definition handleEndChat (s : State) : State * list Call :=
  let calls :=
    match activeRagStoreName s with
    | Some n => if truthy n then [CallDeleteRagStore n] else []
    | None => []
    end in
  (setStatus Welcome
     (setFiles []
        (setDocumentName EmptyString
           (setExampleQuestions []
              (setChatHistory []
                 (setActiveRagStoreName None s))))),
   calls).

Section Persistence.

(** [JSON.stringify] and [JSON.parse] at the two types stored as JSON
    text; [None] is a [SyntaxError]. *)
Variable stringify_history : list ChatMessage -> string.
Variable parse_history : string -> option (list ChatMessage).
Variable stringify_questions : list string -> string.
Variable parse_questions : string -> option (list string).

(** [localStorage] is a finite map from keys to texts: [getItem] is the
    lookup, [setItem] the insertion, [removeItem] the deletion. *)

(** The effect on [apiKey]. *)
Definition persistApiKey (s : State) (st : gmap string string)
  : gmap string string :=
  if truthy (apiKey s) then <["geminiApiKey" := apiKey s]> st
  else delete "geminiApiKey" st.

(** The effect on [activeRagStoreName], [documentName], [chatHistory]
    and [exampleQuestions], run after a render that changed one. *)
Definition persistSession (s : State) (st : gmap string string)
  : gmap string string :=
  let clear :=
    delete "exampleQuestions"
      (delete "chatHistory" (delete "documentName" (delete "ragStoreName" st))) in
  match activeRagStoreName s with
  | Some n =>
      if truthy n then
        <["exampleQuestions" := stringify_questions (exampleQuestions s)]>
          (<["chatHistory" := stringify_history (chatHistory s)]>
             (<["documentName" := documentName s]>
                (<["ragStoreName" := n]> st)))
      else clear
  | None => clear
  end.

(** [localStorage.getItem(key) || fallback]. *)
Definition getItem_or (st : gmap string string) (key fallback : string)
  : string :=
  match st !! key with
  | Some v => if truthy v then v else fallback
  | None => fallback
  end.

(** The state of the first render after a (re)load: the initialisers
    given to [useState]. *)
Definition reload (st : gmap string string) : State :=
  mkState Initializing false false
    (getItem_or st "geminiApiKey" EmptyString)
    None None None
    (st !! "ragStoreName")
    (match parse_history (getItem_or st "chatHistory" "[]") with
     | Some h => h
     | None => []
     end)
    false
    (match parse_questions (getItem_or st "exampleQuestions" "[]") with
     | Some q => q
     | None => []
     end)
    (getItem_or st "documentName" EmptyString)
    [].

End Persistence.

End PersistedApp.

From Stdlib Require Import Sorting.Sorted.

(** * Further parts of the code *)

(** ** The renderer: further vocabulary *)
Module Renderer.
Import JS Markdown.

(** The loop and the two final flushes, without the test on the empty
    text at the head of [renderMarkdown]. *)
Definition render_raw (text : string) : string :=
  html (flushList (flushPara (render_lines (split_newline text)))).

(** The locals with [h] written before the fragment. *)
Definition shift (h : string) (r : Render) : Render :=
  mkRender (h ++ html r) (listType r) (paraBuffer r).

(** The text holds no star, underscore or backtick. *)
Definition no_markers (s : string) : bool :=
  all_chars (fun c => negb (is_marker c)) s.

(** The text holds no line terminator. *)
Definition one_line (s : string) : bool :=
  all_chars (fun c => negb (is_line_terminator c)) s.

(** A star or an underscore: where the bold and italic expressions can
    start. *)
Definition is_emphasis_mark (c : ascii) : bool :=
  Ascii.eqb c "*"%char || Ascii.eqb c "_"%char.

(** An expression that can only match at a character satisfying [p]. *)
Definition led_by (p : ascii -> bool) (m : string -> option (string * string))
  : Prop :=
  m EmptyString = None /\ forall c s, p c = false -> m (String c s) = None.

(** Something has been written or is pending: the fragment is not
    empty, a list is open, or the paragraph buffer holds text. *)
Definition has_output (r : Render) : Prop :=
  html r <> EmptyString \/ listType r <> None \/ paraBuffer r <> EmptyString.

End Renderer.

(** ** The service wrapper: the text of the suggestions answer *)
Module Service.
Import JS Gemini.

Definition FENCE_OPEN : string :=
  String backtick (String backtick (String backtick "json"))
  ++ String newline EmptyString.

Definition FENCE_CLOSE : string :=
  String newline (String backtick (String backtick (String backtick EmptyString))).

(** A lazy run of any characters up to [delim]: the shortest text
    after which [delim] follows, and what is left after it. *)
Fixpoint any_until (delim s : string) : option (string * string) :=
  match strip_prefix delim s with
  | Some rest => Some (EmptyString, rest)
  | None =>
      match s with
      | EmptyString => None
      | String c s' =>
          match any_until delim s' with
          | Some (cap, rest) => Some (String c cap, rest)
          | None => None
          end
      end
  end.

(** The expression for a fenced block at the start of [s]: the opening
    fence with its language tag and line break, the lazy run, a line
    break and the closing fence. *)
Definition fence_at (s : string) : option (string * string) :=
  match strip_prefix FENCE_OPEN s with
  | Some t => any_until FENCE_CLOSE t
  | None => None
  end.

(** [jsonText.match(...)]: group 1 of the leftmost match. *)
Fixpoint fence_group (s : string) : option string :=
  match fence_at s with
  | Some (cap, _) => Some cap
  | None =>
      match s with
      | EmptyString => None
      | String _ s' => fence_group s'
      end
  end.

(** [s.indexOf(c)] and [s.lastIndexOf(c)]; [None] is -1. *)
Fixpoint indexOf (c : ascii) (s : string) : option nat :=
  match s with
  | EmptyString => None
  | String x s' =>
      if Ascii.eqb x c then Some 0
      else match indexOf c s' with
           | Some i => Some (S i)
           | None => None
           end
  end.

Fixpoint lastIndexOf (c : ascii) (s : string) : option nat :=
  match s with
  | EmptyString => None
  | String x s' =>
      match lastIndexOf c s' with
      | Some i => Some (S i)
      | None => if Ascii.eqb x c then Some 0 else None
      end
  end.

(** The [else] branch: from the first opening bracket to the last
    closing one, when the latter comes after the former. *)
Definition bracketed (jsonText : string) : string :=
  match indexOf "["%char jsonText, lastIndexOf "]"%char jsonText with
  | Some firstBracket, Some lastBracket =>
      if (firstBracket <? lastBracket)%nat
      then String.substring firstBracket (lastBracket + 1 - firstBracket) jsonText
      else jsonText
  | _, _ => jsonText
  end.

(** The text handed to [JSON.parse] for the answer text [text]. *)
Definition json_text (text : string) : string :=
  let jsonText := trim text in
  match fence_group jsonText with
  | Some group1 => if truthy group1 then group1 else bracketed jsonText
  | None => bracketed jsonText
  end.

(** [generateExampleQuestions] from the settled request on: [response]
    is the rejection or the answer text, [parse] is [JSON.parse]
    ([None] when it throws). *)
Definition generateExampleQuestions_of (ai : bool) (response : Thrown + string)
    (parse : string -> option json) : Thrown + list string :=
  generateExampleQuestions ai
    (match response with
     | inl _ => None
     | inr text => parse (json_text text)
     end).

(** The text [q] stands in the parsed answer where a question can
    stand: as an element of the array, or, in an object of the array,
    as the value under [questions] or an element of that value. *)
Definition occurs_as_question (q : string) (parsedData : json) : Prop :=
  exists items,
    parsedData = JArr items
    /\ (In (JStr q) items
        \/ exists fields v,
            In (JObj fields) items
            /\ lookup_field "questions" fields = Some v
            /\ (v = JStr q \/ exists qs, v = JArr qs /\ In (JStr q) qs)).

End Service.

(** ** The application component: the remaining handlers *)
Module Orchestrator.
Import JS Gemini App.

(** [checkApiKey]: [hasSelectedApiKey] is the settled call of the host
    dialog, [API_KEY] the environment variable. *)
Definition checkApiKey (hasSelectedApiKey : Thrown + bool)
    (API_KEY : option string) (s : State) : State :=
  if isAistudioAvailable s then
    match hasSelectedApiKey with
    | inr hasKey => setIsApiKeySelected hasKey s
    | inl _ => setIsApiKeySelected false s
    end
  else
    setIsApiKeySelected
      (match API_KEY with
       | Some apiKey => truthy apiKey && negb (is_empty (trim apiKey))
       | None => false
       end) s.

(** [handleSelectKey]: [opened] is the settled [openSelectKey] call,
    [None] when it resolved. *)
Definition handleSelectKey (opened : option Thrown)
    (hasSelectedApiKey : Thrown + bool) (API_KEY : option string) (s : State)
  : State :=
  if isAistudioAvailable s then
    match opened with
    | None => checkApiKey hasSelectedApiKey API_KEY s
    | Some _ => s
    end
  else s.

(** [handleUnload]: the reference follows [activeRagStoreName]. *)
Definition handleUnload (s : State) : list Call :=
  match activeRagStoreName s with
  | Some n => if truthy n then [CallDeleteRagStore n] else []
  | None => []
  end.

Definition CREATING : string := "Creazione dell'indice del documento...".
Definition SUGGESTING : string := "Generazione di suggerimenti...".
Definition READY : string := "Tutto pronto!".

(** The values given to [setUploadProgress] inside the loop over the
    files, oldest first. *)
Fixpoint file_progress (fuel : nat) (w : Remote) (n totalSteps i : nat)
    (rest : list File) : list UploadProgress :=
  match rest with
  | [] => []
  | f :: rest' =>
      mkProgress (i + 1) totalSteps (Some EMBEDDING)
        (Some ("(" ++ string_of_nat (i + 1) ++ "/" ++ string_of_nat n
               ++ ") " ++ name f)%string)
      :: match uploadToRagStore true fuel (operations w i) with
         | Returned _ => file_progress fuel w n totalSteps (S i) rest'
         | _ => []
         end
  end.

(** All the values given to [setUploadProgress] by one upload before
    the final [null], oldest first. *)
Definition progress_trace (fuel : nat) (w : Remote) (fs : list File)
  : list UploadProgress :=
  let totalSteps := length fs + 2 in
  mkProgress 0 totalSteps (Some CREATING) None
  :: match createRagStore true (created w) with
     | inl _ => []
     | inr ragStoreName =>
         mkProgress 1 totalSteps (Some EMBEDDING) None
         :: file_progress fuel w (length fs) totalSteps 0 fs
         ++ match upload_files fuel w ragStoreName (length fs) 0 fs
                    (Some (mkProgress 1 totalSteps (Some EMBEDDING) None)) with
            | (_, _, Some None) =>
                mkProgress (length fs + 1) totalSteps (Some SUGGESTING)
                  (Some EmptyString)
                :: match generateExampleQuestions true (suggestions w) with
                   | inr _ =>
                       [mkProgress totalSteps totalSteps (Some READY)
                          (Some EmptyString)]
                   | inl _ => []
                   end
            | _ => []
            end
     end.

Fixpoint nondecreasing (l : list nat) : bool :=
  match l with
  | a :: rest =>
      match rest with
      | b :: _ => (a <=? b)%nat && nondecreasing rest
      | [] => true
      end
  | [] => true
  end.

(** The four pictures of the progress screen. *)
Inductive Icon := IconUpload | IconEmbeddings | IconSuggestions | IconCompletion.

(** The [if] chain of [renderContent] on [uploadProgress?.message]. *)
Definition icon_for (uploadProgress : option UploadProgress) : option Icon :=
  match uploadProgress with
  | Some p =>
      match message p with
      | Some m =>
          if String.eqb m CREATING then Some IconUpload
          else if String.eqb m EMBEDDING then Some IconEmbeddings
          else if String.eqb m SUGGESTING then Some IconSuggestions
          else if String.eqb m READY then Some IconCompletion
          else None
      | None => None
      end
  | None => None
  end.

(** The properties handed to the progress bar. *)
Record ProgressBarProps := mkBar {
  bar_progress : nat;
  bar_total : nat;
  bar_message : string;
  bar_fileName : option string;
  bar_icon : option Icon
}.

Definition progress_bar (uploadProgress : option UploadProgress)
  : ProgressBarProps :=
  mkBar
    (match uploadProgress with Some p => current p | None => 0 end)
    (match uploadProgress with
     | Some p => if Nat.eqb (total p) 0 then 1 else total p
     | None => 1
     end)
    (match uploadProgress with
     | Some p =>
         match message p with
         | Some m => if truthy m then m else "Preparazione della tua chat..."
         | None => "Preparazione della tua chat..."
         end
     | None => "Preparazione della tua chat..."
     end)
    (match uploadProgress with Some p => fileName p | None => None end)
    (icon_for uploadProgress).

(** What [renderContent] shows. *)
Inductive Screen :=
| ScreenInitializing
| ScreenWelcome
| ScreenProgress (props : ProgressBarProps)
| ScreenChat
| ScreenError (text : option string).

Definition renderContent (s : State) : Screen :=
  match status s with
  | Initializing => ScreenInitializing
  | Welcome => ScreenWelcome
  | Uploading => ScreenProgress (progress_bar (uploadProgress s))
  | Chatting => ScreenChat
  | Error => ScreenError (error s)
  end.

End Orchestrator.

(** ** The chat screen *)
Module Chat.
Import JS Markdown App.

(** [handleSubmit] on the text of the input field: the message handed
    to [onSendMessage], if any, and the new text of the field. *)
Definition handleSubmit (query : string) : option string * string :=
  if truthy (trim query) then (Some query, EmptyString) else (None, query).

(** The [disabled] attribute of the send button. *)
Definition send_disabled (isQueryLoading : bool) (query : string) : bool :=
  isQueryLoading || negb (truthy (trim query)).

(** The suggestion buttons above the history, in their order; a click
    on one hands its text to [onSendMessage]. *)
Definition shown_suggestions (history : list ChatMessage)
    (exampleQuestions : list string) : list string :=
  if Nat.eqb (length history) 0 && Nat.ltb 0 (length exampleQuestions)
  then firstn 5 exampleQuestions
  else [].

(** The fragment shown in the bubble of a message:
    [renderMarkdown(message.parts[0].text)]; reading [text] of a
    missing first part throws. *)
Definition bubble (m : ChatMessage) : option string :=
  match parts m with
  | p :: _ => Some (renderMarkdown (text p))
  | [] => None
  end.

End Chat.

(** ** The welcome screen *)
Module Welcome.
Import JS Gemini App.

(** [handleFileChange] and [handleDrop]: [picked] is the file list of
    the event, when it has one. *)
Definition handleFileChange (picked : option (list File)) (prev : list File)
  : list File :=
  match picked with
  | Some fs => prev ++ fs
  | None => prev
  end.

Definition handleDrop (dropped : option (list File)) (prev : list File)
  : list File :=
  match dropped with
  | Some fs => prev ++ fs
  | None => prev
  end.

(** [l.filter((x, index) => keep(x, index))], from position [index]. *)
Fixpoint filter_index {A} (keep : A -> nat -> bool) (index : nat) (l : list A)
  : list A :=
  match l with
  | [] => []
  | x :: rest =>
      if keep x index then x :: filter_index keep (S index) rest
      else filter_index keep (S index) rest
  end.

Definition handleRemoveFile (indexToRemove : nat) (prevFiles : list File)
  : list File :=
  filter_index (fun _ index => negb (Nat.eqb index indexToRemove)) 0 prevFiles.

(** How fetching a sample document ends: the request is rejected, the
    response is not [ok] and carries a status text, or the response is
    [ok] and reading its body is rejected or gives a blob. *)
Inductive Fetch :=
| FetchRejected (e : Thrown)
| FetchNotOk (statusText : string)
| FetchOk (blob : option Thrown).

(** The part of the state of the welcome screen the sample buttons
    use. *)
Record Picker := mkPicker {
  picked_files : list File;
  loadingSample : option string
}.

Definition is_error_object (e : Thrown) : bool :=
  match e with ErrorObj _ => true | NonError _ _ => false end.

(** [handleSelectSample(name, url, fileName)] from its start to its
    end: the state reached and whether an alert was shown. *)
Definition handleSelectSample (name url fileName : string) (fetched : Fetch)
    (st : Picker) : Picker * bool :=
  if match loadingSample st with Some l => truthy l | None => false end
  then (st, false)
  else
    let thrown :=
      match fetched with
      | FetchRejected e => Some e
      | FetchNotOk statusText =>
          Some (ErrorObj ("Impossibile recuperare " ++ name ++ ": " ++ statusText
                          ++ ". Potrebbe essere un problema di CORS."))
      | FetchOk (Some e) => Some e
      | FetchOk None => None
      end in
    match thrown with
    | None => (mkPicker (picked_files st ++ [mkFile fileName]) None, false)
    | Some error =>
        (mkPicker (picked_files st) None,
         is_error_object error && includes (thrown_text error) "Failed to fetch")
    end.

(** The button that starts the upload: absent, or present with its
    [disabled] attribute. *)
Definition upload_button (s : State) : option bool :=
  if Nat.ltb 0 (length (files s)) then Some (negb (isApiKeySelected s))
  else None.

(** [handleConfirmUpload]: the rejection of [onUpload] is caught and
    logged. *)
Definition handleConfirmUpload (fuel : nat) (w : Remote) (s : State)
  : State * list Call * Outcome :=
  match handleUploadAndStartChat fuel w s with
  | (s', calls, Failed _) => (s', calls, Resolved)
  | r => r
  end.

End Welcome.

(** ** The persisted revision: the start of a visit *)
Module Resume.
Import JS Gemini App PersistedApp.

(** [checkAistudioApiKey] of the render [s]: [answer] is the settled
    call of the host dialog, and the setter acts on the state [cur] of
    that moment. *)
Definition checkAistudioApiKey (answer : Thrown + bool) (s cur : State)
  : State :=
  if isAistudioAvailable s then
    match answer with
    | inr hasKey => setIsAistudioKeySelected hasKey cur
    | inl _ => setIsAistudioKeySelected false cur
    end
  else cur.

(** One run of the [initialize] function of the start-up effect. The
    function is the closure of the render [s], from which it reads
    [isAistudioAvailable] and [apiKey]; its setters act on the state
    [cur] the component has when they are called, which an earlier run
    may have changed; [st] is the storage it reads. [first] answers the
    call made by [checkAistudioApiKey], [second] the call made for
    [keyConfigured]. The result is the state, the storage, the service
    calls and how the function stands. *)
Definition startup (first second : Thrown + bool) (env_API_KEY : option string)
    (s cur : State) (st : gmap string string)
  : State * gmap string string * list Call * Outcome :=
  let s1 := checkAistudioApiKey first s cur in
  let storedRagStore := st !! "ragStoreName" in
  let keyConfigured : Thrown + bool :=
    if isAistudioAvailable s then second
    else inr (negb (is_empty (trim (getItem_or st "geminiApiKey" EmptyString)))) in
  match keyConfigured with
  | inl e => (s1, st, [], Failed e)
  | inr configured =>
      if match storedRagStore with Some n => truthy n | None => false end
         && configured
      then
        match initialize
                (if isAistudioAvailable s then None
                 else if truthy (apiKey s) then Some (apiKey s)
                      else st !! "geminiApiKey")
                env_API_KEY with
        | inr _ => (setStatus Chatting s1, st, [CallInitialize], Resolved)
        | inl _ =>
            (setStatus Welcome s1, delete "ragStoreName" st, [CallInitialize],
             Resolved)
        end
      else (setStatus Welcome s1, st, [], Resolved)
  end.

End Resume.

(** ** The document list of a store: the upload dialog *)
Module Documents.
Import JS App Welcome.

(** A row of the metadata editor. *)
Record MetadataRow := mkRow { key : string; value : string }.

(** An entry of the metadata sent with a document. *)
Record CustomMetadata := mkMeta { meta_key : string; stringValue : string }.

(** The state of the dialog. *)
Record Modal := mkModal {
  isUploadModalOpen : bool;
  selectedFile : option File;
  metadata : list MetadataRow
}.

Definition empty_row : MetadataRow := mkRow EmptyString EmptyString.

Definition handleUploadClick (m : Modal) : Modal :=
  mkModal true (selectedFile m) (metadata m).

Definition handleModalClose (m : Modal) : Modal :=
  mkModal false None [empty_row].

(** [handleFileChange]: [file] is the first file of the event, if
    any. *)
Definition handleFileChange (file : option File) (m : Modal) : Modal :=
  match file with
  | Some f => mkModal (isUploadModalOpen m) (Some f) (metadata m)
  | None => m
  end.

Inductive Field := FieldKey | FieldValue.

Definition set_field (field : Field) (text : string) (row : MetadataRow)
  : MetadataRow :=
  match field with
  | FieldKey => mkRow text (value row)
  | FieldValue => mkRow (key row) text
  end.

(** [handleMetadataChange]: the row at [index] is written in place and
    the copied array becomes the state; writing a field of a missing
    row throws, which is [None]. *)
Definition handleMetadataChange (index : nat) (field : Field) (text : string)
    (m : Modal) : option Modal :=
  match nth_error (metadata m) index with
  | Some row =>
      Some (mkModal (isUploadModalOpen m) (selectedFile m)
              (firstn index (metadata m) ++ set_field field text row
               :: skipn (S index) (metadata m)))
  | None => None
  end.

Definition addMetadataRow (m : Modal) : Modal :=
  mkModal (isUploadModalOpen m) (selectedFile m) (metadata m ++ [empty_row]).

Definition removeMetadataRow (index : nat) (m : Modal) : Modal :=
  mkModal (isUploadModalOpen m) (selectedFile m)
    (filter_index (fun _ i => negb (Nat.eqb i index)) 0 (metadata m)).

(** The metadata handed to [onUpload]. *)
Definition formattedMetadata (rows : list MetadataRow) : list CustomMetadata :=
  map (fun m => mkMeta (trim (key m)) (trim (value m)))
    (List.filter (fun m => negb (is_empty (trim (key m)))) rows).

(** The entries that stand for the rows, in words: going through the
    rows in their order, a row whose key holds no visible character
    gives no entry, and any other row gives one entry, made of its key
    and its value without the white space at their ends. *)
Inductive entries_of_rows : list MetadataRow -> list CustomMetadata -> Prop :=
| entries_none : entries_of_rows [] []
| entries_skip row rows sent :
    all_chars is_whitespace (key row) = true ->
    entries_of_rows rows sent ->
    entries_of_rows (row :: rows) sent
| entries_keep row rows sent :
    all_chars is_whitespace (key row) = false ->
    entries_of_rows rows sent ->
    entries_of_rows (row :: rows)
      (mkMeta (trim (key row)) (trim (value row)) :: sent).

(** [handleConfirmUpload]: the new state of the dialog and the
    arguments of [onUpload], if it was called. *)
Definition handleConfirmUpload (m : Modal)
  : Modal * option (File * list CustomMetadata) :=
  match selectedFile m with
  | None => (m, None)
  | Some f => (handleModalClose m, Some (f, formattedMetadata (metadata m)))
  end.

(** The entries of a document shown in the list: [meta.key && ...]. *)
Definition shown_metadata (customMetadata : list CustomMetadata)
  : list CustomMetadata :=
  List.filter (fun meta => truthy (meta_key meta)) customMetadata.

End Documents.

(** ** Concrete inputs used by the examples *)
Module Samples.
Import JS Gemini App.




(** An operation that is done at its third observation. *)
Definition done_at_2 : Operation :=
  fun k => if Nat.eqb k 2 then Done else Pending.

(** A grouped answer whose second group carries a text, not an array,
    under [questions]. *)
Definition mixed_groups : json :=
  JArr [JObj [("product", JStr "Prodotto A");
              ("questions", JArr [JStr "d1"; JStr "d2"])];
        JObj [("product", JStr "Prodotto B");
              ("questions", JStr "d3")]].

(** The example of the prompt. *)
Definition prompt_example : json :=
  JArr [JObj [("product", JStr "Prodotto A");
              ("questions", JArr [JStr "d1"; JStr "d2"])];
        JObj [("product", JStr "Prodotto B");
              ("questions", JArr [JStr "d3"; JStr "d4"])]].

Definition manual_a : File := mkFile "hyundai-i10-manual.pdf".
Definition manual_b : File := mkFile "lg-washer-manual.pdf".
Definition manual_c : File := mkFile "note.txt".

(** The welcome screen before a credential is selected, no file chosen. *)
Definition welcome_no_key : State :=
  mkState Welcome false false None None None None [] false [] EmptyString [].

(** The welcome screen with a credential and one file. *)
Definition welcome_ready : State :=
  mkState Welcome true false None None None None [] false [] EmptyString
    [manual_a].

(** A running chat on one document. *)
Definition chatting : State :=
  mkState Chatting true false None None None (Some "fileSearchStores/s1")
    [] false ["d1"; "d2"] "hyundai-i10-manual.pdf" [].

(** A service that answers every call at once. *)
Definition remote_ok : Remote :=
  mkRemote (Some "key") 1700000000000%N (inr (Some "fileSearchStores/s1"))
    (fun _ _ => Done) (Some prompt_example).

(** A service that refuses the credential when the store is created. *)
Definition remote_invalid_key : Remote :=
  mkRemote (Some "key") 1700000000000%N
    (inl (ErrorObj "API key not valid. Please pass a valid API key."))
    (fun _ _ => Done) None.

Definition network_down : Thrown := ErrorObj "Failed to fetch".

(** The revision with the persisted session, a key typed in and one
    file chosen. *)
Definition persisted_ready : PersistedApp.State :=
  PersistedApp.mkState Welcome false false "key" None None None None [] false []
    EmptyString [manual_a].

(** A serialisation of the two stored values that is exact on the
    values of the examples: the history of a fresh session and a list
    of one-line questions. *)
Definition sample_stringify_history (h : list ChatMessage) : string :=
  match h with [] => "[]" | _ :: _ => "[...]" end.

Definition sample_parse_history (t : string) : option (list ChatMessage) :=
  if String.eqb t "[]" then Some [] else None.

Definition sample_stringify_questions (qs : list string) : string :=
  String "["%char (join (String newline EmptyString) qs).

Definition sample_parse_questions (t : string) : option (list string) :=
  match t with
  | String _ rest => Some (split_newline rest)
  | EmptyString => None
  end.

End Samples.

(** ** Concrete runs of the upload used by the examples *)
Module Scenarios.
Import JS Gemini App Samples.

Definition three_manuals : list File := [manual_a; manual_b; manual_c].

(** The welcome screen with a credential and three files. *)
Definition welcome_three : State :=
  mkState Welcome true false None None None None [] false [] EmptyString
    three_manuals.

(** A service whose second operation is rejected at its first poll. *)
Definition remote_second_rejected : Remote :=
  mkRemote (Some "key") 1700000000000%N (inr (Some "fileSearchStores/s1"))
    (fun i k =>
       if Nat.eqb i 1 then
         if Nat.eqb k 0 then Pending else Rejected network_down
       else Done)
    (Some prompt_example).

(** A service whose second operation never completes. *)
Definition remote_second_stuck : Remote :=
  mkRemote (Some "key") 1700000000000%N (inr (Some "fileSearchStores/s1"))
    (fun i _ => if Nat.eqb i 1 then Pending else Done)
    (Some prompt_example).

(** A render of the persisted revision in the hosted environment, with
    no credential typed. *)
Definition hosted_render : PersistedApp.State :=
  PersistedApp.mkState Initializing true false EmptyString None None None None
    [] false [] EmptyString [].

End Scenarios.

(** * Properties *)

#[local] Arguments String.append : simpl nomatch.

(** ** Strings *)
Module JSFacts.
Import JS.

Lemma append_nil_r (s : string) : (s ++ EmptyString)%string = s.
Proof. induction s as [|c s IH]; simpl; [reflexivity | now rewrite IH]. Qed.

Lemma append_assoc (a b c : string) :
  ((a ++ b) ++ c)%string = (a ++ b ++ c)%string.
Proof. induction a as [|x a IH]; simpl; [reflexivity | now rewrite IH]. Qed.

Lemma strip_prefix_append (p r : string) :
  strip_prefix p (p ++ r) = Some r.
Proof.
  induction p as [|a p IH]; simpl; [reflexivity|].
  now rewrite Ascii.eqb_refl.
Qed.

Lemma strip_prefix_Some (p s r : string) :
  strip_prefix p s = Some r -> s = (p ++ r)%string.
Proof.
  revert s. induction p as [|a p IH]; intros s H; simpl in *.
  - now injection H as ->.
  - destruct s as [|b s]; [discriminate|].
    destruct (Ascii.eqb a b) eqn:E; [|discriminate].
    apply Ascii.eqb_eq in E. subst b. simpl. f_equal. now apply IH.
Qed.

Lemma includes_unfold (s needle : string) :
  includes s needle
  = starts_with needle s
    || match s with
       | EmptyString => false
       | String _ s' => includes s' needle
       end.
Proof. destruct s; reflexivity. Qed.

Lemma includes_iff (s needle : string) :
  includes s needle = true <->
  exists pre post : string, s = (pre ++ needle ++ post)%string.
Proof.
  split.
  - induction s as [|c s IH]; simpl; unfold starts_with.
    + destruct (strip_prefix needle EmptyString) as [r|] eqn:E; [|discriminate].
      intros _. exists EmptyString, r. now apply (strip_prefix_Some needle).
    + destruct (strip_prefix needle (String c s)) as [r|] eqn:E.
      * intros _. exists EmptyString, r. now apply (strip_prefix_Some needle).
      * simpl. intros H. destruct (IH H) as (pre & post & ->).
        now exists (String c pre), post.
  - intros (pre & post & ->). induction pre as [|c pre IH]; simpl.
    + rewrite includes_unfold. unfold starts_with.
      rewrite (strip_prefix_append needle post). reflexivity.
    + rewrite IH. apply orb_true_r.
Qed.

Lemma toLowerCase_append (a b : string) :
  toLowerCase (a ++ b) = (toLowerCase a ++ toLowerCase b)%string.
Proof. induction a as [|c a IH]; simpl; [reflexivity | now rewrite IH]. Qed.

Lemma toLowerCase_split (m a b : string) :
  toLowerCase m = (a ++ b)%string ->
  exists a' b' : string,
    m = (a' ++ b')%string /\ toLowerCase a' = a /\ toLowerCase b' = b.
Proof.
  revert m. induction a as [|c a IH]; intros m H; simpl in H.
  - exists EmptyString, m. auto.
  - destruct m as [|x m]; simpl in H; [discriminate|].
    injection H as Hc H. destruct (IH m H) as (a' & b' & -> & <- & <-).
    exists (String x a'), b'. simpl. now rewrite Hc.
Qed.

(** The test of the code, [m.toLowerCase().includes(needle)], is the
    containment of [needle] up to letter case when [needle] is written
    in lower case. *)
Lemma includes_toLowerCase (m needle : string) :
  toLowerCase needle = needle ->
  (includes (toLowerCase m) needle = true <-> contains_ignoring_case m needle).
Proof.
  intros Hn. rewrite includes_iff. unfold contains_ignoring_case. split.
  - intros (pre & post & H).
    apply toLowerCase_split in H. destruct H as (pre' & r & -> & _ & H).
    apply toLowerCase_split in H. destruct H as (mid & post' & -> & H & _).
    exists pre', mid, post'. now rewrite Hn.
  - intros (pre & mid & post & -> & H).
    exists (toLowerCase pre), (toLowerCase post).
    now rewrite !toLowerCase_append, H, Hn.
Qed.

End JSFacts.

(** ** The Markdown renderer *)
Module MarkdownFacts.
Import JS Markdown JSFacts Samples.

#[local] Arguments P_OPEN : simpl never.
#[local] Arguments P_CLOSE : simpl never.
#[local] Arguments BR : simpl never.
#[local] Arguments OL_OPEN : simpl never.
#[local] Arguments UL_OPEN : simpl never.
#[local] Arguments CODE_OPEN : simpl never.

(** *** Blank lines and lines without tokens *)

Lemma drop_while_all p s : all_chars p s = true -> drop_while p s = EmptyString.
Proof.
  induction s as [|c s IH]; simpl; [reflexivity|].
  intros H. apply andb_true_iff in H. destruct H as [Hc Hs].
  rewrite Hc. now apply IH.
Qed.

Lemma is_blank_iff (line : string) :
  is_blank line = true <-> all_chars is_whitespace line = true.
Proof.
  unfold is_blank, trim, trimStart. split.
  - induction line as [|c s IH]; simpl; [reflexivity|].
    destruct (is_whitespace c) eqn:E; simpl.
    + exact IH.
    + rewrite E. simpl. discriminate.
  - intros H. now rewrite (drop_while_all _ _ H).
Qed.

Lemma whitespace_not_marker c : is_whitespace c = true -> is_marker c = false.
Proof.
  destruct c as [b0 b1 b2 b3 b4 b5 b6 b7].
  destruct b0, b1, b2, b3, b4, b5, b6, b7; intros H;
    solve [reflexivity | discriminate H].
Qed.

(** Each inline expression starts with a marker. *)
Lemma delimited_marker d0 d s :
  is_marker d0 = true ->
  delimited (String d0 d) s <> None ->
  exists c s', s = String c s' /\ is_marker c = true.
Proof.
  intros Hm. unfold delimited. simpl.
  destruct s as [|c s']; [congruence|].
  destruct (Ascii.eqb d0 c) eqn:E; [|congruence].
  apply Ascii.eqb_eq in E. subst c. intros _. now exists d0, s'.
Qed.

Lemma alt_marker_led a b : marker_led a -> marker_led b -> marker_led (alt a b).
Proof.
  intros Ha Hb s. unfold alt. destruct (a s) eqn:E.
  - intros _. apply Ha. congruence.
  - apply Hb.
Qed.

Lemma match_strong_marker_led : marker_led match_strong.
Proof.
  apply alt_marker_led; intros s; now apply delimited_marker.
Qed.

Lemma match_em_marker_led : marker_led match_em.
Proof.
  apply alt_marker_led; intros s; now apply delimited_marker.
Qed.

Lemma match_code_marker_led : marker_led match_code.
Proof.
  intros s. unfold match_code. destruct s as [|c t]; [congruence|].
  destruct (Ascii.eqb c backtick) eqn:E; [|congruence].
  intros _. exists c, t. split; [reflexivity|].
  unfold is_marker. rewrite E. now rewrite !orb_true_r.
Qed.

Lemma no_marker_no_match m s :
  marker_led m ->
  all_chars (fun c => negb (is_marker c)) s = true ->
  matches_somewhere m s = false.
Proof.
  intros Hm. induction s as [|c s IH]; simpl; intros H.
  - destruct (m EmptyString) eqn:E; [|reflexivity].
    destruct (Hm EmptyString) as (c & s' & Hs & _); congruence.
  - apply andb_true_iff in H. destruct H as [Hc Hs].
    destruct (m (String c s)) eqn:E; [|now apply IH].
    destruct (Hm (String c s)) as (c' & s' & Heq & Hc'); [congruence|].
    injection Heq as <- <-. now rewrite Hc' in Hc.
Qed.

Lemma all_chars_impl (p q : ascii -> bool) s :
  (forall c, p c = true -> q c = true) ->
  all_chars p s = true -> all_chars q s = true.
Proof.
  intros Hpq. induction s as [|c s IH]; simpl; [reflexivity|].
  intros H. apply andb_true_iff in H. destruct H as [Hc Hs].
  now rewrite (Hpq c Hc), IH.
Qed.

(** Where the expression matches nowhere, [replace] changes nothing. *)
Lemma replaceAll_no_match m opening closing s :
  matches_somewhere m s = false -> replaceAll m opening closing s = s.
Proof.
  unfold replaceAll. induction s as [|c s IH]; simpl; [reflexivity|].
  destruct (m (String c s)); [discriminate|].
  intros H. now rewrite IH.
Qed.

Lemma inline_no_markup line : has_markup line = false -> inline line = line.
Proof.
  unfold has_markup, inline. intros H.
  apply orb_false_iff in H. destruct H as [H Hc].
  apply orb_false_iff in H. destruct H as [Hs He].
  now rewrite (replaceAll_no_match _ _ _ _ Hs), (replaceAll_no_match _ _ _ _ He),
    (replaceAll_no_match _ _ _ _ Hc).
Qed.

Lemma no_marker_no_markup line :
  all_chars (fun c => negb (is_marker c)) line = true -> has_markup line = false.
Proof.
  intros H. unfold has_markup.
  rewrite (no_marker_no_match _ _ match_strong_marker_led H).
  rewrite (no_marker_no_match _ _ match_em_marker_led H).
  now rewrite (no_marker_no_match _ _ match_code_marker_led H).
Qed.

Lemma blank_no_markup line : is_blank line = true -> has_markup line = false.
Proof.
  intros H. apply no_marker_no_markup. apply is_blank_iff in H.
  revert H. apply all_chars_impl. intros c Hc.
  now rewrite (whitespace_not_marker c Hc).
Qed.

Lemma blank_not_list line : is_blank line = true -> is_list_line line = false.
Proof.
  intros H. apply is_blank_iff in H. unfold is_list_line, match_ol, match_ul.
  now rewrite (drop_while_all _ _ H).
Qed.

Lemma is_list_line_false line :
  is_list_line line = false -> match_ol line = None /\ match_ul line = None.
Proof.
  unfold is_list_line. destruct (match_ol line), (match_ul line);
    intros H; try discriminate H. now split.
Qed.

Lemma render_line_blank r line :
  is_blank line = true ->
  render_line r line = flushPara (flushList r).
Proof.
  intros H. unfold render_line.
  rewrite (inline_no_markup _ (blank_no_markup _ H)).
  destruct (is_list_line_false _ (blank_not_list _ H)) as [-> ->].
  unfold is_blank in H. now rewrite H.
Qed.

Lemma render_lines_blank lines :
  Forall (fun l => is_blank l = true) lines ->
  fold_left render_line lines render_start = render_start.
Proof.
  induction 1 as [|l lines Hl _ IH]; simpl; [reflexivity|].
  now rewrite (render_line_blank _ _ Hl).
Qed.

(** C10. The empty text, and every text all of whose lines are blank,
    renders to the empty fragment: no paragraph element is produced. *)
Theorem renderMarkdown_blank :
  renderMarkdown EmptyString = EmptyString
  /\ forall text,
      Forall (fun l => is_blank l = true) (split_newline text) ->
      renderMarkdown text = EmptyString
      /\ renderMarkdown text <> (P_OPEN ++ P_CLOSE)%string.
Proof.
  split; [reflexivity|]. intros text H.
  assert (E : renderMarkdown text = EmptyString).
  { unfold renderMarkdown, render_lines.
    destruct (is_empty text); [reflexivity|].
    now rewrite (render_lines_blank _ H). }
  rewrite E. split; [reflexivity | discriminate].
Qed.

Lemma renderMarkdown_blank_witness :
  renderMarkdown (String newline (String " "%char (String newline EmptyString)))
  = EmptyString.
Proof.
  destruct renderMarkdown_blank as [_ H].
  apply H. repeat constructor.
Defined.

(** *** Text without tokens *)

Lemma plain_line_parts line :
  plain_line line = true ->
  has_markup line = false /\ is_list_line line = false /\ is_blank line = false.
Proof.
  unfold plain_line. intros H.
  apply andb_true_iff in H. destruct H as [H Hb].
  apply andb_true_iff in H. destruct H as [Hm Hl].
  repeat split; now apply negb_true_iff.
Qed.

Lemma plain_line_not_empty line : plain_line line = true -> line <> EmptyString.
Proof.
  intros H. apply plain_line_parts in H. destruct H as (_ & _ & H).
  intros ->. discriminate H.
Qed.

Lemma render_line_plain r line :
  plain_line line = true ->
  listType r = None ->
  render_line r line
  = mkRender (html r) None (buffer_line (paraBuffer r) line).
Proof.
  intros H Hr. apply plain_line_parts in H. destruct H as (Hm & Hl & Hb).
  unfold render_line. rewrite (inline_no_markup _ Hm).
  destruct (is_list_line_false _ Hl) as [-> ->].
  unfold is_blank in Hb. rewrite Hb.
  unfold flushList, buffer_line. rewrite Hr. simpl. now rewrite Hr.
Qed.

Lemma render_lines_plain lines : forall r,
  Forall (fun l => plain_line l = true) lines ->
  listType r = None ->
  fold_left render_line lines r
  = mkRender (html r) None (fold_left buffer_line lines (paraBuffer r)).
Proof.
  induction lines as [|l lines IH]; intros r H Hr; simpl.
  - destruct r as [h t b]. simpl in Hr. now subst t.
  - inversion H as [|? ? Hl Hls]; subst.
    rewrite (render_line_plain _ _ Hl Hr). now rewrite IH.
Qed.

Lemma append_not_empty (a b : string) :
  a <> EmptyString -> (a ++ b)%string <> EmptyString.
Proof. destruct a; [congruence | discriminate]. Qed.

Lemma truthy_not_empty (s : string) : s <> EmptyString -> truthy s = true.
Proof. destruct s; [congruence | reflexivity]. Qed.

Lemma buffer_lines_from buffer lines :
  buffer <> EmptyString ->
  fold_left buffer_line lines buffer
  = (buffer ++ concat_strings (map (fun l => BR ++ l) lines))%string.
Proof.
  revert buffer. induction lines as [|l lines IH]; intros buffer Hb; simpl.
  - now rewrite append_nil_r.
  - rewrite IH by (unfold buffer_line; now apply append_not_empty).
    unfold buffer_line. rewrite (truthy_not_empty _ Hb).
    now rewrite !append_assoc.
Qed.

Lemma join_cons sep s s' rest :
  join sep (s :: s' :: rest) = (s ++ sep ++ join sep (s' :: rest))%string.
Proof. reflexivity. Qed.

Lemma join_as_concat sep lines : forall l,
  join sep (l :: lines)
  = (l ++ concat_strings (map (fun x => sep ++ x) lines))%string.
Proof.
  induction lines as [|l' lines IH]; intros l.
  - simpl. now rewrite append_nil_r.
  - rewrite join_cons, IH. simpl. now rewrite !append_assoc.
Qed.

Lemma split_newline_not_nil s : split_newline s <> [].
Proof.
  induction s as [|c s IH]; simpl; [discriminate|].
  destruct (Ascii.eqb c newline); [discriminate|].
  destruct (split_newline s); [contradiction | discriminate].
Qed.

(** Joining the lines of a text with [<br/>] is replacing its line
    breaks by [<br/>]. *)
Lemma join_split_newline text :
  join BR (split_newline text) = br_for_newlines text.
Proof.
  induction text as [|c s IH]; simpl; [reflexivity|].
  destruct (Ascii.eqb c newline).
  - destruct (split_newline s) as [|l ls] eqn:E;
      [now destruct (split_newline_not_nil s)|].
    rewrite join_cons, IH. reflexivity.
  - destruct (split_newline s) as [|l ls] eqn:E;
      [now destruct (split_newline_not_nil s)|].
    rewrite <- IH. rewrite !join_as_concat. reflexivity.
Qed.

(** C5. A non-empty text whose lines hold no bold, italic or
    inline-code token, match neither list pattern and are not blank
    renders to exactly one paragraph element around the text with its
    line breaks replaced by [<br/>]. *)
Theorem renderMarkdown_plain_text text :
  text <> EmptyString ->
  Forall (fun l => plain_line l = true) (split_newline text) ->
  renderMarkdown text = (P_OPEN ++ br_for_newlines text ++ P_CLOSE)%string.
Proof.
  intros Hne H. unfold renderMarkdown, render_lines.
  destruct (is_empty text) eqn:Ee; [destruct text; [congruence | discriminate]|].
  rewrite (render_lines_plain _ render_start H eq_refl).
  change (paraBuffer render_start) with EmptyString.
  change (html render_start) with EmptyString.
  rewrite <- join_split_newline.
  destruct (split_newline text) as [|l ls] eqn:E;
    [now destruct (split_newline_not_nil text)|].
  assert (Hl : l <> EmptyString) by exact (plain_line_not_empty _ (Forall_inv H)).
  change (fold_left buffer_line (l :: ls) EmptyString)
    with (fold_left buffer_line ls l).
  rewrite (buffer_lines_from l ls Hl), join_as_concat.
  unfold flushPara. cbn [paraBuffer html listType].
  rewrite (truthy_not_empty _ (append_not_empty _ _ Hl)).
  reflexivity.
Qed.

Lemma renderMarkdown_plain_text_witness :
  renderMarkdown ("Premere il tasto" ++ String newline "per 3 secondi.")
  = (P_OPEN ++ "Premere il tasto<br/>per 3 secondi." ++ P_CLOSE)%string.
Proof.
  apply (renderMarkdown_plain_text
           ("Premere il tasto" ++ String newline "per 3 secondi.")).
  - discriminate.
  - repeat constructor.
Defined.

(** A lone star or underscore is no token. *)
Example lone_star_is_plain : plain_line "2 * 3 = 6" = true.
Proof. reflexivity. Qed.

(** *** The containers of the fragment *)

Lemma concat_strings_app (xs ys : list string) :
  concat_strings (xs ++ ys)
  = (concat_strings xs ++ concat_strings ys)%string.
Proof.
  induction xs as [|x xs IH]; simpl; [reflexivity|].
  now rewrite IH, append_assoc.
Qed.

Lemma render_blocks_snoc bs b :
  render_blocks (bs ++ [b]) = (render_blocks bs ++ render_block b)%string.
Proof.
  unfold render_blocks. rewrite map_app, concat_strings_app. simpl.
  now rewrite append_nil_r.
Qed.

Lemma render_line_classified r rawLine :
  render_line r rawLine
  = match classify (inline rawLine) with
    | Some (t, item) => list_line t item r
    | None =>
        let r1 := flushList r in
        if is_blank (inline rawLine) then flushPara r1
        else mkRender (html r1) (listType r1)
               (buffer_line (paraBuffer r1) (inline rawLine))
    end.
Proof.
  unfold render_line, classify.
  destruct (match_ol (inline rawLine)); [reflexivity|].
  destruct (match_ul (inline rawLine)); reflexivity.
Qed.

Section Nesting.

Variable P : string -> Prop.
Hypothesis P_empty : P EmptyString.
Hypothesis P_buffer_line :
  forall buffer line : string, P buffer -> P line -> P (buffer_line buffer line).

Lemma flushPara_nested r :
  well_nested P r ->
  well_nested P (flushPara r)
  /\ listType (flushPara r) = listType r
  /\ paraBuffer (flushPara r) = EmptyString.
Proof.
  intros (Hb & bs & Hok & Hc & Hs). unfold flushPara.
  destruct (truthy (paraBuffer r)) eqn:E.
  - cbn [listType paraBuffer html]. split; [|split; reflexivity].
    split; [exact P_empty|]. cbn [listType paraBuffer html].
    destruct (listType r) as [t|].
    + destruct Hs as (Hbuf & _). rewrite Hbuf in E. discriminate E.
    + exists (bs ++ [Paragraph (paraBuffer r)]). split; [|split].
      * apply Forall_app. split; [exact Hok|]. constructor; [|constructor].
        simpl. intros Hbuf. rewrite Hbuf in E. discriminate E.
      * apply Forall_app. split; [exact Hc|]. constructor; [exact Hb|constructor].
      * rewrite render_blocks_snoc, Hs. reflexivity.
  - split; [|split; [reflexivity|]].
    + split; [exact Hb|]. exists bs. auto.
    + destruct (paraBuffer r); [reflexivity | discriminate E].
Qed.

Lemma flushList_nested r :
  well_nested P r ->
  well_nested P (flushList r)
  /\ listType (flushList r) = None
  /\ paraBuffer (flushList r) = paraBuffer r.
Proof.
  intros (Hb & bs & Hok & Hc & Hs). unfold flushList.
  destruct (listType r) as [t|] eqn:E.
  - cbn [listType paraBuffer html]. split; [|split; reflexivity].
    split; [exact Hb|]. cbn [listType paraBuffer html].
    destruct Hs as (_ & items & Hne & Hi & Hh).
    exists (bs ++ [ListOf t items]). split; [|split].
    + apply Forall_app. split; [exact Hok|]. now constructor.
    + apply Forall_app. split; [exact Hc|]. now constructor.
    + rewrite render_blocks_snoc, Hh. simpl. now rewrite !append_assoc.
  - split; [|split; [exact E | reflexivity]].
    split; [exact Hb|]. exists bs. rewrite E. auto.
Qed.

Lemma ListType_eqb_eq a b : ListType_eqb a b = true -> a = b.
Proof. destruct a, b; simpl; congruence. Qed.

Lemma list_line_nested t item r :
  P item -> well_nested P r -> well_nested P (list_line t item r).
Proof.
  intros Hitem Hr. unfold list_line.
  destruct (flushPara_nested r Hr) as (H1 & _ & Hbuf1).
  set (r1 := flushPara r) in *. unfold is_list.
  destruct (listType r1) as [t'|] eqn:E1.
  - destruct (ListType_eqb t' t) eqn:Et.
    + apply ListType_eqb_eq in Et. subst t'.
      destruct H1 as (Hb & bs & Hok & Hc & Hs). rewrite E1 in Hs.
      destruct Hs as (_ & items & Hne & Hi & Hh).
      unfold emit. split; [exact Hb|]. cbn [listType paraBuffer html].
      rewrite E1. exists bs. split; [exact Hok|]. split; [exact Hc|].
      split; [exact Hbuf1|]. exists (items ++ [item]). split; [|split].
      * now destruct items.
      * apply Forall_app. split; [exact Hi|]. now constructor.
      * rewrite Hh, map_app, concat_strings_app. simpl.
        now rewrite append_nil_r, !append_assoc.
    + destruct (flushList_nested r1 H1) as (H2 & Hl2 & Hbuf2).
      destruct H2 as (Hb & bs & Hok & Hc & Hs). rewrite Hl2 in Hs.
      unfold emit. cbn [listType paraBuffer html].
      split; [exact Hb|]. cbn [listType paraBuffer html].
      exists bs. split; [exact Hok|]. split; [exact Hc|].
      split; [now rewrite Hbuf2|]. exists [item]. split; [discriminate|].
      split; [now constructor|]. rewrite Hs. simpl.
      now rewrite append_nil_r, !append_assoc.
  - destruct (flushList_nested r1 H1) as (H2 & Hl2 & Hbuf2).
    destruct H2 as (Hb & bs & Hok & Hc & Hs). rewrite Hl2 in Hs.
    unfold emit. cbn [listType paraBuffer html].
    split; [exact Hb|]. cbn [listType paraBuffer html].
    exists bs. split; [exact Hok|]. split; [exact Hc|].
    split; [now rewrite Hbuf2|]. exists [item]. split; [discriminate|].
    split; [now constructor|]. rewrite Hs. simpl.
    now rewrite append_nil_r, !append_assoc.
Qed.

Lemma render_line_nested r rawLine :
  line_contents P rawLine ->
  well_nested P r -> well_nested P (render_line r rawLine).
Proof.
  intros (Hline & Hitem) Hr. rewrite render_line_classified.
  destruct (classify (inline rawLine)) as [[t item]|].
  - apply list_line_nested; [now apply (Hitem t)|exact Hr].
  - cbv zeta. destruct (flushList_nested r Hr) as (H1 & Hl1 & Hbuf1).
    destruct (is_blank (inline rawLine)).
    + now apply flushPara_nested.
    + destruct H1 as (Hb & bs & Hok & Hc & Hs). rewrite Hl1 in Hs |- *.
      split; cbn [listType paraBuffer html].
      * now apply P_buffer_line.
      * exists bs. auto.
Qed.

Lemma render_lines_nested lines : forall r,
  Forall (line_contents P) lines ->
  well_nested P r -> well_nested P (fold_left render_line lines r).
Proof.
  induction lines as [|l lines IH]; intros r H Hr; simpl; [exact Hr|].
  apply IH; [exact (Forall_inv_tail H)|].
  apply render_line_nested; [exact (Forall_inv H) | exact Hr].
Qed.

Lemma render_start_nested : well_nested P render_start.
Proof.
  split; [exact P_empty|]. exists []. repeat split; constructor.
Qed.


End Nesting.

(** *** The inline expressions *)

Lemma length_append (a b : string) :
  String.length (a ++ b) = String.length a + String.length b.
Proof. induction a as [|x a IH]; simpl; [reflexivity | now rewrite IH]. Qed.

Lemma lazy_until_spec delim : forall s cap rest,
  lazy_until delim s = Some (cap, rest) -> s = (cap ++ delim ++ rest)%string.
Proof.
  induction s as [|c s IH]; intros cap rest; simpl.
  - destruct (strip_prefix delim EmptyString) as [r|] eqn:E; [|discriminate].
    intros [= <- <-]. exact (strip_prefix_Some _ _ _ E).
  - destruct (strip_prefix delim (String c s)) as [r|] eqn:E.
    + intros [= <- <-]. exact (strip_prefix_Some _ _ _ E).
    + destruct (is_line_terminator c); [discriminate|].
      destruct (lazy_until delim s) as [[cap' rest']|] eqn:El; [|discriminate].
      intros [= <- <-]. simpl. f_equal. now apply IH.
Qed.

Lemma delimited_spec delim s cap rest :
  delimited delim s = Some (cap, rest) ->
  s = (delim ++ cap ++ delim ++ rest)%string.
Proof.
  unfold delimited. destruct (strip_prefix delim s) as [t|] eqn:E; [|discriminate].
  intros H. apply lazy_until_spec in H. subst t.
  exact (strip_prefix_Some _ _ _ E).
Qed.

Lemma alt_wraps a b : wraps a -> wraps b -> wraps (alt a b).
Proof.
  intros Ha Hb s cap rest. unfold alt. destruct (a s) as [r|] eqn:E.
  - intros [= ->]. now apply Ha.
  - apply Hb.
Qed.

Lemma delimited_wraps x d :
  is_marker x = true -> wraps (delimited (String x d)).
Proof.
  intros Hx s cap rest H. apply delimited_spec in H.
  exists x, x, d, d. split; [exact H | exact Hx].
Qed.

Lemma match_strong_wraps : wraps match_strong.
Proof. apply alt_wraps; now apply delimited_wraps. Qed.

Lemma match_em_wraps : wraps match_em.
Proof. apply alt_wraps; now apply delimited_wraps. Qed.

Lemma take_drop_while p s :
  s = (take_while p s ++ drop_while p s)%string.
Proof.
  induction s as [|c s IH]; simpl; [reflexivity|].
  destruct (p c); simpl; [now rewrite <- IH | reflexivity].
Qed.

Lemma drop_while_head p s c s' :
  drop_while p s = String c s' -> p c = false.
Proof.
  induction s as [|x s IH]; simpl; [discriminate|].
  destruct (p x) eqn:E; [exact IH|]. now intros [= <- <-].
Qed.

Lemma match_code_wraps : wraps match_code.
Proof.
  intros s cap rest. unfold match_code. destruct s as [|c t]; [discriminate|].
  destruct (Ascii.eqb c backtick) eqn:E; [|discriminate].
  destruct (take_while not_backtick t) as [|a cap'] eqn:Et; [discriminate|].
  destruct (drop_while not_backtick t) as [|y rest'] eqn:Ed; [discriminate|].
  intros [= <- <-].
  exists c, y, EmptyString, EmptyString. split.
  - simpl. f_equal. rewrite (take_drop_while not_backtick t) at 1.
    now rewrite Et, Ed.
  - apply drop_while_head in Ed. unfold not_backtick in Ed.
    apply negb_false_iff in Ed. unfold is_marker. rewrite Ed.
    now rewrite !orb_true_r.
Qed.

Lemma replace_from_skip m opening closing a rest :
  replace_from m opening closing (String.length a) (a ++ rest)
  = replace_from m opening closing 0 rest.
Proof. induction a as [|x a IH]; simpl; [reflexivity | exact IH]. Qed.

(** The equations of [replace]: at a match the replacement is written
    and the scan resumes after the match; elsewhere one character is
    copied. *)
Lemma replaceAll_match m opening closing s cap rest :
  wraps m ->
  m s = Some (cap, rest) ->
  replaceAll m opening closing s
  = (opening ++ cap ++ closing ++ replaceAll m opening closing rest)%string.
Proof.
  intros Hw Hm. destruct (Hw _ _ _ Hm) as (x & y & d1 & d2 & Hs & _).
  assert (Hs' : s = String x ((d1 ++ cap ++ String y d2) ++ rest))
    by (rewrite Hs; simpl; now rewrite !append_assoc).
  unfold replaceAll. rewrite Hs' at 1. cbn [replace_from].
  rewrite <- Hs', Hm. do 3 f_equal.
  rewrite length_append, Nat.add_sub. apply replace_from_skip.
Qed.

Lemma replaceAll_copy m opening closing c s :
  m (String c s) = None ->
  replaceAll m opening closing (String c s)
  = String c (replaceAll m opening closing s).
Proof. unfold replaceAll. simpl. now intros ->. Qed.


(** *** Texts without list tags *)

Ltac ascii_cases c :=
  let b0 := fresh in let b1 := fresh in let b2 := fresh in
  let b3 := fresh in let b4 := fresh in let b5 := fresh in
  let b6 := fresh in let b7 := fresh in
  destruct c as [b0 b1 b2 b3 b4 b5 b6 b7];
  destruct b0, b1, b2, b3, b4, b5, b6, b7.


















(** *** The scan for list tags *)




Lemma scan_P_CLOSE t o :
  scan_list_tags (P_CLOSE ++ t) o = scan_list_tags t o.
Proof. reflexivity. Qed.












(** *** Alternating list lines *)



Lemma list_line_first t item :
  list_line t item render_start
  = mkRender (list_open t ++ li item) (Some t) EmptyString.
Proof. reflexivity. Qed.



(** The renderer on a chat answer. *)
Example render_answer :
  renderMarkdown
    ("Per **accendere** premere `ON`:" ++ String newline
     ("1. aprire lo *sportello*" ++ String newline
      ("2. premere il tasto" ++ String newline
       (String newline "Fatto."))))
  = (P_OPEN ++ "Per <strong>accendere</strong> premere " ++ CODE_OPEN
     ++ "ON</code>:" ++ P_CLOSE ++ OL_OPEN
     ++ "<li>aprire lo <em>sportello</em></li><li>premere il tasto</li></ol>"
     ++ P_OPEN ++ "Fatto." ++ P_CLOSE)%string.
Proof. reflexivity. Qed.

(** Overlapping markers: the two expressions are applied one after the
    other, each on the output of the one before. *)
Example render_overlap :
  renderMarkdown "***a***"
  = (P_OPEN ++ "<strong><em>a</strong></em>" ++ P_CLOSE)%string.
Proof. reflexivity. Qed.




End MarkdownFacts.

(** ** The polling loop of [uploadToRagStore] *)
Module GeminiFacts.
Import JS Gemini Samples.

Lemma poll_loop_pending (ops : Operation) :
  forall fuel k delays,
    (forall j, k <= j -> ops j = Pending) ->
    poll_loop fuel ops k delays = Looping.
Proof.
  induction fuel as [|fuel IH]; intros k delays Hp; simpl.
  - now rewrite (Hp k (Nat.le_refl k)).
  - rewrite (Hp k (Nat.le_refl k)). apply IH.
    intros j Hj. apply Hp. lia.
Qed.

Lemma poll_loop_done (ops : Operation) :
  forall n fuel k delays,
    (forall j, k <= j < k + n -> ops j = Pending) ->
    ops (k + n) = Done ->
    n <= fuel ->
    poll_loop fuel ops k delays
    = Returned (delays ++ repeat POLL_INTERVAL_MS n).
Proof.
  induction n as [|n IH]; intros fuel k delays Hp Hd Hf.
  - rewrite Nat.add_0_r in Hd. simpl.
    destruct fuel; simpl; rewrite Hd, app_nil_r; reflexivity.
  - destruct fuel as [|fuel]; [lia|]. simpl.
    rewrite (Hp k) by lia.
    rewrite (IH fuel (S k) (delays ++ [POLL_INTERVAL_MS])).
    + now rewrite <- app_assoc.
    + intros j Hj. apply Hp. lia.
    + now replace (S k + n) with (k + S n) by lia.
    + lia.
Qed.

Lemma poll_loop_returned (ops : Operation) :
  forall fuel k delays delays',
    poll_loop fuel ops k delays = Returned delays' ->
    exists n,
      n <= fuel /\ ops (k + n) = Done
      /\ (forall j, k <= j < k + n -> ops j = Pending)
      /\ delays' = delays ++ repeat POLL_INTERVAL_MS n.
Proof.
  induction fuel as [|fuel IH]; intros k delays delays' H; simpl in H.
  - destruct (ops k) eqn:E; try discriminate.
    injection H as <-. exists 0. rewrite Nat.add_0_r, app_nil_r.
    split; [lia|]. split; [exact E|]. split; [|reflexivity].
    intros j Hj. lia.
  - destruct (ops k) eqn:E; try discriminate.
    + apply IH in H. destruct H as (n & Hn & Hd & Hp & ->).
      exists (S n). split; [lia|]. split; [|split].
      * now replace (k + S n) with (S k + n) by lia.
      * intros j Hj. destruct (Nat.eq_dec j k) as [->|Hne]; [exact E|].
        apply Hp. lia.
      * now rewrite <- app_assoc.
    + injection H as <-. exists 0. rewrite Nat.add_0_r, app_nil_r.
      split; [lia|]. split; [exact E|]. split; [|reflexivity].
      intros j Hj. lia.
Qed.

(** C6. With the client initialised, [uploadToRagStore] returns exactly
    when some observation of the operation has its done flag set and
    all earlier ones were pending, after one [delay(3000)] per pending
    observation, however many there are; if every observation is
    pending the loop is still running after any number of iterations;
    and if the [n]-th observation is the first done one, the loop
    returns once it has been given [n] iterations. *)
Theorem uploadToRagStore_polls_until_done (ops : Operation) :
  (forall fuel delays,
      uploadToRagStore true fuel ops = Returned delays <->
      exists n, n <= fuel /\ ops n = Done
                /\ (forall j, j < n -> ops j = Pending)
                /\ delays = repeat 3000 n)
  /\ ((forall k, ops k = Pending) ->
      forall fuel, uploadToRagStore true fuel ops = Looping)
  /\ (forall n, ops n = Done -> (forall j, j < n -> ops j = Pending) ->
      forall fuel, n <= fuel ->
        uploadToRagStore true fuel ops = Returned (repeat 3000 n)).
Proof.
  unfold uploadToRagStore; simpl. split; [|split].
  - intros fuel delays. split.
    + intros H. apply poll_loop_returned in H.
      destruct H as (n & Hn & Hd & Hp & ->). exists n.
      split; [exact Hn|]. split; [exact Hd|]. split; [|reflexivity].
      intros j Hj. apply Hp. lia.
    + intros (n & Hn & Hd & Hp & ->).
      rewrite (poll_loop_done ops n); auto.
      intros j Hj. apply Hp. lia.
  - intros Hp fuel. apply poll_loop_pending. intros j _. apply Hp.
  - intros n Hd Hp fuel Hf.
    rewrite (poll_loop_done ops n); auto.
    intros j Hj. apply Hp. lia.
Qed.

Lemma uploadToRagStore_polls_until_done_witness :
  uploadToRagStore true 5 done_at_2 = Returned [3000; 3000].
Proof.
  destruct (uploadToRagStore_polls_until_done done_at_2) as (_ & _ & H).
  apply (H 2).
  - reflexivity.
  - intros j Hj. destruct j as [|[|j]]; [reflexivity|reflexivity|lia].
  - lia.
Defined.

(** *** The shapes accepted by [generateExampleQuestions] *)

Lemma only_strings_map_JStr (qs : list string) :
  only_strings (map JStr qs) = qs.
Proof. induction qs as [|q qs IH]; simpl; [reflexivity | now rewrite IH]. Qed.

Lemma is_group_has_questions_array item qs :
  is_group item qs -> has_questions_array item = true.
Proof. intros (fields & -> & H). simpl. now rewrite H. Qed.

Lemma flatMap_questions_groups items qss :
  Forall2 is_group items qss ->
  flatMap_questions items = Some (concat qss).
Proof.
  induction 1 as [|item qs items qss (fields & -> & Hq) _ IH]; simpl.
  - reflexivity.
  - rewrite Hq. simpl. now rewrite IH.
Qed.

Lemma flatMap_questions_null items :
  In JNull items -> flatMap_questions items = None.
Proof.
  induction items as [|item items IH]; simpl; [tauto|].
  intros [->|Hin]; [reflexivity|].
  destruct (questions_or_empty item); [|reflexivity].
  now rewrite (IH Hin).
Qed.

Lemma flatMap_questions_some items :
  ~ In JNull items -> exists vs, flatMap_questions items = Some vs.
Proof.
  induction items as [|item items IH]; simpl; intros Hn.
  - now exists [].
  - destruct IH as (vs & ->); [tauto|].
    destruct item; simpl; try (eexists; reflexivity).
    + tauto.
    + destruct (lookup_field "questions" fields); eexists; reflexivity.
Qed.

(** C7, as amended. The function looks at the first element of a
    parsed array: an array of strings comes back as it is, an array of
    objects each carrying an array under [questions] gives the strings
    of the concatenated arrays in order; more generally an array
    starting with a string gives its string elements, an array starting
    with an object that carries an array under [questions] gives the
    strings of the flattened [questions] values, or the empty list with
    a logged error when an element is [null]; a value that is not an
    array, or an array starting with anything else, gives the empty
    list with a logged warning. *)
Theorem questionsOfParsed_shapes (parsedData : json) :
  (forall qs, parsedData = JArr (map JStr qs) ->
     questionsOfParsed parsedData = (qs, Silent))
  /\ (forall items qss, parsedData = JArr items -> Forall2 is_group items qss ->
     questionsOfParsed parsedData = (only_strings (concat qss), Silent))
  /\ (forall q rest, parsedData = JArr (JStr q :: rest) ->
     questionsOfParsed parsedData = (q :: only_strings rest, Silent))
  /\ (forall first rest, parsedData = JArr (first :: rest) ->
     has_questions_array first = true ->
     (In JNull rest -> questionsOfParsed parsedData = ([], Errored))
     /\ (~ In JNull rest ->
         exists vs, flatMap_questions (first :: rest) = Some vs
                    /\ questionsOfParsed parsedData = (only_strings vs, Silent)))
  /\ (match parsedData with
      | JArr [] => False
      | JArr (first :: _) =>
          has_questions_array first = false /\ forall q, first <> JStr q
      | _ => True
      end ->
      questionsOfParsed parsedData = ([], Warned)).
Proof.
  split; [|split; [|split; [|split]]].
  - intros qs ->. destruct qs as [|q qs]; [reflexivity|].
    simpl. rewrite only_strings_map_JStr. reflexivity.
  - intros items qss -> HF. destruct HF as [|item qs items qss Hg HF].
    + reflexivity.
    + unfold questionsOfParsed.
      rewrite (is_group_has_questions_array _ _ Hg).
      now rewrite (flatMap_questions_groups (item :: items) (qs :: qss))
        by (constructor; assumption).
  - intros q rest ->. reflexivity.
  - intros first rest -> Hq. unfold questionsOfParsed. rewrite Hq. split.
    + intros Hin. now rewrite flatMap_questions_null by (right; exact Hin).
    + intros Hn.
      destruct (flatMap_questions_some (first :: rest)) as (vs & Hvs).
      * intros [->|Hin]; [discriminate Hq | exact (Hn Hin)].
      * exists vs. now rewrite Hvs.
  - destruct parsedData as [| | | |items|]; try reflexivity.
    destruct items as [|first rest]; [tauto|].
    intros (Hq & Hs). unfold questionsOfParsed. rewrite Hq.
    destruct first; try reflexivity. now destruct (Hs s).
Qed.

Lemma questionsOfParsed_shapes_witness :
  questionsOfParsed prompt_example = (["d1"; "d2"; "d3"; "d4"], Silent).
Proof.
  destruct (questionsOfParsed_shapes prompt_example) as (_ & H & _).
  apply (H _ [[JStr "d1"; JStr "d2"]; [JStr "d3"; JStr "d4"]] eq_refl).
  repeat constructor; eexists; split; reflexivity.
Defined.

(** C7 as stated fails: a parsed value of neither named shape for which
    the result is not the empty list and nothing is logged. *)
Lemma questionsOfParsed_other_shape_not_empty :
  ~ is_string_array mixed_groups
  /\ ~ is_grouped_array mixed_groups
  /\ questionsOfParsed mixed_groups = (["d1"; "d2"; "d3"], Silent).
Proof.
  split; [|split].
  - intros (qs & H). destruct qs as [|q qs]; discriminate H.
  - intros (items & qss & H & HF). injection H as <-.
    inversion HF as [|? ? ? ? _ HF']; subst.
    inversion HF' as [|? ? ? ? (fields & Hf & Hq) _]; subst.
    injection Hf as <-. discriminate Hq.
  - reflexivity.
Qed.

End GeminiFacts.

(** ** The handlers of the application component *)
Module AppFacts.
Import JS Gemini App Samples JSFacts.

Lemma is_invalid_key_error_iff (err : Thrown) :
  is_invalid_key_error err = true <-> invalid_credential_signature err.
Proof.
  unfold is_invalid_key_error, invalid_credential_signature.
  rewrite orb_true_iff.
  rewrite !includes_toLowerCase by reflexivity. reflexivity.
Qed.

(** C1. When the upload fails with an error whose message contains,
    letter case ignored, "api key not valid" or "requested entity was
    not found", the status returns to Welcome, the credential is
    marked unselected and the inline message is set; every other
    failure of the upload, a failing initialisation included, leads to
    Error. The guard on the credential, which throws before the upload
    starts, makes no call and leaves the status as it is. *)
Theorem upload_failure_routing fuel w s s' calls err :
  handleUploadAndStartChat fuel w s = (s', calls, Failed err) ->
  (isApiKeySelected s = false ->
     status s' = status s /\ apiKeyError s' = Some SELECT_KEY /\ calls = [])
  /\ (isApiKeySelected s = true ->
      forall e, initialize None (env_API_KEY w) = inl e ->
        status s' = Error /\ err = e)
  /\ (isApiKeySelected s = true ->
      forall k, initialize None (env_API_KEY w) = inr k ->
        (invalid_credential_signature err ->
           status s' = Welcome /\ isApiKeySelected s' = false
           /\ apiKeyError s' = Some INVALID_KEY)
        /\ (~ invalid_credential_signature err -> status s' = Error)).
Proof.
  unfold handleUploadAndStartChat. intros H.
  destruct (isApiKeySelected s) eqn:Hk; simpl in H.
  - split; [discriminate|].
    destruct (files s) as [|f fs] eqn:Hf; [discriminate|].
    destruct (initialize None (env_API_KEY w)) as [e|k] eqn:Hi.
    + injection H as <- <- <-.
      split; [|intros _ k' Hk'; discriminate].
      intros _ e' He'. injection He' as <-. split; reflexivity.
    + split; [intros _ e' He'; discriminate|]. intros _ k' _.
      destruct (upload_steps fuel w (f :: fs)) as [[cs p] [n q|e|]];
        try discriminate.
      injection H as <- <- <-.
      rewrite <- is_invalid_key_error_iff.
      destruct (is_invalid_key_error e); simpl; split.
      * intros _. repeat split.
      * intros Hn. now destruct Hn.
      * discriminate.
      * reflexivity.
  - injection H as <- <- <-. split.
    + intros _. repeat split.
    + split; discriminate.
Qed.

Lemma upload_failure_routing_witness :
  let '(s', _, _) := handleUploadAndStartChat 0 remote_invalid_key welcome_ready in
  status s' = Welcome /\ isApiKeySelected s' = false
  /\ apiKeyError s' = Some INVALID_KEY.
Proof.
  destruct (handleUploadAndStartChat 0 remote_invalid_key welcome_ready)
    as [[s' calls] o] eqn:E.
  assert (Ho : o = Failed (ErrorObj "API key not valid. Please pass a valid API key."))
    by (vm_compute in E; now injection E as _ _ <-).
  subst o.
  destruct (upload_failure_routing _ _ _ _ _ _ E) as (_ & _ & H).
  destruct (H eq_refl "key" eq_refl) as (Hw & _).
  apply Hw. apply is_invalid_key_error_iff. reflexivity.
Defined.

(** C2. With an active store, [handleSendMessage] first appends the
    user turn and sets the loading flag, and asks the store once; when
    the query settles, a success appends the model turn with the
    answer text and its grounding chunks and leaves the status, a
    failure appends the fixed apology turn and moves to Error; in both
    cases the loading flag is cleared. *)
Theorem handleSendMessage_turns msg s store :
  activeRagStoreName s = Some store ->
  truthy store = true ->
  exists s1,
    handleSendMessage_begin msg s = Some (s1, CallFileSearch store msg)
    /\ chatHistory s1 = chatHistory s ++ [mkChatMessage user [mkPart msg] None]
    /\ isQueryLoading s1 = true
    /\ status s1 = status s
    /\ (forall result s2,
          let s3 := handleSendMessage_settle (inr result) s2 in
          chatHistory s3
          = chatHistory s2
            ++ [mkChatMessage model [mkPart (result_text result)]
                  (Some (result_groundingChunks result))]
          /\ status s3 = status s2
          /\ isQueryLoading s3 = false)
    /\ (forall err s2,
          let s3 := handleSendMessage_settle (inl err) s2 in
          chatHistory s3
          = chatHistory s2
            ++ [mkChatMessage model
                  [mkPart "Spiacente, ho riscontrato un errore. Riprova."] None]
          /\ status s3 = Error
          /\ isQueryLoading s3 = false)
    /\ (forall answer,
          handleSendMessage msg answer s
          = (handleSendMessage_settle answer s1, [CallFileSearch store msg])).
Proof.
  intros Hs Ht. unfold handleSendMessage, handleSendMessage_begin.
  rewrite Hs, Ht. eexists. split; [reflexivity|].
  repeat split.
Qed.

Lemma handleSendMessage_turns_witness :
  let s' := fst (handleSendMessage "Come si accende?" (inl network_down) chatting) in
  status s' = Error /\ isQueryLoading s' = false
  /\ length (chatHistory s') = 2.
Proof.
  set (err := network_down).
  destruct (handleSendMessage_turns "Come si accende?" chatting
              "fileSearchStores/s1" eq_refl eq_refl)
    as (s1 & Hb & Hh & _ & _ & _ & Herr & Hall).
  cbv zeta. rewrite (Hall (inl err)). cbn [fst].
  destruct (Herr err s1) as (Hc & Hst & Hl).
  rewrite Hc, Hh, !length_app. simpl. auto.
Defined.

(** The upload does succeed when the service cooperates: with a
    credential, a file, a configured key, a created store and, for
    each file, an operation that is done after at most [fuel] pending
    observations, the handler resolves in the Chatting state. *)
Lemma upload_files_finish fuel w store n : forall fs i p,
  (forall j, i <= j < i + length fs ->
     exists k, k <= fuel /\ operations w j k = Done
               /\ forall m, m < k -> operations w j m = Pending) ->
  exists calls p', upload_files fuel w store n i fs p = (calls, p', Some None).
Proof.
  induction fs as [|f fs IH]; intros i p H.
  - simpl. eauto.
  - cbn [upload_files].
    destruct (H i) as (k & Hk & Hd & Hp); [simpl; lia|].
    unfold uploadToRagStore. cbn [negb].
    rewrite (GeminiFacts.poll_loop_done (operations w i) k fuel 0 []); auto.
    + destruct (IH (S i) (Some (mkProgress (i + 1)
                   (match p with Some p0 => total p0 | None => 0 end)
                   (Some EMBEDDING)
                   (Some ("(" ++ string_of_nat (i + 1) ++ "/" ++ string_of_nat n
                          ++ ") " ++ name f)%string))))
        as (calls & p' & E).
      * intros j Hj. apply H. simpl. lia.
      * rewrite E. eauto.
    + intros j Hj. apply Hp. lia.
Qed.

Lemma upload_resolves fuel w s :
  isApiKeySelected s = true ->
  files s <> [] ->
  (exists k, initialize None (env_API_KEY w) = inr k) ->
  (exists n, createRagStore true (created w) = inr n) ->
  (forall j, j < length (files s) ->
     exists k, k <= fuel /\ operations w j k = Done
               /\ forall m, m < k -> operations w j m = Pending) ->
  exists s' calls,
    handleUploadAndStartChat fuel w s = (s', calls, Resolved)
    /\ status s' = Chatting.
Proof.
  intros Hk Hf (k & Hi) (n & Hc) Hops. unfold handleUploadAndStartChat.
  rewrite Hk, Hi. cbn [negb].
  destruct (files s) as [|f fs] eqn:E; [contradiction|].
  unfold upload_steps. rewrite Hc.
  destruct (upload_files_finish fuel w n (length (f :: fs)) (f :: fs) 0
              (Some (mkProgress 1 (length (f :: fs) + 2) (Some EMBEDDING) None)))
    as (calls & p' & Eu).
  { intros j Hj. apply Hops. lia. }
  rewrite Eu. unfold generateExampleQuestions. cbn [negb].
  destruct (suggestions w); eexists; eexists; split; reflexivity.
Qed.

(** C3. After a successful upload of at least one file the document
    label is the name of the file when there is one, the two names
    joined by " e " when there are two, and the count followed by
    " documenti" when there are more. *)
Theorem upload_document_label fuel w s s' calls :
  files s <> [] ->
  handleUploadAndStartChat fuel w s = (s', calls, Resolved) ->
  status s' = Chatting
  /\ (forall f, files s = [f] -> documentName s' = name f)
  /\ (forall f0 f1, files s = [f0; f1] ->
        documentName s' = (name f0 ++ " e " ++ name f1)%string)
  /\ (2 < length (files s) ->
        documentName s'
        = (string_of_nat (length (files s)) ++ " documenti")%string).
Proof.
  unfold handleUploadAndStartChat. intros Hne H.
  destruct (isApiKeySelected s); simpl in H; [|discriminate].
  destruct (files s) as [|f fs] eqn:Hf; [contradiction|].
  destruct (initialize None (env_API_KEY w)); [discriminate|].
  destruct (upload_steps fuel w (f :: fs)) as [[cs p] [n q|e|]];
    try discriminate.
  injection H as <- <-. simpl. split; [reflexivity|]. split; [|split].
  - intros f' Hf'. now injection Hf' as -> ->.
  - intros f0 f1 Hf'. now injection Hf' as -> ->.
  - intros Hl. destruct fs as [|f1 [|f2 fs]]; simpl in Hl; try lia.
    reflexivity.
Qed.

Lemma upload_document_label_witness :
  let '(s', _, _) := handleUploadAndStartChat 0 remote_ok welcome_ready in
  documentName s' = "hyundai-i10-manual.pdf".
Proof.
  destruct (handleUploadAndStartChat 0 remote_ok welcome_ready)
    as [[s' calls] o] eqn:E.
  assert (Ho : o = Resolved) by (vm_compute in E; now injection E as _ _ <-).
  subst o.
  assert (Hne : files welcome_ready <> []) by discriminate.
  destruct (upload_document_label _ _ _ _ _ Hne E) as (_ & H & _).
  apply (H manual_a). reflexivity.
Defined.

(** The count is written in decimal. *)
Example three_documents :
  docName [manual_a; manual_b; manual_c] = "3 documenti".
Proof. reflexivity. Qed.

Example twelve_documents :
  docName (repeat manual_a 12) = "12 documenti".
Proof. reflexivity. Qed.

(** C9, as amended. Confirming the upload with no file selected makes
    no call and leaves the status as it is; with a credential selected
    the whole state is unchanged and the handler returns normally;
    without one the inline credential message is set, nothing else
    changes, and the handler fails. *)
Theorem upload_without_files fuel w s :
  files s = [] ->
  let '(s', calls, outcome) := handleUploadAndStartChat fuel w s in
  calls = [] /\ status s' = status s
  /\ (isApiKeySelected s = true -> s' = s /\ outcome = Resolved)
  /\ (isApiKeySelected s = false ->
        s' = setApiKeyError (Some SELECT_KEY) s
        /\ outcome = Failed KEY_REQUIRED).
Proof.
  intros Hf. unfold handleUploadAndStartChat. rewrite Hf.
  destruct (isApiKeySelected s); simpl; repeat split; discriminate.
Qed.

Lemma upload_without_files_witness :
  handleUploadAndStartChat 0 remote_ok (setFiles [] welcome_ready)
  = (setFiles [] welcome_ready, [], Resolved).
Proof.
  pose proof (upload_without_files 0 remote_ok (setFiles [] welcome_ready)
                eq_refl) as H.
  destruct (handleUploadAndStartChat 0 remote_ok (setFiles [] welcome_ready))
    as [[s' calls] o].
  destruct H as (-> & _ & H & _). destruct (H eq_refl) as (-> & ->).
  reflexivity.
Defined.

(** C9 as stated fails: from the welcome screen without a credential,
    confirming with no file changes the state. *)
Lemma upload_without_files_changes_state :
  status welcome_no_key = Welcome
  /\ files welcome_no_key = []
  /\ fst (fst (handleUploadAndStartChat 0 remote_ok welcome_no_key))
     <> welcome_no_key.
Proof. vm_compute. repeat split. discriminate. Qed.

End AppFacts.

(** ** The persisted session *)
Module PersistedFacts.
Import JS Gemini App PersistedApp Resume Samples.

Lemma createRagStore_truthy ai c n :
  createRagStore ai c = inr n -> truthy n = true.
Proof.
  unfold createRagStore. destruct ai; simpl; [|discriminate].
  destruct c as [e|[m|]]; try discriminate.
  destruct (truthy m) eqn:E; [|discriminate].
  now intros [= <-].
Qed.

Lemma upload_steps_done_truthy fuel w fs calls p n q :
  upload_steps fuel w fs = (calls, p, StepsDone n q) -> truthy n = true.
Proof.
  unfold upload_steps.
  destruct (createRagStore true (created w)) as [e|m] eqn:E; [discriminate|].
  destruct (upload_files fuel w m (length fs) 0 fs _) as [[cs p'] [[e|]|]];
    try discriminate.
  destruct (generateExampleQuestions true (suggestions w)); [discriminate|].
  intros H. injection H as _ _ <- _. exact (createRagStore_truthy _ _ _ E).
Qed.






End PersistedFacts.

(** * Further properties *)

(** ** The renderer *)
Module RendererFacts.
Import JS Markdown Renderer JSFacts MarkdownFacts Samples.

#[local] Arguments P_OPEN : simpl never.
#[local] Arguments P_CLOSE : simpl never.
#[local] Arguments BR : simpl never.
#[local] Arguments OL_OPEN : simpl never.
#[local] Arguments UL_OPEN : simpl never.
#[local] Arguments CODE_OPEN : simpl never.

Lemma split_newline_app (a b : string) :
  split_newline (a ++ String newline b) = split_newline a ++ split_newline b.
Proof.
  induction a as [|c a IH]; simpl.
  - reflexivity.
  - rewrite IH. destruct (Ascii.eqb c newline); [reflexivity|].
    destruct (split_newline a) as [|l ls] eqn:E;
      [now destruct (split_newline_not_nil a)|].
    reflexivity.
Qed.

Lemma all_chars_lines p text :
  all_chars p text = true ->
  Forall (fun l => all_chars p l = true) (split_newline text).
Proof.
  induction text as [|c s IH]; simpl; intros H.
  - now constructor.
  - apply andb_true_iff in H. destruct H as [Hc Hs]. specialize (IH Hs).
    destruct (Ascii.eqb c newline).
    + now constructor.
    + destruct (split_newline s) as [|l ls].
      * constructor; [|constructor]. simpl. now rewrite Hc.
      * inversion IH as [|? ? H1 H2]; subst. constructor; [|exact H2].
        simpl. now rewrite Hc, H1.
Qed.

(** The test on the empty text changes nothing: the loop gives the
    empty fragment for it. *)
Lemma renderMarkdown_raw text : renderMarkdown text = render_raw text.
Proof. unfold renderMarkdown. destruct text; reflexivity. Qed.

Lemma flushPara_shift h r : flushPara (shift h r) = shift h (flushPara r).
Proof.
  unfold flushPara, shift. cbn [paraBuffer html listType].
  destruct (truthy (paraBuffer r)); cbn [paraBuffer html listType];
    [now rewrite append_assoc | reflexivity].
Qed.

Lemma flushList_shift h r : flushList (shift h r) = shift h (flushList r).
Proof.
  unfold flushList, shift. cbn [paraBuffer html listType].
  destruct (listType r) eqn:E; cbn [paraBuffer html listType];
    [now rewrite append_assoc | now rewrite E].
Qed.

Lemma list_line_shift t item h r :
  list_line t item (shift h r) = shift h (list_line t item r).
Proof.
  unfold list_line. rewrite flushPara_shift.
  set (r1 := flushPara r). unfold is_list.
  cbn [shift listType].
  destruct (match listType r1 with Some t' => ListType_eqb t' t | None => false end).
  - unfold emit, shift. cbn [paraBuffer html listType].
    now rewrite append_assoc.
  - rewrite flushList_shift. unfold emit, shift. cbn [paraBuffer html listType].
    now rewrite !append_assoc.
Qed.

Lemma render_line_shift h r rawLine :
  render_line (shift h r) rawLine = shift h (render_line r rawLine).
Proof.
  rewrite !render_line_classified.
  destruct (classify (inline rawLine)) as [[t item]|].
  - apply list_line_shift.
  - cbv zeta. rewrite flushList_shift.
    destruct (is_blank (inline rawLine)); [apply flushPara_shift|].
    reflexivity.
Qed.

Lemma render_lines_shift h lines : forall r,
  fold_left render_line lines (shift h r)
  = shift h (fold_left render_line lines r).
Proof.
  induction lines as [|l lines IH]; intros r; simpl; [reflexivity|].
  now rewrite render_line_shift, IH.
Qed.

Lemma shift_render_start h :
  shift h render_start = mkRender h None EmptyString.
Proof. unfold shift, render_start. cbn. now rewrite append_nil_r. Qed.

(** With at most one container pending, the two flushes in either
    order leave the fragment complete and the locals empty. *)
Lemma flushed_either_order r :
  well_nested (fun _ => True) r ->
  flushPara (flushList r) = flushList (flushPara r)
  /\ flushList (flushPara r)
     = shift (html (flushList (flushPara r))) render_start.
Proof.
  intros (_ & bs & _ & _ & Hs). rewrite shift_render_start.
  destruct r as [h [t|] pb]; cbn [listType paraBuffer html] in Hs.
  - destruct Hs as (-> & _). split; reflexivity.
  - unfold flushPara, flushList. cbn [listType paraBuffer html].
    destruct (truthy pb) eqn:E; cbn [listType paraBuffer html];
      split; try reflexivity.
    destruct pb; [reflexivity | discriminate E].
Qed.

Lemma true_line_contents lines :
  Forall (line_contents (fun _ => True)) lines.
Proof. apply Forall_forall. intros l _. split; auto. Qed.

Lemma render_lines_well_nested lines :
  well_nested (fun _ => True) (fold_left render_line lines render_start).
Proof.
  apply render_lines_nested; auto.
  - apply true_line_contents.
  - apply render_start_nested. exact I.
Qed.

Lemma shift_start_blank_lines h lines :
  Forall (fun l => is_blank l = true) lines ->
  fold_left render_line lines (shift h render_start) = shift h render_start.
Proof.
  intros H. now rewrite render_lines_shift, render_lines_blank.
Qed.

(** X1. Blocks separated by a blank line are rendered independently:
    the fragment of two texts joined by a line break, whitespace and a
    line break is the fragment of the first followed by the fragment
    of the second. *)
Theorem renderMarkdown_blank_line_separates (t1 gap t2 : string) :
  all_chars is_whitespace gap = true ->
  renderMarkdown (t1 ++ String newline (gap ++ String newline t2))
  = (renderMarkdown t1 ++ renderMarkdown t2)%string.
Proof.
  intros Hgap. rewrite !renderMarkdown_raw. unfold render_raw, render_lines.
  rewrite !split_newline_app, !fold_left_app.
  set (r1 := fold_left render_line (split_newline t1) render_start).
  assert (Hn : well_nested (fun _ => True) r1)
    by apply render_lines_well_nested.
  destruct (flushed_either_order r1 Hn) as [Hswap Hdone].
  set (h1 := html (flushList (flushPara r1))) in *.
  assert (Hb : Forall (fun l => is_blank l = true) (split_newline gap)).
  { eapply Forall_impl; [exact (all_chars_lines _ _ Hgap)|].
    intros l Hl. now apply is_blank_iff. }
  destruct (split_newline gap) as [|g gs] eqn:Eg;
    [now destruct (split_newline_not_nil gap)|].
  cbn [fold_left].
  rewrite (render_line_blank r1 g (Forall_inv Hb)), Hswap, Hdone.
  rewrite (shift_start_blank_lines h1 gs (Forall_inv_tail Hb)).
  rewrite render_lines_shift, flushPara_shift, flushList_shift.
  reflexivity.
Qed.

Lemma renderMarkdown_blank_line_separates_witness :
  renderMarkdown ("1. uno" ++ String newline (" " ++ String newline "due"))
  = (renderMarkdown "1. uno" ++ renderMarkdown "due")%string.
Proof.
  apply (renderMarkdown_blank_line_separates "1. uno" " " "due").
  reflexivity.
Defined.

(** *** A run of list lines of one type *)

Lemma list_line_same t item h :
  list_line t item (mkRender h (Some t) EmptyString)
  = mkRender (h ++ li item) (Some t) EmptyString.
Proof.
  unfold list_line, flushPara, is_list, emit.
  cbn [paraBuffer truthy is_empty negb listType html].
  now replace (ListType_eqb t t) with true by now destruct t.
Qed.

Lemma same_type_from t lines : forall items h,
  map (fun l => classify (inline l)) lines = map (fun i => Some (t, i)) items ->
  fold_left render_line lines (mkRender h (Some t) EmptyString)
  = mkRender (h ++ concat_strings (map li items)) (Some t) EmptyString.
Proof.
  induction lines as [|l lines IH]; intros [|item items] h Hm;
    try discriminate Hm.
  - cbn. now rewrite append_nil_r.
  - cbn [map] in Hm. injection Hm as Hc Hm.
    cbn [fold_left]. rewrite render_line_classified, Hc, list_line_same.
    rewrite (IH items _ Hm). cbn [map concat_strings].
    now rewrite append_assoc.
Qed.

(** X2. When every line of the text is a list line of one type, the
    fragment is a single list of that type with one item per line, in
    the order of the lines. *)
Theorem renderMarkdown_one_list text t items :
  map (fun l => classify (inline l)) (split_newline text)
  = map (fun i => Some (t, i)) items ->
  renderMarkdown text
  = (list_open t ++ concat_strings (map li items) ++ list_close t)%string.
Proof.
  intros Hm. rewrite renderMarkdown_raw. unfold render_raw, render_lines.
  destruct (split_newline text) as [|l ls] eqn:E;
    [now destruct (split_newline_not_nil text)|].
  destruct items as [|item items]; [discriminate Hm|].
  cbn [map] in Hm. injection Hm as Hc Hm.
  cbn [fold_left]. rewrite render_line_classified, Hc, list_line_first.
  rewrite (same_type_from t ls items _ Hm).
  unfold flushPara, flushList. cbn [paraBuffer truthy is_empty negb listType html].
  cbn [map concat_strings]. now rewrite !append_assoc.
Qed.

Lemma renderMarkdown_one_list_witness :
  renderMarkdown ("- uno" ++ String newline "* due")
  = (UL_OPEN ++ "<li>uno</li><li>due</li></ul>")%string.
Proof.
  apply (renderMarkdown_one_list ("- uno" ++ String newline "* due") ul
           ["uno"; "due"]).
  reflexivity.
Defined.

(** *** The two list patterns *)

Lemma all_chars_app p (a b : string) :
  all_chars p (a ++ b) = all_chars p a && all_chars p b.
Proof.
  induction a as [|c a IH]; simpl; [reflexivity|].
  now rewrite IH, andb_assoc.
Qed.

Lemma drop_while_app_stop p (a : string) c (b : string) :
  all_chars p a = true -> p c = false ->
  drop_while p (a ++ String c b) = String c b.
Proof.
  intros Ha Hc. induction a as [|x a IH]; simpl in *.
  - now rewrite Hc.
  - apply andb_true_iff in Ha. destruct Ha as [Hx Ha]. rewrite Hx. now apply IH.
Qed.

Lemma take_while_app_stop p (a : string) c (b : string) :
  all_chars p a = true -> p c = false ->
  take_while p (a ++ String c b) = a.
Proof.
  intros Ha Hc. induction a as [|x a IH]; simpl in *.
  - now rewrite Hc.
  - apply andb_true_iff in Ha. destruct Ha as [Hx Ha]. rewrite Hx.
    now rewrite IH.
Qed.

Lemma take_while_all p s : all_chars p (take_while p s) = true.
Proof.
  induction s as [|c s IH]; simpl; [reflexivity|].
  destruct (p c) eqn:E; simpl; [now rewrite E | reflexivity].
Qed.

Lemma digit_not_whitespace c : is_digit c = true -> is_whitespace c = false.
Proof. ascii_cases c; intros H; try discriminate H; reflexivity. Qed.

Lemma bullet_not_whitespace c :
  Ascii.eqb c "*" || Ascii.eqb c "-" = true -> is_whitespace c = false.
Proof. ascii_cases c; intros H; try discriminate H; reflexivity. Qed.

(** X3. The two list patterns, as equivalences. A line matches the
    ordered pattern exactly when it is whitespace, one or more digits,
    a dot, one whitespace character and a rest; the unordered pattern
    exactly when it is whitespace, a star or a hyphen, one whitespace
    character and a rest. In both cases the item is the rest up to its
    first line terminator: what follows a carriage return is dropped. *)
Theorem list_patterns (line item : string) :
  (match_ol line = Some item <->
   exists (sp ds : string) (w : ascii) (rest : string),
     line = (sp ++ ds ++ String "." (String w rest))%string
     /\ all_chars is_whitespace sp = true
     /\ ds <> EmptyString /\ all_chars is_digit ds = true
     /\ is_whitespace w = true
     /\ item = take_while (fun c => negb (is_line_terminator c)) rest)
  /\ (match_ul line = Some item <->
      exists (sp : string) (b w : ascii) (rest : string),
        line = (sp ++ String b (String w rest))%string
        /\ all_chars is_whitespace sp = true
        /\ Ascii.eqb b "*" || Ascii.eqb b "-" = true
        /\ is_whitespace w = true
        /\ item = take_while (fun c => negb (is_line_terminator c)) rest).
Proof.
  split; split.
  - unfold match_ol. intros H.
    pose proof (take_drop_while is_whitespace line) as Hl.
    set (t := drop_while is_whitespace line) in *.
    pose proof (take_drop_while is_digit t) as Ht.
    destruct (take_while is_digit t) as [|d ds] eqn:Ed; [discriminate H|].
    destruct (drop_while is_digit t) as [|dot [|w rest]] eqn:Er;
      try discriminate H.
    destruct (Ascii.eqb dot ".") eqn:Edot; [|discriminate H].
    destruct (is_whitespace w) eqn:Ew; [|discriminate H].
    apply Ascii.eqb_eq in Edot. subst dot. injection H as <-.
    exists (take_while is_whitespace line), (String d ds), w, rest.
    split; [now rewrite Hl at 1; rewrite Ht|].
    split; [apply take_while_all|]. split; [discriminate|].
    split; [rewrite <- Ed; apply take_while_all|]. split; [exact Ew|reflexivity].
  - intros (sp & ds & w & rest & -> & Hsp & Hne & Hds & Hw & ->).
    unfold match_ol. destruct ds as [|d ds]; [congruence|].
    simpl in Hds. apply andb_true_iff in Hds. destruct Hds as [Hd Hds].
    change (String d ds ++ String "." (String w rest))%string
      with (String d (ds ++ String "." (String w rest))).
    rewrite (drop_while_app_stop _ sp d _ Hsp (digit_not_whitespace d Hd)).
    cbn [take_while drop_while]. rewrite Hd.
    rewrite (drop_while_app_stop is_digit ds "." _ Hds eq_refl).
    now rewrite Ascii.eqb_refl, Hw.
  - unfold match_ul. intros H.
    pose proof (take_drop_while is_whitespace line) as Hl.
    destruct (drop_while is_whitespace line) as [|b [|w rest]] eqn:Er;
      try discriminate H.
    destruct (Ascii.eqb b "*" || Ascii.eqb b "-") eqn:Eb; [|discriminate H].
    destruct (is_whitespace w) eqn:Ew; [|discriminate H].
    injection H as <-.
    exists (take_while is_whitespace line), b, w, rest.
    split; [exact Hl|]. split; [apply take_while_all|].
    split; [exact Eb|]. split; [exact Ew | reflexivity].
  - intros (sp & b & w & rest & -> & Hsp & Hb & Hw & ->).
    unfold match_ul.
    rewrite (drop_while_app_stop _ sp b _ Hsp (bullet_not_whitespace b Hb)).
    now rewrite Hb, Hw.
Qed.

Lemma list_patterns_witness :
  match_ol ("  12. uno" ++ String "013" "due") = Some "uno".
Proof.
  destruct (list_patterns ("  12. uno" ++ String "013" "due") "uno")
    as [[_ H] _].
  apply H. exists "  ", "12", " "%char, ("uno" ++ String "013" "due")%string.
  repeat split; try reflexivity. discriminate.
Defined.

(** *** Bold, italic and inline code *)

Lemma delimited_head x d c s :
  Ascii.eqb x c = false -> delimited (String x d) (String c s) = None.
Proof. intros H. unfold delimited. cbn [strip_prefix]. now rewrite H. Qed.

Lemma delimited_head_app x d c (s t : string) :
  Ascii.eqb x c = false -> delimited (String x d) (String c s ++ t) = None.
Proof. apply delimited_head. Qed.

Lemma emphasis_mark_eqb c :
  is_emphasis_mark c = false ->
  Ascii.eqb "*" c = false /\ Ascii.eqb "_" c = false.
Proof.
  unfold is_emphasis_mark. intros H. apply orb_false_iff in H.
  destruct H as [H1 H2]. now rewrite Ascii.eqb_sym, H1, Ascii.eqb_sym, H2.
Qed.

Lemma match_strong_led : led_by is_emphasis_mark match_strong.
Proof.
  split; [reflexivity|]. intros c s H.
  destruct (emphasis_mark_eqb c H) as [H1 H2].
  unfold match_strong, alt. now rewrite !delimited_head.
Qed.

Lemma match_em_led : led_by is_emphasis_mark match_em.
Proof.
  split; [reflexivity|]. intros c s H.
  destruct (emphasis_mark_eqb c H) as [H1 H2].
  unfold match_em, alt. now rewrite !delimited_head.
Qed.

Lemma match_code_led : led_by (fun c => Ascii.eqb c backtick) match_code.
Proof.
  split; [reflexivity|]. intros c s H. unfold match_code. now rewrite H.
Qed.

Lemma replaceAll_nil m opening closing :
  replaceAll m opening closing EmptyString = EmptyString.
Proof. reflexivity. Qed.

Lemma replaceAll_copy_prefix p m opening closing (pre s : string) :
  led_by p m ->
  all_chars (fun c => negb (p c)) pre = true ->
  replaceAll m opening closing (pre ++ s)
  = (pre ++ replaceAll m opening closing s)%string.
Proof.
  intros [_ Hm] H. induction pre as [|c pre IH]; simpl in *; [reflexivity|].
  apply andb_true_iff in H. destruct H as [Hc Hp].
  apply negb_true_iff in Hc.
  change (String c pre ++ s)%string with (String c (pre ++ s)).
  rewrite replaceAll_copy by now apply Hm. now rewrite IH.
Qed.

Lemma replaceAll_untouched p m opening closing (s : string) :
  led_by p m ->
  all_chars (fun c => negb (p c)) s = true ->
  replaceAll m opening closing s = s.
Proof.
  intros Hm H. rewrite <- (append_nil_r s) at 1.
  rewrite (replaceAll_copy_prefix p) by assumption.
  now rewrite replaceAll_nil, append_nil_r.
Qed.

Lemma lazy_until_found x d (cap post : string) :
  all_chars (fun c => negb (Ascii.eqb x c)) cap = true ->
  one_line cap = true ->
  lazy_until (String x d) (cap ++ String x d ++ post) = Some (cap, post).
Proof.
  unfold one_line. intros Hx Hl. induction cap as [|c cap IH];
    simpl in Hx, Hl.
  - change (EmptyString ++ String x d ++ post)%string
      with (String x (d ++ post)).
    cbn [lazy_until strip_prefix].
    now rewrite Ascii.eqb_refl, (strip_prefix_append d post).
  - apply andb_true_iff in Hx. destruct Hx as [Hc Hx].
    apply andb_true_iff in Hl. destruct Hl as [Hlc Hl].
    apply negb_true_iff in Hc, Hlc.
    change (String c cap ++ String x d ++ post)%string
      with (String c (cap ++ String x d ++ post)).
    cbn [lazy_until strip_prefix]. rewrite Hc, Hlc.
    now rewrite (IH Hx Hl).
Qed.

Lemma lazy_until_absent x d (s : string) :
  all_chars (fun c => negb (Ascii.eqb x c)) s = true ->
  lazy_until (String x d) s = None.
Proof.
  intros H. induction s as [|c s IH]; simpl in H; [reflexivity|].
  apply andb_true_iff in H. destruct H as [Hc Hs].
  apply negb_true_iff in Hc.
  cbn [lazy_until strip_prefix]. rewrite Hc.
  rewrite (IH Hs). now destruct (is_line_terminator c).
Qed.

Lemma delimited_found x d (cap post : string) :
  all_chars (fun c => negb (Ascii.eqb x c)) cap = true ->
  one_line cap = true ->
  delimited (String x d) (String x d ++ cap ++ String x d ++ post)
  = Some (cap, post).
Proof.
  intros Hx Hl. unfold delimited.
  rewrite (strip_prefix_append (String x d)). now apply lazy_until_found.
Qed.

(** A pair of single marks is no bold token when the text between and
    after them holds no such mark. *)
Lemma double_mark_absent x (cap post : string) :
  all_chars (fun c => negb (Ascii.eqb x c)) cap = true ->
  all_chars (fun c => negb (Ascii.eqb x c)) post = true ->
  delimited (String x (String x EmptyString)) (String x (cap ++ String x post))
  = None
  /\ delimited (String x (String x EmptyString)) (String x post) = None.
Proof.
  intros Hc Hp. unfold delimited. cbn [strip_prefix].
  rewrite Ascii.eqb_refl. split.
  - destruct cap as [|c cap]; simpl in *.
    + rewrite Ascii.eqb_refl. now apply lazy_until_absent.
    + apply andb_true_iff in Hc. destruct Hc as [Hc _].
      apply negb_true_iff in Hc. now rewrite Hc.
  - destruct post as [|c post]; simpl in *; [reflexivity|].
    apply andb_true_iff in Hp. destruct Hp as [Hp _].
    apply negb_true_iff in Hp. now rewrite Hp.
Qed.

Lemma no_markers_free s :
  no_markers s = true ->
  all_chars (fun c => negb (Ascii.eqb "*" c)) s = true
  /\ all_chars (fun c => negb (Ascii.eqb "_" c)) s = true
  /\ all_chars (fun c => negb (is_emphasis_mark c)) s = true
  /\ all_chars (fun c => negb (Ascii.eqb c backtick)) s = true
  /\ all_chars not_backtick s = true.
Proof.
  unfold no_markers. intros H.
  repeat split; revert H; apply all_chars_impl; intros c Hc;
    apply negb_true_iff in Hc; unfold is_marker in Hc;
    apply orb_false_iff in Hc; destruct Hc as [Hc H3];
    apply orb_false_iff in Hc; destruct Hc as [H1 H2];
    unfold is_emphasis_mark, not_backtick;
    rewrite ?(Ascii.eqb_sym "*" c), ?(Ascii.eqb_sym "_" c), ?H1, ?H2, ?H3;
    reflexivity.
Qed.

Lemma no_markers_app (a b : string) :
  no_markers a = true -> no_markers b = true -> no_markers (a ++ b) = true.
Proof. unfold no_markers. intros Ha Hb. now rewrite all_chars_app, Ha, Hb. Qed.

Lemma later_stages_untouched (s : string) :
  no_markers s = true ->
  replaceAll match_code CODE_OPEN "</code>"
    (replaceAll match_em "<em>" "</em>" s) = s.
Proof.
  intros H. destruct (no_markers_free s H) as (_ & _ & He & Hb & _).
  rewrite (replaceAll_untouched _ _ _ _ s match_em_led He).
  exact (replaceAll_untouched _ _ _ _ s match_code_led Hb).
Qed.

Lemma strong_token x (pre cap post : string) :
  is_emphasis_mark x = true ->
  no_markers pre = true -> no_markers cap = true -> no_markers post = true ->
  one_line cap = true ->
  match_strong (String x (String x EmptyString) ++ cap
                ++ String x (String x EmptyString) ++ post) = Some (cap, post) ->
  inline (pre ++ String x (String x EmptyString) ++ cap
          ++ String x (String x EmptyString) ++ post)
  = (pre ++ "<strong>" ++ cap ++ "</strong>" ++ post)%string.
Proof.
  intros Hx Hpre Hcap Hpost Hl Hm. unfold inline.
  destruct (no_markers_free pre Hpre) as (_ & _ & Hpe & _).
  destruct (no_markers_free post Hpost) as (_ & _ & Hqe & _).
  rewrite (replaceAll_copy_prefix _ _ _ _ pre _ match_strong_led Hpe).
  rewrite (replaceAll_match _ _ _ _ _ _ match_strong_wraps Hm).
  rewrite (replaceAll_untouched _ _ _ _ post match_strong_led Hqe).
  apply later_stages_untouched.
  repeat apply no_markers_app; auto.
Qed.

(** X4. Around text without markers, a token of text without markers
    and line terminators is rendered as its element: two stars or two
    underscores give [strong], one star or one underscore gives [em],
    backticks around a non-empty text give [code]. *)
Theorem inline_tokens (pre cap post : string) :
  no_markers pre = true -> no_markers cap = true -> no_markers post = true ->
  one_line cap = true ->
  inline (pre ++ "**" ++ cap ++ "**" ++ post)
  = (pre ++ "<strong>" ++ cap ++ "</strong>" ++ post)%string
  /\ inline (pre ++ "__" ++ cap ++ "__" ++ post)
     = (pre ++ "<strong>" ++ cap ++ "</strong>" ++ post)%string
  /\ inline (pre ++ "*" ++ cap ++ "*" ++ post)
     = (pre ++ "<em>" ++ cap ++ "</em>" ++ post)%string
  /\ inline (pre ++ "_" ++ cap ++ "_" ++ post)
     = (pre ++ "<em>" ++ cap ++ "</em>" ++ post)%string
  /\ (cap <> EmptyString ->
      inline (pre ++ "`" ++ cap ++ "`" ++ post)
      = (pre ++ CODE_OPEN ++ cap ++ "</code>" ++ post)%string).
Proof.
  intros Hpre Hcap Hpost Hl.
  destruct (no_markers_free pre Hpre) as (_ & _ & Hpe & Hpb & _).
  destruct (no_markers_free cap Hcap) as (Hcs & Hcu & Hce & Hcb & Hcn).
  destruct (no_markers_free post Hpost) as (Hqs & Hqu & Hqe & Hqb & _).
  split; [|split; [|split; [|split]]].
  - apply (strong_token "*"); auto.
    unfold match_strong, alt.
    now rewrite (delimited_found "*" "*" cap post Hcs Hl).
  - apply (strong_token "_"); auto.
    unfold match_strong, alt.
    rewrite (delimited_head_app "*" "*" "_") by reflexivity.
    exact (delimited_found "_" "_" cap post Hcu Hl).
  - unfold inline.
    assert (Hs : replaceAll match_strong "<strong>" "</strong>"
                   (pre ++ "*" ++ cap ++ "*" ++ post)
                 = (pre ++ "*" ++ cap ++ "*" ++ post)%string).
    { destruct (double_mark_absent "*" cap post Hcs Hqs) as [H1 H2].
      rewrite (replaceAll_copy_prefix _ _ _ _ pre _ match_strong_led Hpe).
      change ("*" ++ cap ++ "*" ++ post)%string
        with (String "*" (cap ++ String "*" post)).
      rewrite replaceAll_copy
        by (unfold match_strong, alt; rewrite H1; now apply delimited_head).
      rewrite (replaceAll_copy_prefix _ _ _ _ cap _ match_strong_led Hce).
      rewrite replaceAll_copy
        by (unfold match_strong, alt; rewrite H2; now apply delimited_head).
      now rewrite (replaceAll_untouched _ _ _ _ post match_strong_led Hqe). }
    rewrite Hs.
    rewrite (replaceAll_copy_prefix _ _ _ _ pre _ match_em_led Hpe).
    assert (Hm : match_em ("*" ++ cap ++ "*" ++ post) = Some (cap, post)).
    { unfold match_em, alt.
      now rewrite (delimited_found "*" EmptyString cap post Hcs Hl). }
    rewrite (replaceAll_match _ _ _ _ _ _ match_em_wraps Hm).
    rewrite (replaceAll_untouched _ _ _ _ post match_em_led Hqe).
    apply (replaceAll_untouched _ _ _ _ _ match_code_led).
    rewrite !all_chars_app, Hpb, Hcb, Hqb. reflexivity.
  - unfold inline.
    assert (Hs : replaceAll match_strong "<strong>" "</strong>"
                   (pre ++ "_" ++ cap ++ "_" ++ post)
                 = (pre ++ "_" ++ cap ++ "_" ++ post)%string).
    { destruct (double_mark_absent "_" cap post Hcu Hqu) as [H1 H2].
      rewrite (replaceAll_copy_prefix _ _ _ _ pre _ match_strong_led Hpe).
      change ("_" ++ cap ++ "_" ++ post)%string
        with (String "_" (cap ++ String "_" post)).
      rewrite replaceAll_copy
        by (unfold match_strong, alt;
            rewrite (delimited_head "*" "*" "_") by reflexivity; exact H1).
      rewrite (replaceAll_copy_prefix _ _ _ _ cap _ match_strong_led Hce).
      rewrite replaceAll_copy
        by (unfold match_strong, alt;
            rewrite (delimited_head "*" "*" "_") by reflexivity; exact H2).
      now rewrite (replaceAll_untouched _ _ _ _ post match_strong_led Hqe). }
    rewrite Hs.
    rewrite (replaceAll_copy_prefix _ _ _ _ pre _ match_em_led Hpe).
    assert (Hm : match_em ("_" ++ cap ++ "_" ++ post) = Some (cap, post)).
    { unfold match_em, alt.
      rewrite (delimited_head_app "*" EmptyString "_") by reflexivity.
      exact (delimited_found "_" EmptyString cap post Hcu Hl). }
    rewrite (replaceAll_match _ _ _ _ _ _ match_em_wraps Hm).
    rewrite (replaceAll_untouched _ _ _ _ post match_em_led Hqe).
    apply (replaceAll_untouched _ _ _ _ _ match_code_led).
    rewrite !all_chars_app, Hpb, Hcb, Hqb. reflexivity.
  - intros Hne. unfold inline.
    assert (He : all_chars (fun c => negb (is_emphasis_mark c))
                   (pre ++ "`" ++ cap ++ "`" ++ post) = true)
      by (rewrite !all_chars_app, Hpe, Hce, Hqe; reflexivity).
    rewrite (replaceAll_untouched _ _ _ _ _ match_strong_led He).
    rewrite (replaceAll_untouched _ _ _ _ _ match_em_led He).
    rewrite (replaceAll_copy_prefix _ _ _ _ pre _ match_code_led Hpb).
    assert (Hm : match_code ("`" ++ cap ++ "`" ++ post) = Some (cap, post)).
    { change ("`" ++ cap ++ "`" ++ post)%string
        with (String backtick (cap ++ String backtick post)).
      unfold match_code. rewrite Ascii.eqb_refl.
      rewrite (take_while_app_stop not_backtick cap backtick post Hcn eq_refl).
      rewrite (drop_while_app_stop not_backtick cap backtick post Hcn eq_refl).
      destruct cap; [congruence | reflexivity]. }
    rewrite (replaceAll_match _ _ _ _ _ _ match_code_wraps Hm).
    now rewrite (replaceAll_untouched _ _ _ _ post match_code_led Hqb).
Qed.

Lemma inline_tokens_witness :
  inline "Tenere *premuto* il tasto"
  = "Tenere <em>premuto</em> il tasto".
Proof.
  destruct (inline_tokens "Tenere " "premuto" " il tasto"
              eq_refl eq_refl eq_refl eq_refl)
    as (_ & _ & H & _).
  exact H.
Defined.

End RendererFacts.

(** ** The service wrapper *)
Module ServiceFacts.
Import JS Gemini Service JSFacts.

Lemma eqb_false_sym (a b : ascii) : Ascii.eqb a b = false -> Ascii.eqb b a = false.
Proof. now rewrite Ascii.eqb_sym. Qed.

Lemma fence_close_not_here c (body post : string) :
  all_chars not_backtick body = true ->
  strip_prefix FENCE_CLOSE (String c (body ++ FENCE_CLOSE ++ post)) = None.
Proof.
  intros H. unfold FENCE_CLOSE at 1. cbn [strip_prefix].
  destruct (Ascii.eqb newline c); [|reflexivity].
  destruct body as [|b body].
  - reflexivity.
  - simpl in H. apply andb_true_iff in H. destruct H as [Hb _].
    unfold not_backtick in Hb. apply negb_true_iff in Hb.
    change (String b body ++ FENCE_CLOSE ++ post)%string
      with (String b (body ++ FENCE_CLOSE ++ post)).
    cbn [strip_prefix]. now rewrite (eqb_false_sym _ _ Hb).
Qed.

Lemma any_until_fence_close (body post : string) :
  all_chars not_backtick body = true ->
  any_until FENCE_CLOSE (body ++ FENCE_CLOSE ++ post) = Some (body, post).
Proof.
  intros H. induction body as [|c body IH].
  - change (EmptyString ++ FENCE_CLOSE ++ post)%string
      with (FENCE_CLOSE ++ post)%string.
    destruct (FENCE_CLOSE ++ post)%string eqn:E; [discriminate E|].
    rewrite <- E. unfold any_until.
    rewrite E at 1. rewrite <- E.
    now rewrite (strip_prefix_append FENCE_CLOSE post).
  - pose proof H as H'. simpl in H'. apply andb_true_iff in H'.
    destruct H' as [_ Hb].
    change (String c body ++ FENCE_CLOSE ++ post)%string
      with (String c (body ++ FENCE_CLOSE ++ post)).
    cbn [any_until]. rewrite (fence_close_not_here c body post Hb).
    now rewrite (IH Hb).
Qed.

Lemma fence_at_not_backtick c s :
  not_backtick c = true -> fence_at (String c s) = None.
Proof.
  unfold not_backtick. intros H. apply negb_true_iff in H.
  unfold fence_at, FENCE_OPEN. cbn [String.append strip_prefix].
  now rewrite (eqb_false_sym _ _ H).
Qed.

Lemma fence_group_skip (pre s : string) :
  all_chars not_backtick pre = true ->
  fence_group (pre ++ s) = fence_group s.
Proof.
  intros H. induction pre as [|c pre IH]; [reflexivity|].
  simpl in H. apply andb_true_iff in H. destruct H as [Hc Hp].
  change (String c pre ++ s)%string with (String c (pre ++ s)).
  cbn [fence_group]. rewrite (fence_at_not_backtick c _ Hc). now apply IH.
Qed.

Lemma fence_group_none s :
  all_chars not_backtick s = true -> fence_group s = None.
Proof.
  intros H. rewrite <- (append_nil_r s).
  now rewrite (fence_group_skip s EmptyString H).
Qed.

(** X5. An answer with a fenced block: when the trimmed answer text is
    some text without backticks, the opening fence tagged json, a
    non-empty body without backticks, the closing fence and anything
    after it, the text handed to the parser is exactly the body. *)
Theorem json_text_fenced (text pre body post : string) :
  trim text = (pre ++ FENCE_OPEN ++ body ++ FENCE_CLOSE ++ post)%string ->
  all_chars not_backtick pre = true ->
  all_chars not_backtick body = true ->
  body <> EmptyString ->
  json_text text = body.
Proof.
  intros Ht Hpre Hbody Hne. unfold json_text. rewrite Ht.
  rewrite (fence_group_skip pre _ Hpre).
  assert (Hf : fence_at (FENCE_OPEN ++ body ++ FENCE_CLOSE ++ post)
               = Some (body, post)).
  { unfold fence_at. rewrite (strip_prefix_append FENCE_OPEN).
    now apply any_until_fence_close. }
  destruct (FENCE_OPEN ++ body ++ FENCE_CLOSE ++ post)%string eqn:E;
    [discriminate E|].
  cbn [fence_group]. rewrite Hf.
  destruct body; [congruence | reflexivity].
Qed.

Lemma json_text_fenced_witness :
  json_text
    ("Ecco le domande:" ++ String newline
       (FENCE_OPEN ++ "[1]" ++ FENCE_CLOSE ++ String newline EmptyString))
  = "[1]".
Proof.
  apply (json_text_fenced _ ("Ecco le domande:" ++ String newline EmptyString)
           "[1]" EmptyString); try reflexivity.
  discriminate.
Defined.

Lemma indexOf_none c s :
  all_chars (fun x => negb (Ascii.eqb x c)) s = true -> indexOf c s = None.
Proof.
  induction s as [|x s IH]; simpl; [reflexivity|]. intros H.
  apply andb_true_iff in H. destruct H as [Hx Hs].
  apply negb_true_iff in Hx. now rewrite Hx, IH.
Qed.

Lemma lastIndexOf_none c s :
  all_chars (fun x => negb (Ascii.eqb x c)) s = true -> lastIndexOf c s = None.
Proof.
  induction s as [|x s IH]; simpl; [reflexivity|]. intros H.
  apply andb_true_iff in H. destruct H as [Hx Hs].
  apply negb_true_iff in Hx. now rewrite Hx, IH.
Qed.

Lemma indexOf_first c (pre rest : string) :
  all_chars (fun x => negb (Ascii.eqb x c)) pre = true ->
  indexOf c (pre ++ String c rest) = Some (String.length pre).
Proof.
  induction pre as [|x pre IH]; simpl; intros H.
  - now rewrite Ascii.eqb_refl.
  - apply andb_true_iff in H. destruct H as [Hx Hp].
    apply negb_true_iff in Hx. now rewrite Hx, IH.
Qed.

Lemma lastIndexOf_last c (a post : string) :
  all_chars (fun x => negb (Ascii.eqb x c)) post = true ->
  lastIndexOf c (a ++ String c post) = Some (String.length a).
Proof.
  intros H. induction a as [|x a IH]; simpl.
  - now rewrite (lastIndexOf_none c post H), Ascii.eqb_refl.
  - now rewrite IH.
Qed.

Lemma string_length_append (a b : string) :
  String.length (a ++ b) = String.length a + String.length b.
Proof. induction a as [|x a IH]; simpl; [reflexivity | now rewrite IH]. Qed.

Lemma substring_prefix (m post : string) :
  String.substring 0 (String.length m) (m ++ post) = m.
Proof.
  induction m as [|x m IH]; simpl.
  - now destruct post.
  - now rewrite IH.
Qed.

Lemma substring_middle (pre m post : string) :
  String.substring (String.length pre) (String.length m) (pre ++ m ++ post) = m.
Proof.
  induction pre as [|x pre IH]; simpl; [apply substring_prefix | exact IH].
Qed.

(** X6. An answer without a fence: when the trimmed answer text holds
    no backtick and is some prose without an opening bracket, a
    bracketed text, and some prose without a closing bracket, the text
    handed to the parser is the bracketed text with its two brackets;
    when it holds no opening bracket, or no closing bracket, it is
    handed over whole. *)
Theorem json_text_bracketed (text : string) :
  all_chars not_backtick (trim text) = true ->
  (forall pre mid post : string,
      trim text = (pre ++ String "[" (mid ++ String "]" post))%string ->
      all_chars (fun x => negb (Ascii.eqb x "[")) pre = true ->
      all_chars (fun x => negb (Ascii.eqb x "]")) post = true ->
      json_text text = String "[" (mid ++ "]"))
  /\ (all_chars (fun x => negb (Ascii.eqb x "[")) (trim text) = true
      \/ all_chars (fun x => negb (Ascii.eqb x "]")) (trim text) = true ->
      json_text text = trim text).
Proof.
  intros Hb. unfold json_text. cbv zeta. rewrite (fence_group_none _ Hb).
  unfold bracketed. split.
  - intros pre mid post Ht Hpre Hpost. rewrite Ht.
    rewrite (indexOf_first "[" pre _ Hpre).
    replace (pre ++ String "[" (mid ++ String "]" post))%string
      with ((pre ++ String "[" mid) ++ String "]" post)%string
      by (rewrite append_assoc; reflexivity).
    rewrite (lastIndexOf_last "]" _ post Hpost).
    rewrite string_length_append. cbn [String.length].
    replace (String.length pre <? String.length pre + S (String.length mid))%nat
      with true by (symmetry; apply Nat.ltb_lt; lia).
    replace (String.length pre + S (String.length mid) + 1 - String.length pre)
      with (String.length (String "[" (mid ++ "]")))
      by (cbn [String.length]; rewrite string_length_append; simpl; lia).
    replace ((pre ++ String "[" mid) ++ String "]" post)%string
      with (pre ++ String "[" (mid ++ "]") ++ post)%string
      by (simpl; now rewrite !append_assoc).
    apply substring_middle.
  - intros [H|H].
    + now rewrite (indexOf_none _ _ H).
    + rewrite (lastIndexOf_none _ _ H). now destruct (indexOf "[" (trim text)).
Qed.

Lemma json_text_bracketed_witness :
  json_text (" Ecco le domande: [" ++ String dquote "d1" ++ String dquote "]. ")
  = String "[" ((String dquote "d1" ++ String dquote EmptyString) ++ "]").
Proof.
  destruct (json_text_bracketed
              (" Ecco le domande: [" ++ String dquote "d1" ++ String dquote "]. ")
              eq_refl) as [H _].
  apply (H "Ecco le domande: "
           (String dquote "d1" ++ String dquote EmptyString)%string ".");
    reflexivity.
Defined.

(** *** Failures of [uploadToRagStore] *)

Lemma poll_loop_threw (ops : Operation) : forall fuel k delays e,
  poll_loop fuel ops k delays = Threw e <->
  exists n, n <= fuel /\ ops (k + n) = Rejected e
            /\ forall j, k <= j < k + n -> ops j = Pending.
Proof.
  induction fuel as [|fuel IH]; intros k delays e; simpl.
  - destruct (ops k) eqn:E; split; try discriminate.
    + intros (n & Hn & Hr & _). replace n with 0 in Hr by lia.
      rewrite Nat.add_0_r in Hr. congruence.
    + intros (n & Hn & Hr & _). replace n with 0 in Hr by lia.
      rewrite Nat.add_0_r in Hr. congruence.
    + intros [= ->]. exists 0. rewrite Nat.add_0_r.
      split; [lia|]. split; [exact E|]. intros j Hj. lia.
    + intros (n & Hn & Hr & _). replace n with 0 in Hr by lia.
      rewrite Nat.add_0_r in Hr. congruence.
  - destruct (ops k) eqn:E.
    + rewrite IH. split.
      * intros (n & Hn & Hr & Hp). exists (S n). split; [lia|].
        split; [now replace (k + S n) with (S k + n) by lia|].
        intros j Hj. destruct (Nat.eq_dec j k) as [->|Hne]; [exact E|].
        apply Hp. lia.
      * intros (n & Hn & Hr & Hp). destruct n as [|n].
        { rewrite Nat.add_0_r in Hr. congruence. }
        exists n. split; [lia|].
        split; [now replace (S k + n) with (k + S n) by lia|].
        intros j Hj. apply Hp. lia.
    + split; [discriminate|]. intros (n & Hn & Hr & Hp). destruct n as [|n].
      * rewrite Nat.add_0_r in Hr. congruence.
      * rewrite (Hp k) in E by lia. discriminate E.
    + split.
      * intros [= ->]. exists 0. rewrite Nat.add_0_r.
        split; [lia|]. split; [exact E|]. intros j Hj. lia.
      * intros (n & Hn & Hr & Hp). destruct n as [|n].
        { rewrite Nat.add_0_r in Hr. congruence. }
        rewrite (Hp k) in E by lia. discriminate E.
Qed.

Lemma poll_loop_more_fuel (ops : Operation) : forall fuel extra k delays,
  poll_loop fuel ops k delays <> Looping ->
  poll_loop (fuel + extra) ops k delays = poll_loop fuel ops k delays.
Proof.
  induction fuel as [|fuel IH]; intros extra k delays H; simpl in *.
  - destruct (ops k) eqn:E; try congruence;
      destruct extra; simpl; now rewrite E.
  - destruct (ops k); [apply IH; exact H | reflexivity | reflexivity].
Qed.

(** X7. Failures of [uploadToRagStore]: without an initialised client
    it throws at once, whatever the service would answer; with one, it
    throws exactly when the first observation that is not pending is a
    rejection, and then with that value; and an upload that has
    returned or thrown within some number of loop iterations does the
    same when allowed more. *)
Theorem uploadToRagStore_failures (ops : Operation) :
  (forall fuel, uploadToRagStore false fuel ops = Threw NOT_INITIALIZED)
  /\ (forall fuel e,
        uploadToRagStore true fuel ops = Threw e <->
        exists n, n <= fuel /\ ops n = Rejected e
                  /\ forall j, j < n -> ops j = Pending)
  /\ (forall fuel extra,
        uploadToRagStore true fuel ops <> Looping ->
        uploadToRagStore true (fuel + extra) ops
        = uploadToRagStore true fuel ops).
Proof.
  split; [reflexivity|]. unfold uploadToRagStore. cbn [negb]. split.
  - intros fuel e. rewrite poll_loop_threw. cbn [Nat.add]. split.
    + intros (n & Hn & Hr & Hp). exists n. split; [exact Hn|].
      split; [exact Hr|]. intros j Hj. apply Hp. lia.
    + intros (n & Hn & Hr & Hp). exists n. split; [exact Hn|].
      split; [exact Hr|]. intros j Hj. apply Hp. lia.
  - intros fuel extra. apply poll_loop_more_fuel.
Qed.

Lemma uploadToRagStore_failures_witness :
  uploadToRagStore true 3
    (fun k => if Nat.eqb k 1 then Rejected (ErrorObj "quota") else Pending)
  = Threw (ErrorObj "quota").
Proof.
  destruct (uploadToRagStore_failures
              (fun k => if Nat.eqb k 1 then Rejected (ErrorObj "quota")
                        else Pending)) as (_ & H & _).
  apply H. exists 1. split; [lia|]. split; [reflexivity|].
  intros j Hj. destruct j; [reflexivity | lia].
Defined.

(** *** Where the suggestions come from *)

Lemma In_only_strings q vs : In q (only_strings vs) <-> In (JStr q) vs.
Proof.
  induction vs as [|v vs IH]; simpl; [tauto|].
  destruct v; simpl; rewrite IH; split; intros H;
    try (now right); try (destruct H as [H|H]; [discriminate H | exact H]).
  - destruct H as [->|H]; [now left | now right].
  - destruct H as [H|H]; [injection H as ->; now left | now right].
Qed.

Lemma In_flatMap_questions items : forall vs v,
  flatMap_questions items = Some vs -> In v vs ->
  exists item w,
    In item items /\ questions_or_empty item = Some w
    /\ match w with JArr xs => In v xs | other => v = other end.
Proof.
  induction items as [|item items IH]; intros vs v H Hin; simpl in H.
  - injection H as <-. destruct Hin.
  - destruct (questions_or_empty item) as [w|] eqn:Ew; [|discriminate H].
    destruct (flatMap_questions items) as [tail|] eqn:Et; [|discriminate H].
    injection H as <-. apply in_app_or in Hin. destruct Hin as [Hin|Hin].
    + exists item, w. split; [now left|]. split; [exact Ew|].
      destruct w; simpl in Hin; try (destruct Hin as [<-|[]]; reflexivity).
      exact Hin.
    + destruct (IH tail v eq_refl Hin) as (item' & w' & Hi & Hw & Hv).
      exists item', w'. split; [now right|]. now split.
Qed.

(** X8. The suggestions are never invented: every question returned
    for a parsed answer stands in it as a string, either as an element
    of the array or, in an object of the array, as the value found
    under [questions] or as an element of that value; and whenever a
    question is returned nothing was logged. *)
Theorem questionsOfParsed_provenance (parsedData : json) (q : string) :
  In q (fst (questionsOfParsed parsedData)) ->
  occurs_as_question q parsedData /\ snd (questionsOfParsed parsedData) = Silent.
Proof.
  unfold questionsOfParsed, occurs_as_question.
  destruct parsedData as [| | | |items|];
    try (intros Hf; exact (False_ind _ Hf)).
  destruct items as [|first rest]; [intros Hf; exact (False_ind _ Hf)|].
  destruct (has_questions_array first) eqn:Eh.
  - destruct (flatMap_questions (first :: rest)) as [vs|] eqn:Ef;
      [|intros Hf; exact (False_ind _ Hf)].
    cbn [fst snd]. intros Hq. split; [|reflexivity].
    exists (first :: rest). split; [reflexivity|]. right.
    apply In_only_strings in Hq.
    destruct (In_flatMap_questions _ _ _ Ef Hq) as (item & w & Hi & Hw & Hv).
    destruct item; simpl in Hw; try (injection Hw as <-; destruct Hv).
    + discriminate Hw.
    + destruct (lookup_field "questions" fields) as [v|] eqn:El.
      * injection Hw as <-. exists fields, v.
        split; [exact Hi|]. split; [exact El|].
        destruct (js_truthy v); [|destruct Hv].
        destruct v; try discriminate Hv.
        -- left. now injection Hv as ->.
        -- right. now exists items.
      * injection Hw as <-. destruct Hv.
  - destruct first; try (intros Hf; exact (False_ind _ Hf)).
    cbn [fst snd]. intros Hq. split; [|reflexivity].
    exists (JStr s :: rest). split; [reflexivity|]. left.
    now apply In_only_strings.
Qed.

Lemma questionsOfParsed_provenance_witness :
  occurs_as_question "d3" Samples.mixed_groups.
Proof.
  apply (questionsOfParsed_provenance Samples.mixed_groups "d3").
  simpl. auto.
Defined.

End ServiceFacts.

(** ** The application component: the upload seen from outside *)
Module OrchestratorFacts.
Import JS Gemini App Orchestrator Samples Scenarios.
#[local] Arguments String.append : simpl nomatch.

(** The loop uploads a prefix of the files, in their order, and stops
    at the first upload that does not return. *)
Lemma upload_files_calls fuel w store n : forall fs i p calls p' r,
  upload_files fuel w store n i fs p = (calls, p', r) ->
  exists k, k <= length fs
    /\ calls = map (CallUploadToRagStore store) (firstn k fs)
    /\ (forall j, j < match r with Some None => k | _ => k - 1 end ->
          exists d, uploadToRagStore true fuel (operations w (i + j)) = Returned d)
    /\ match r with
       | Some None => k = length fs
       | Some (Some e) =>
           0 < k /\ uploadToRagStore true fuel (operations w (i + (k - 1))) = Threw e
       | None =>
           0 < k /\ uploadToRagStore true fuel (operations w (i + (k - 1))) = Looping
       end.
Proof.
  induction fs as [|f fs IH]; intros i p calls p' r H.
  - cbn [upload_files] in H. injection H as <- <- <-. exists 0.
    cbn [firstn map length]. repeat split; auto. intros j Hj; lia.
  - cbn [upload_files] in H.
    destruct (uploadToRagStore true fuel (operations w i)) as [d|e|] eqn:E.
    + match type of H with
      | context [upload_files fuel w store n (S i) fs ?q] =>
          destruct (upload_files fuel w store n (S i) fs q) as [[c q'] r'] eqn:E'
      end.
      injection H as <- <- <-.
      destruct (IH _ _ _ _ _ E') as (k & Hk & Hc & Hret & Hr).
      exists (S k). cbn [firstn map length]. split; [lia|]. split; [now rewrite Hc|].
      split.
      * intros [|j] Hj.
        -- rewrite Nat.add_0_r. eauto.
        -- replace (i + S j) with (S i + j) by lia. apply Hret.
           destruct r' as [[e|]|]; lia.
      * destruct r' as [[e|]|].
        -- destruct Hr as (Hpos & Hr). split; [lia|].
           replace (i + (S k - 1)) with (S i + (k - 1)) by lia. exact Hr.
        -- lia.
        -- destruct Hr as (Hpos & Hr). split; [lia|].
           replace (i + (S k - 1)) with (S i + (k - 1)) by lia. exact Hr.
    + injection H as <- <- <-. exists 1. cbn [firstn map length].
      split; [lia|]. split; [reflexivity|]. split; [intros j Hj; lia|].
      split; [lia|]. now rewrite Nat.add_0_r.
    + injection H as <- <- <-. exists 1. cbn [firstn map length].
      split; [lia|]. split; [reflexivity|]. split; [intros j Hj; lia|].
      split; [lia|]. now rewrite Nat.add_0_r.
Qed.

(** X9. Once the store is created, the service is asked, in this order,
    to create the store (named after the clock), to upload a prefix of
    the chosen files in their order, and, only when every upload has
    returned, to generate the questions; the batch stops at the first
    upload that throws or does not end, and the later files are not
    uploaded. *)
Theorem upload_steps_calls fuel w fs store :
  createRagStore true (created w) = inr store ->
  exists k, k <= length fs
    /\ fst (fst (upload_steps fuel w fs))
       = CallCreateRagStore ("chat-session-" ++ string_of_N (now w))
         :: map (CallUploadToRagStore store) (firstn k fs)
         ++ match snd (upload_steps fuel w fs) with
            | StepsDone _ _ => [CallGenerateExampleQuestions store]
            | _ => []
            end
    /\ (forall j, j < match snd (upload_steps fuel w fs) with
                      | StepsDone _ _ => k
                      | _ => k - 1
                      end ->
          exists d, uploadToRagStore true fuel (operations w j) = Returned d)
    /\ match snd (upload_steps fuel w fs) with
       | StepsDone n _ => k = length fs /\ n = store
       | StepsThrew e =>
           0 < k /\ uploadToRagStore true fuel (operations w (k - 1)) = Threw e
       | StepsAwaiting =>
           0 < k /\ uploadToRagStore true fuel (operations w (k - 1)) = Looping
       end.
Proof.
  intros Hc. unfold upload_steps. rewrite Hc.
  destruct (upload_files fuel w store (length fs) 0 fs
              (Some (mkProgress 1 (length fs + 2) (Some EMBEDDING) None)))
    as [[calls p] r] eqn:E.
  destruct (upload_files_calls _ _ _ _ _ _ _ _ _ _ E) as (k & Hk & Hcalls & Hret & Hr).
  exists k. split; [exact Hk|].
  destruct r as [[e|]|]; cbn [fst snd generateExampleQuestions negb].
  - rewrite app_nil_r. subst calls. tauto.
  - destruct (suggestions w); cbn [fst snd]; subst calls; repeat split; auto.
  - rewrite app_nil_r. subst calls. tauto.
Qed.

Lemma upload_steps_calls_witness :
  fst (fst (upload_steps 5 remote_second_rejected three_manuals))
  = [CallCreateRagStore "chat-session-1700000000000";
     CallUploadToRagStore "fileSearchStores/s1" manual_a;
     CallUploadToRagStore "fileSearchStores/s1" manual_b].
Proof.
  destruct (upload_steps_calls 5 remote_second_rejected three_manuals
              "fileSearchStores/s1" eq_refl) as (k & Hk & Hc & _ & Hr).
  assert (Hs : snd (upload_steps 5 remote_second_rejected three_manuals)
               = StepsThrew network_down) by reflexivity.
  rewrite Hs in Hc, Hr. rewrite Hc.
  destruct Hr as (Hpos & Hr).
  destruct k as [|[|[|[|k]]]]; try lia; try (vm_compute in Hr; discriminate Hr).
  reflexivity.
Defined.

Lemma last_cons {A} (a d : A) (l : list A) : List.last (a :: l) d = List.last l a.
Proof.
  revert a d. induction l as [|b l IH]; intros a d; [reflexivity|].
  change (List.last (a :: b :: l) d) with (List.last (b :: l) d).
  rewrite (IH b d), (IH b a). reflexivity.
Qed.

Lemma list_last_app_cons {A} (l l' : list A) (a d : A) :
  List.last (l ++ a :: l') d = List.last l' a.
Proof.
  revert d. induction l as [|b l IH]; intros d; cbn [app].
  - apply last_cons.
  - rewrite last_cons. apply IH.
Qed.

Lemma sorted_app (l1 l2 : list nat) (b : nat) :
  StronglySorted le l1 -> StronglySorted le l2 ->
  Forall (fun x => x <= b) l1 -> Forall (le b) l2 ->
  StronglySorted le (l1 ++ l2).
Proof.
  intros H1 H2 Hb1 Hb2. induction H1 as [|a l1 Hs IH Ha]; [exact H2|].
  cbn [app]. inversion Hb1 as [|? ? Hab Hb1']; subst.
  constructor; [now apply IH|].
  apply Forall_app. split; [exact Ha|].
  eapply Forall_impl; [exact Hb2|]. cbn beta. intros x Hx. lia.
Qed.

(** The values reported inside the loop count the files from [i + 1]
    upwards, carry the total of the value before them, and the last of
    them is what the loop leaves in the state. *)
Lemma file_progress_spec fuel w store n T : forall fs i q,
  total q = T ->
  Forall (fun x => i + 1 <= current x <= i + length fs /\ total x = T)
    (file_progress fuel w n T i fs)
  /\ StronglySorted le (map current (file_progress fuel w n T i fs))
  /\ snd (fst (upload_files fuel w store n i fs (Some q)))
     = Some (List.last (file_progress fuel w n T i fs) q).
Proof.
  induction fs as [|f fs IH]; intros i q Hq.
  - cbn [file_progress upload_files map List.last fst snd].
    repeat split; constructor.
  - cbn [file_progress upload_files length]. rewrite Hq.
    set (P := mkProgress (i + 1) T (Some EMBEDDING)
                (Some ("(" ++ string_of_nat (i + 1) ++ "/" ++ string_of_nat n
                       ++ ") " ++ name f)%string)).
    destruct (IH (S i) P eq_refl) as (Hall & Hsorted & Hlast).
    destruct (uploadToRagStore true fuel (operations w i)) as [d|e|].
    + destruct (upload_files fuel w store n (S i) fs (Some P)) as [[c q'] r'].
      cbn [fst snd] in *. rewrite last_cons. repeat split.
      * constructor; [cbn [current total P]; lia|].
        eapply Forall_impl; [exact Hall|]. cbn beta. intros x Hx. lia.
      * cbn [map]. constructor; [exact Hsorted|].
        apply Forall_map. eapply Forall_impl; [exact Hall|].
        cbn beta. cbn [current P]. intros x Hx. lia.
      * exact Hlast.
    + cbn [fst snd List.last map]. repeat split.
      * constructor; [cbn [current total P]; lia | constructor].
      * repeat constructor.
    + cbn [fst snd List.last map]. repeat split.
      * constructor; [cbn [current total P]; lia | constructor].
      * repeat constructor.
Qed.

Lemma upload_files_all_or_stop fuel w store n : forall fs i p calls p' r,
  upload_files fuel w store n i fs p = (calls, p', r) ->
  r = Some None -> length calls = length fs.
Proof.
  intros fs i p calls p' r H Hr.
  destruct (upload_files_calls _ _ _ _ _ _ _ _ _ _ H) as (k & Hk & Hc & _ & Hd).
  subst r calls. rewrite length_map, length_firstn. lia.
Qed.

(** X10. The values an upload gives to the progress indicator, in the
    order they are set: each has the total [files.length + 2] and a
    current step that does not exceed it, the current step never
    decreases, the last of them is the value the awaited steps leave in
    the state, and when the steps complete it has reached the total. *)
Theorem progress_trace_monotone fuel w fs :
  Forall (fun p => current p <= total p /\ total p = length fs + 2)
    (progress_trace fuel w fs)
  /\ StronglySorted le (map current (progress_trace fuel w fs))
  /\ snd (fst (upload_steps fuel w fs))
     = Some (List.last (progress_trace fuel w fs) (mkProgress 0 0 None None))
  /\ (forall store questions,
        snd (upload_steps fuel w fs) = StepsDone store questions ->
        current (List.last (progress_trace fuel w fs) (mkProgress 0 0 None None))
        = length fs + 2).
Proof.
  unfold progress_trace, upload_steps.
  destruct (createRagStore true (created w)) as [e|store].
  - cbn [fst snd List.last map]. repeat split.
    + repeat constructor. cbn [current total]. lia.
    + repeat constructor.
    + discriminate.
  - set (P1 := mkProgress 1 (length fs + 2) (Some EMBEDDING) None).
    destruct (file_progress_spec fuel w store (length fs) (length fs + 2)
                fs 0 P1 eq_refl) as (Hall & Hsorted & Hlast).
    set (FP := file_progress fuel w (length fs) (length fs + 2) 0 fs) in *.
    destruct (upload_files fuel w store (length fs) 0 fs (Some P1))
      as [[calls p] r] eqn:E.
    cbn [fst snd] in Hlast. subst p.
    assert (Hall' : Forall (fun p => current p <= total p
                                     /\ total p = length fs + 2) FP).
    { eapply Forall_impl; [exact Hall|]. cbn beta. cbn [current]. intros x Hx. lia. }
    assert (Hle : Forall (fun x => x <= length fs + 1) (map current FP)).
    { apply Forall_map. eapply Forall_impl; [exact Hall|].
      cbn beta. cbn [current]. intros x Hx. lia. }
    assert (H1 : Forall (le 1) (map current FP)).
    { apply Forall_map. eapply Forall_impl; [exact Hall|].
      cbn beta. cbn [current]. intros x Hx. lia. }
    destruct r as [[e|]|].
    + rewrite app_nil_r. cbn [fst snd]. rewrite !last_cons. repeat split.
      * constructor; [cbn [current total]; lia|].
        constructor; [unfold P1; cbn [current total]; lia|exact Hall'].
      * cbn [map]. constructor.
        -- constructor; [exact Hsorted|exact H1].
        -- constructor; [unfold P1; cbn [current]; lia|].
           eapply Forall_impl; [exact H1|]. cbn beta. cbn [current]. intros x Hx. lia.
      * discriminate.
    + cbn [generateExampleQuestions negb].
      assert (Hgoal : forall R : UploadProgress,
                current R = length fs + 2 -> total R = length fs + 2 ->
                let Sg := mkProgress (length fs + 1) (length fs + 2)
                           (Some SUGGESTING) (Some EmptyString) in
                Forall (fun p => current p <= total p
                                 /\ total p = length fs + 2)
                  (mkProgress 0 (length fs + 2) (Some CREATING) None
                   :: P1 :: FP ++ [Sg; R])
                /\ StronglySorted le
                     (map current
                        (mkProgress 0 (length fs + 2) (Some CREATING) None
                         :: P1 :: FP ++ [Sg; R]))).
      { intros R Hc Ht Sg. split.
        - constructor; [cbn [current total]; lia|].
          constructor; [unfold P1; cbn [current total]; lia|].
          apply Forall_app. split; [exact Hall'|].
          constructor; [unfold Sg; cbn [current total]; lia|].
          constructor; [lia|constructor].
        - assert (Htail : StronglySorted le (map current [Sg; R])).
          { unfold Sg; cbn [map current]. constructor.
            - constructor; constructor.
            - constructor; [lia|constructor]. }
          assert (Hge : Forall (le (length fs + 1)) (map current [Sg; R])).
          { unfold Sg; cbn [map current]. constructor; [lia|].
            constructor; [lia|constructor]. }
          cbn [map]. rewrite map_app.
          constructor; [constructor|].
          + apply (sorted_app _ _ (length fs + 1)); assumption.
          + apply Forall_app.
            split; [eapply Forall_impl; [exact H1|]
                   |eapply Forall_impl; [exact Hge|]];
              cbn beta; unfold P1; cbn [current]; intros x Hx; lia.
          + constructor; [unfold P1; cbn [current]; lia|].
            apply Forall_app. split.
            * eapply Forall_impl; [exact H1|]. cbn beta. cbn [current].
              intros x Hx. lia.
            * eapply Forall_impl; [exact Hge|]. cbn beta. cbn [current].
              intros x Hx. lia. }
      destruct (suggestions w) as [parsed|]; cbn [fst snd];
        rewrite !last_cons, list_last_app_cons; cbn [List.last];
        (split; [|split; [|split]];
         [ apply Hgoal; reflexivity
         | apply Hgoal; reflexivity
         | reflexivity
         | reflexivity ]).
    + rewrite app_nil_r. cbn [fst snd]. rewrite !last_cons. repeat split.
      * constructor; [cbn [current total]; lia|].
        constructor; [unfold P1; cbn [current total]; lia|exact Hall'].
      * cbn [map]. constructor.
        -- constructor; [exact Hsorted|exact H1].
        -- constructor; [unfold P1; cbn [current]; lia|].
           eapply Forall_impl; [exact H1|]. cbn beta. cbn [current]. intros x Hx. lia.
      * discriminate.
Qed.

Lemma progress_trace_monotone_witness :
  current (List.last (progress_trace 0 remote_ok three_manuals)
             (mkProgress 0 0 None None)) = 5.
Proof.
  destruct (progress_trace_monotone 0 remote_ok three_manuals)
    as (_ & _ & _ & H).
  apply (H "fileSearchStores/s1"%string ["d1"; "d2"; "d3"; "d4"]%string).
  reflexivity.
Defined.

(** Every value given to the progress indicator carries one of the
    four fixed messages. *)
Lemma file_progress_message fuel w n T : forall fs i,
  Forall (fun p => message p = Some EMBEDDING) (file_progress fuel w n T i fs).
Proof.
  induction fs as [|f fs IH]; intros i; cbn [file_progress]; [constructor|].
  constructor; [reflexivity|].
  destruct (uploadToRagStore true fuel (operations w i)); [apply IH| |];
    constructor.
Qed.

Lemma progress_trace_message fuel w fs :
  Forall (fun p => message p = Some CREATING \/ message p = Some EMBEDDING
                   \/ message p = Some SUGGESTING \/ message p = Some READY)
    (progress_trace fuel w fs).
Proof.
  unfold progress_trace. constructor; [now left|].
  destruct (createRagStore true (created w)) as [e|store]; [constructor|].
  constructor; [now right; left|].
  apply Forall_app. split.
  - eapply Forall_impl; [apply file_progress_message|].
    cbn beta. intros x Hx. now right; left.
  - destruct (upload_files fuel w store (length fs) 0 fs _) as [[c q] [[e|]|]];
      try constructor.
    + now right; right; left.
    + cbn [generateExampleQuestions negb].
      destruct (suggestions w); (constructor; [now right; right; right|constructor]).
Qed.

Lemma progress_trace_total fuel w fs :
  Forall (fun p => current p <= total p /\ total p = length fs + 2)
    (progress_trace fuel w fs).
Proof.
  unfold progress_trace.
  constructor; [cbn [current total]; lia|].
  destruct (createRagStore true (created w)) as [e|store]; [constructor|].
  constructor; [cbn [current total]; lia|].
  apply Forall_app. split.
  - destruct (file_progress_spec fuel w store (length fs) (length fs + 2) fs 0
                (mkProgress 1 (length fs + 2) (Some EMBEDDING) None) eq_refl)
      as (Hall & _).
    eapply Forall_impl; [exact Hall|]. cbn beta. intros x Hx. lia.
  - destruct (upload_files fuel w store (length fs) 0 fs _) as [[c q] [[e|]|]];
      try constructor.
    + cbn [current total]. lia.
    + cbn [generateExampleQuestions negb].
      destruct (suggestions w);
        (constructor; [cbn [current total]; lia|constructor]).
Qed.

(** X11. While the upload runs, every value it gives to the progress
    indicator is shown as it is: the screen is the progress bar with
    the reported step, total, message and file label, no default is
    substituted, the step does not exceed the total, and one of the
    four pictures is chosen. *)
Theorem progress_screen_shows_reported fuel w fs p s :
  In p (progress_trace fuel w fs) ->
  status s = Uploading ->
  exists m icon,
    message p = Some m
    /\ renderContent (setUploadProgress (Some p) s)
       = ScreenProgress (mkBar (current p) (total p) m (fileName p) (Some icon))
    /\ current p <= total p.
Proof.
  intros Hin Hs.
  pose proof (progress_trace_total fuel w fs) as Hall.
  pose proof (progress_trace_message fuel w fs) as Hm.
  rewrite List.Forall_forall in Hall, Hm.
  destruct (Hall p Hin) as (Hle & Ht). specialize (Hm p Hin).
  assert (Hpos : Nat.eqb (total p) 0 = false) by (apply Nat.eqb_neq; lia).
  unfold renderContent, progress_bar, icon_for.
  cbn [status uploadProgress setUploadProgress]. rewrite Hs, Hpos.
  destruct Hm as [Hm|[Hm|[Hm|Hm]]]; rewrite Hm.
  - exists CREATING, IconUpload. repeat split; assumption.
  - exists EMBEDDING, IconEmbeddings. repeat split; assumption.
  - exists SUGGESTING, IconSuggestions. repeat split; assumption.
  - exists READY, IconCompletion. repeat split; assumption.
Qed.

Lemma progress_screen_shows_reported_witness :
  renderContent
    (setUploadProgress
       (Some (mkProgress 2 5 (Some EMBEDDING) (Some "(2/3) lg-washer-manual.pdf")))
       (setStatus Uploading welcome_three))
  = ScreenProgress
      (mkBar 2 5 EMBEDDING (Some "(2/3) lg-washer-manual.pdf") (Some IconEmbeddings)).
Proof.
  assert (Hin : In (mkProgress 2 5 (Some EMBEDDING)
                      (Some "(2/3) lg-washer-manual.pdf"))
                  (progress_trace 5 remote_ok three_manuals)).
  { right. right. right. left. reflexivity. }
  destruct (progress_screen_shows_reported 5 remote_ok three_manuals _
              (setStatus Uploading welcome_three) Hin eq_refl)
    as (m & icon & Hm & Hr & _).
  rewrite Hr. injection Hm as <-.
  destruct icon; try reflexivity;
    (unfold renderContent, progress_bar, icon_for in Hr;
     cbn in Hr; discriminate Hr).
Defined.

(** The loop stays on a file whose operation never completes. *)
Lemma upload_files_stuck fuel w store n j : forall fs i q,
  i <= j < i + length fs ->
  (forall i', i <= i' < j ->
     exists d, uploadToRagStore true fuel (operations w i') = Returned d) ->
  uploadToRagStore true fuel (operations w j) = Looping ->
  exists calls p,
    upload_files fuel w store n i fs (Some q) = (calls, Some p, None)
    /\ current p = j + 1 /\ total p = total q
    /\ message p = Some EMBEDDING
    /\ length calls = j - i + 1.
Proof.
  induction fs as [|f fs IH]; intros i q Hj Hret Hloop.
  - cbn [length] in Hj. lia.
  - cbn [upload_files].
    destruct (Nat.eq_dec i j) as [->|Hne].
    + rewrite Hloop. eexists. eexists. split; [reflexivity|].
      cbn [current total message length]. repeat split. lia.
    + destruct (Hret i) as (d & Hd); [lia|]. rewrite Hd.
      destruct (IH (S i)
                  (mkProgress (i + 1) (total q) (Some EMBEDDING)
                     (Some ("(" ++ string_of_nat (i + 1) ++ "/"
                            ++ string_of_nat n ++ ") " ++ name f)%string)))
        as (calls & p & E & Hc & Ht & Hm & Hl).
      * cbn [length] in Hj. lia.
      * intros i' Hi'. apply Hret. lia.
      * exact Hloop.
      * rewrite E. eexists. eexists. split; [reflexivity|].
        cbn [length]. repeat split; auto. lia.
Qed.

(** X12. The upload has no time limit: when the operation of one file
    stays pending for ever and the uploads before it return, the
    handler is still awaiting after any number of polls, in the
    Uploading state, showing the step of that file, with the later
    files not uploaded and no question requested. *)
Theorem upload_stuck_keeps_waiting fuel w s j :
  isApiKeySelected s = true ->
  (exists k, initialize None (env_API_KEY w) = inr k) ->
  (exists store, createRagStore true (created w) = inr store) ->
  j < length (files s) ->
  (forall i, i < j ->
     exists d, uploadToRagStore true fuel (operations w i) = Returned d) ->
  (forall k, operations w j k = Pending) ->
  exists s' calls p,
    handleUploadAndStartChat fuel w s = (s', calls, Awaiting)
    /\ status s' = Uploading
    /\ uploadProgress s' = Some p
    /\ current p = j + 1 /\ total p = length (files s) + 2
    /\ message p = Some EMBEDDING
    /\ length calls = j + 3
    /\ files s' = files s
    /\ activeRagStoreName s' = activeRagStoreName s.
Proof.
  intros Hk (k & Hi) (store & Hc) Hj Hret Hp.
  unfold handleUploadAndStartChat. rewrite Hk, Hi. cbn [negb].
  destruct (files s) as [|f fs] eqn:E; [cbn [length] in Hj; lia|].
  unfold upload_steps. rewrite Hc.
  destruct (upload_files_stuck fuel w store (length (f :: fs)) j (f :: fs) 0
              (mkProgress 1 (length (f :: fs) + 2) (Some EMBEDDING) None))
    as (calls & p & Eu & Hcur & Htot & Hm & Hl).
  - lia.
  - intros i' Hi'. apply Hret. lia.
  - unfold uploadToRagStore. cbn [negb].
    apply GeminiFacts.poll_loop_pending. intros m _. apply Hp.
  - rewrite Eu. eexists. eexists. exists p. split; [reflexivity|].
    cbn [status uploadProgress files activeRagStoreName setUploadProgress
         setStatus setApiKeyError length].
    rewrite E. cbn [length total] in *. repeat split; auto. lia.
Qed.

Lemma upload_stuck_keeps_waiting_witness :
  exists s' calls,
    handleUploadAndStartChat 1000 remote_second_stuck welcome_three
    = (s', calls, Awaiting)
    /\ status s' = Uploading /\ length calls = 4.
Proof.
  destruct (upload_stuck_keeps_waiting 1000 remote_second_stuck welcome_three 1)
    as (s' & calls & p & E & Hs & _ & _ & _ & _ & Hl & _).
  - reflexivity.
  - exists "key"%string. reflexivity.
  - exists "fileSearchStores/s1"%string. reflexivity.
  - cbn. lia.
  - intros i Hi. assert (i = 0) as -> by lia. exists []. reflexivity.
  - intros k. reflexivity.
  - exists s', calls. auto.
Defined.

(** What a completed run of the awaited steps has asked and returns. *)
Lemma upload_steps_done fuel w fs calls p n q :
  upload_steps fuel w fs = (calls, p, StepsDone n q) ->
  createRagStore true (created w) = inr n
  /\ q = match suggestions w with
         | Some parsedData => fst (questionsOfParsed parsedData)
         | None => []
         end
  /\ calls = CallCreateRagStore ("chat-session-" ++ string_of_N (now w))
             :: map (CallUploadToRagStore n) fs
             ++ [CallGenerateExampleQuestions n].
Proof.
  unfold upload_steps.
  destruct (createRagStore true (created w)) as [e|m] eqn:E; [discriminate|].
  destruct (upload_files fuel w m (length fs) 0 fs _) as [[cs p'] r] eqn:Eu.
  destruct (upload_files_calls _ _ _ _ _ _ _ _ _ _ Eu) as (k & Hk & Hc & _ & Hr).
  destruct r as [[e|]|]; try discriminate.
  subst k. rewrite firstn_all in Hc. subst cs.
  unfold generateExampleQuestions. cbn [negb].
  destruct (suggestions w); intros H; injection H as <- _ <- <-;
    repeat split; reflexivity.
Qed.

(** X13. A completed upload leaves a fresh session on the store that
    was just created: the handle is the truthy name the service
    returned, the history and the chosen files are empty, the progress
    value and the inline credential message are cleared, the questions
    are those extracted from the model answer, the service was asked
    to initialise, to create the store, to upload every file in order
    and to generate the questions, and the next message is sent to
    that store. *)
Theorem upload_success_state fuel w s s' calls :
  files s <> [] ->
  handleUploadAndStartChat fuel w s = (s', calls, Resolved) ->
  exists store,
    createRagStore true (created w) = inr store
    /\ truthy store = true
    /\ activeRagStoreName s' = Some store
    /\ chatHistory s' = [] /\ files s' = []
    /\ uploadProgress s' = None /\ apiKeyError s' = None
    /\ error s' = error s
    /\ exampleQuestions s'
       = match suggestions w with
         | Some parsedData => fst (questionsOfParsed parsedData)
         | None => []
         end
    /\ calls = CallInitialize
               :: CallCreateRagStore ("chat-session-" ++ string_of_N (now w))
               :: map (CallUploadToRagStore store) (files s)
               ++ [CallGenerateExampleQuestions store]
    /\ forall msg,
         exists s1,
           handleSendMessage_begin msg s' = Some (s1, CallFileSearch store msg).
Proof.
  unfold handleUploadAndStartChat. intros Hne H.
  destruct (isApiKeySelected s); cbn [negb] in H; [|discriminate].
  destruct (files s) as [|f fs] eqn:Hf; [contradiction|].
  destruct (initialize None (env_API_KEY w)); [discriminate|].
  destruct (upload_steps fuel w (f :: fs)) as [[cs p] [n q|e|]] eqn:E;
    try discriminate.
  destruct (upload_steps_done _ _ _ _ _ _ _ E) as (Hc & Hq & Hcs).
  pose proof (PersistedFacts.createRagStore_truthy _ _ _ Hc) as Ht.
  injection H as <- <-. exists n.
  cbn [activeRagStoreName chatHistory files uploadProgress apiKeyError error
       exampleQuestions setUploadProgress setFiles setStatus setChatHistory
       setActiveRagStoreName setDocumentName setExampleQuestions
       setApiKeyError].
  rewrite Hcs, Hq. repeat split; auto.
  intros msg. unfold handleSendMessage_begin.
  cbn [activeRagStoreName setUploadProgress setFiles setStatus setChatHistory
       setActiveRagStoreName setDocumentName setExampleQuestions
       setApiKeyError].
  rewrite Ht. eexists. reflexivity.
Qed.

Lemma upload_success_state_witness :
  let '(s', calls, _) := handleUploadAndStartChat 0 remote_ok welcome_three in
  activeRagStoreName s' = Some "fileSearchStores/s1"
  /\ exampleQuestions s' = ["d1"; "d2"; "d3"; "d4"]
  /\ length calls = 6.
Proof.
  destruct (handleUploadAndStartChat 0 remote_ok welcome_three)
    as [[s' calls] o] eqn:E.
  assert (Ho : o = Resolved) by (vm_compute in E; now injection E as _ _ <-).
  subst o.
  assert (Hne : files welcome_three <> []) by discriminate.
  destruct (upload_success_state _ _ _ _ _ Hne E)
    as (store & Hc & _ & Ha & _ & _ & _ & _ & _ & Hq & Hcalls & _).
  injection Hc as <-. rewrite Ha, Hq, Hcalls. repeat split.
Defined.

(** The calls of an upload never ask to delete a store. *)
Lemma upload_files_no_delete fuel w store n : forall fs i p calls p' r name,
  upload_files fuel w store n i fs p = (calls, p', r) ->
  ~ In (CallDeleteRagStore name) calls.
Proof.
  intros fs i p calls p' r name H.
  destruct (upload_files_calls _ _ _ _ _ _ _ _ _ _ H) as (k & _ & -> & _).
  rewrite in_map_iff. intros (f & Hf & _). discriminate Hf.
Qed.

Lemma upload_steps_no_delete fuel w fs name :
  ~ In (CallDeleteRagStore name) (fst (fst (upload_steps fuel w fs))).
Proof.
  unfold upload_steps.
  destruct (createRagStore true (created w)) as [e|store].
  - cbn [fst]. intros [H|H]; [discriminate H|exact H].
  - destruct (upload_files fuel w store (length fs) 0 fs _) as [[cs p] r] eqn:E.
    pose proof (upload_files_no_delete _ _ _ _ _ _ _ _ _ _ name E) as Hnd.
    destruct r as [[e|]|]; cbn [fst generateExampleQuestions negb].
    + intros [H|H]; [discriminate H|contradiction].
    + destruct (suggestions w); cbn [fst]; intros [H|H];
        try discriminate H; apply in_app_iff in H; destruct H as [H|[H|H]];
        try contradiction; discriminate H.
    + intros [H|H]; [discriminate H|contradiction].
Qed.

(** X14. A failed upload keeps the session as it was: the chosen
    files, the store handle, the history, the questions and the
    document label are unchanged; and the store the run may have
    created is neither deleted by the handler nor remembered, so
    closing the page afterwards deletes what it would have deleted
    before. *)
Theorem upload_failure_keeps_session fuel w s s' calls err :
  handleUploadAndStartChat fuel w s = (s', calls, Failed err) ->
  files s' = files s
  /\ activeRagStoreName s' = activeRagStoreName s
  /\ chatHistory s' = chatHistory s
  /\ exampleQuestions s' = exampleQuestions s
  /\ documentName s' = documentName s
  /\ (forall name, ~ In (CallDeleteRagStore name) calls)
  /\ handleUnload s' = handleUnload s.
Proof.
  unfold handleUploadAndStartChat, handleUnload. intros H.
  destruct (isApiKeySelected s); cbn [negb] in H.
  - destruct (files s) as [|f fs] eqn:Hf; [discriminate|].
    destruct (initialize None (env_API_KEY w)).
    + injection H as <- <- _. cbn. rewrite Hf. repeat split.
      intros name [Hc|Hc]; [discriminate Hc|exact Hc].
    + pose proof (upload_steps_no_delete fuel w (f :: fs)) as Hnd.
      destruct (upload_steps fuel w (f :: fs)) as [[cs p] [n q|e|]];
        try discriminate.
      injection H as <- <- _. cbn [fst] in Hnd.
      destruct (is_invalid_key_error e); cbn; rewrite Hf; repeat split;
        intros name [Hc|Hc]; try discriminate Hc; exact (Hnd name Hc).
  - injection H as <- <- _. cbn. repeat split. intros name Hc. exact Hc.
Qed.

Lemma upload_failure_keeps_session_witness :
  let '(s', calls, _) :=
    handleUploadAndStartChat 5 remote_second_rejected welcome_three in
  files s' = three_manuals /\ activeRagStoreName s' = None
  /\ handleUnload s' = [].
Proof.
  destruct (handleUploadAndStartChat 5 remote_second_rejected welcome_three)
    as [[s' calls] o] eqn:E.
  assert (Ho : o = Failed network_down)
    by (vm_compute in E; now injection E as _ _ <-).
  subst o.
  destruct (upload_failure_keeps_session _ _ _ _ _ _ E)
    as (Hf & Ha & _ & _ & _ & _ & Hu).
  rewrite Hf, Ha, Hu. repeat split.
Defined.

(** X15. Ending the chat asks to delete exactly what closing the page
    would have deleted, and leaves no session behind: the welcome
    screen is shown, closing the page or ending the chat again asks
    nothing more, a message sent afterwards is dropped without a call,
    and the credential flag and messages are untouched. *)
Theorem handleEndChat_leaves_no_session s :
  snd (handleEndChat s) = handleUnload s
  /\ handleUnload (fst (handleEndChat s)) = []
  /\ handleEndChat (fst (handleEndChat s)) = (fst (handleEndChat s), [])
  /\ (forall msg answer,
        handleSendMessage msg answer (fst (handleEndChat s))
        = (fst (handleEndChat s), []))
  /\ renderContent (fst (handleEndChat s)) = ScreenWelcome
  /\ isApiKeySelected (fst (handleEndChat s)) = isApiKeySelected s
  /\ apiKeyError (fst (handleEndChat s)) = apiKeyError s
  /\ error (fst (handleEndChat s)) = error s.
Proof.
  repeat split.
Qed.

(** X16. A failed query followed by the retry button leads to the
    welcome screen with the session still in place: the history holds
    the question and the fixed apology, the error text is cleared, the
    store handle is kept and no deletion was asked, so the store is
    deleted only when the page is closed. *)
Theorem query_failure_then_retry msg err s store :
  activeRagStoreName s = Some store ->
  truthy store = true ->
  let s1 := fst (handleSendMessage msg (inl err) s) in
  renderContent s1
  = ScreenError
      (Some ("Impossibile ottenere una risposta"
             ++ (if thrown_truthy err then ": " ++ thrown_text err
                 else EmptyString))%string)
  /\ snd (handleSendMessage msg (inl err) s) = [CallFileSearch store msg]
  /\ renderContent (clearError s1) = ScreenWelcome
  /\ error (clearError s1) = None
  /\ chatHistory (clearError s1)
     = chatHistory s
       ++ [mkChatMessage user [mkPart msg] None;
           mkChatMessage model [mkPart APOLOGY] None]
  /\ isQueryLoading (clearError s1) = false
  /\ activeRagStoreName (clearError s1) = Some store
  /\ handleUnload (clearError s1) = [CallDeleteRagStore store].
Proof.
  intros Ha Ht. unfold handleSendMessage, handleSendMessage_begin, handleUnload.
  rewrite Ha, Ht. cbn. rewrite Ha, Ht, <- app_assoc. repeat split.
Qed.

Lemma query_failure_then_retry_witness :
  chatHistory (clearError (fst (handleSendMessage "Come si accende?"
                                  (inl network_down) chatting)))
  = [mkChatMessage user [mkPart "Come si accende?"] None;
     mkChatMessage model [mkPart APOLOGY] None].
Proof.
  destruct (query_failure_then_retry "Come si accende?" network_down chatting
              "fileSearchStores/s1" eq_refl eq_refl)
    as (_ & _ & _ & _ & H & _).
  exact H.
Defined.

Lemma trim_nonempty_truthy s : is_empty (trim s) = false -> truthy s = true.
Proof. destruct s; [intros H; discriminate H|reflexivity]. Qed.

(** X17. Outside the hosted environment the credential flag follows
    the environment variable: the check sets only that flag, it is set
    exactly when the variable holds a text that is not blank, and then
    initialising the service with that environment succeeds with that
    text; a failed or refused host dialog leaves the state as it is. *)
Theorem checkApiKey_environment answer API_KEY s :
  isAistudioAvailable s = false ->
  checkApiKey answer API_KEY s
  = setIsApiKeySelected (isApiKeySelected (checkApiKey answer API_KEY s)) s
  /\ (isApiKeySelected (checkApiKey answer API_KEY s) = true
      <-> exists k, API_KEY = Some k /\ is_empty (trim k) = false)
  /\ (isApiKeySelected (checkApiKey answer API_KEY s) = true ->
      exists k, API_KEY = Some k /\ initialize None API_KEY = inr k)
  /\ (forall opened, handleSelectKey opened answer API_KEY s = s).
Proof.
  intros Ha. unfold checkApiKey, handleSelectKey. rewrite Ha.
  cbn [isApiKeySelected setIsApiKeySelected].
  split; [reflexivity|]. split; [|split; [|reflexivity]].
  - split.
    + destruct API_KEY as [k|]; [|discriminate].
      intros H. apply andb_true_iff in H. destruct H as (_ & H).
      exists k. split; [reflexivity|]. now apply negb_true_iff.
    + intros (k & -> & Hk). rewrite Hk, (trim_nonempty_truthy k Hk).
      reflexivity.
  - destruct API_KEY as [k|]; [|discriminate].
    intros H. apply andb_true_iff in H. destruct H as (Hk & _).
    exists k. split; [reflexivity|]. unfold initialize. cbn. now rewrite Hk.
Qed.

Lemma checkApiKey_environment_witness :
  isApiKeySelected (checkApiKey (inr false) (Some "key") welcome_no_key) = true.
Proof.
  destruct (checkApiKey_environment (inr false) (Some "key"%string)
              welcome_no_key eq_refl) as (_ & H & _).
  apply H. exists "key"%string. split; reflexivity.
Defined.

End OrchestratorFacts.

(** ** The chat screen *)
Module ChatFacts.
Import JS Markdown Gemini App Renderer Chat Orchestrator Samples.
#[local] Arguments String.append : simpl nomatch.

Lemma append_not_empty_r (a b : string) :
  b <> EmptyString -> (a ++ b)%string <> EmptyString.
Proof. destruct a, b; cbn; congruence. Qed.

(** A replacement writes a tag where it matches and copies the other
    characters: it cannot turn a text with a visible character into
    white space. *)
Lemma replaceAll_blank m x opening closing s :
  is_whitespace x = false ->
  all_chars is_whitespace (replaceAll m (String x opening) closing s) = true ->
  all_chars is_whitespace s = true.
Proof.
  intros Hx. unfold replaceAll. induction s as [|c s IH]; [reflexivity|].
  cbn [replace_from]. destruct (m (String c s)) as [[cap rest]|].
  - cbn [String.append all_chars]. rewrite Hx. discriminate.
  - cbn [all_chars]. intros H. apply andb_true_iff in H.
    destruct H as (Hc & Hs). now rewrite Hc, IH.
Qed.

Lemma inline_blank rawLine :
  is_blank (inline rawLine) = true -> is_blank rawLine = true.
Proof.
  rewrite !MarkdownFacts.is_blank_iff. unfold inline. intros H.
  apply (replaceAll_blank _ "<"%char _ _ _ eq_refl) in H.
  apply (replaceAll_blank _ "<"%char _ _ _ eq_refl) in H.
  apply (replaceAll_blank _ "<"%char _ _ _ eq_refl) in H.
  exact H.
Qed.

Lemma flushPara_output r : has_output r -> has_output (flushPara r).
Proof.
  unfold has_output, flushPara. intros H.
  destruct (truthy (paraBuffer r)) eqn:E; [|exact H].
  left. cbn [html]. apply append_not_empty_r. discriminate.
Qed.

Lemma flushList_output r : has_output r -> has_output (flushList r).
Proof.
  unfold has_output, flushList. intros H.
  destruct (listType r) as [t|] eqn:E; [|rewrite E; exact H].
  left. cbn [html]. apply append_not_empty_r. destruct t; discriminate.
Qed.

Lemma list_line_output t item r : has_output (list_line t item r).
Proof.
  unfold has_output, list_line, emit, is_list. right. left. cbn [listType].
  destruct (listType (flushPara r)) as [t'|] eqn:E.
  - destruct (ListType_eqb t' t); [rewrite E|]; discriminate.
  - discriminate.
Qed.

Lemma buffer_line_not_empty buffer line :
  line <> EmptyString -> buffer_line buffer line <> EmptyString.
Proof.
  intros H. unfold buffer_line. apply append_not_empty_r.
  now apply append_not_empty_r.
Qed.

Lemma not_blank_not_empty line : is_blank line = false -> line <> EmptyString.
Proof. intros H ->. discriminate H. Qed.

Lemma render_line_output r rawLine :
  has_output r \/ is_blank rawLine = false ->
  has_output (render_line r rawLine).
Proof.
  intros H. rewrite MarkdownFacts.render_line_classified.
  destruct (classify (inline rawLine)) as [[t item]|]; [apply list_line_output|].
  cbv zeta. destruct (is_blank (inline rawLine)) eqn:E.
  - destruct H as [H|H].
    + now apply flushPara_output, flushList_output.
    + apply inline_blank in E. congruence.
  - right. right. cbn [paraBuffer].
    apply buffer_line_not_empty. now apply not_blank_not_empty.
Qed.

Lemma render_lines_output lines : forall r,
  has_output r \/ Exists (fun l => is_blank l = false) lines ->
  has_output (fold_left render_line lines r).
Proof.
  induction lines as [|l lines IH]; intros r H; cbn [fold_left].
  - destruct H as [H|H]; [exact H|inversion H].
  - apply IH. destruct H as [H|H].
    + left. apply render_line_output. now left.
    + inversion H as [? ? Hl|? ? Hls]; subst.
      * left. apply render_line_output. now right.
      * now right.
Qed.

Lemma flushed_output r :
  has_output r -> html (flushList (flushPara r)) <> EmptyString.
Proof.
  intros H. apply flushPara_output in H.
  assert (Hb : paraBuffer (flushPara r) = EmptyString
               \/ html (flushPara r) <> EmptyString).
  { unfold flushPara. destruct (truthy (paraBuffer r)) eqn:E.
    - now left.
    - left. destruct (paraBuffer r); [reflexivity|discriminate E]. }
  set (r1 := flushPara r) in *. unfold flushList.
  destruct (listType r1) as [t|] eqn:E.
  - cbn [html]. apply append_not_empty_r. destruct t; discriminate.
  - destruct H as [H|[H|H]]; [exact H|congruence|].
    destruct Hb as [Hb|Hb]; [congruence|exact Hb].
Qed.

(** The lines of a text are all blank exactly when the text is. *)
Lemma blank_lines_iff text :
  Forall (fun l => is_blank l = true) (split_newline text)
  <-> is_blank text = true.
Proof.
  rewrite MarkdownFacts.is_blank_iff.
  induction text as [|c s IH]; cbn [split_newline all_chars].
  - split; [reflexivity|]. intros _. constructor; [reflexivity|constructor].
  - destruct (Ascii.eqb c newline) eqn:E.
    + apply Ascii.eqb_eq in E. subst c.
      change (is_whitespace newline) with true. cbn [andb].
      rewrite <- IH. split.
      * intros H. exact (Forall_inv_tail H).
      * intros H. constructor; [reflexivity|exact H].
    + destruct (split_newline s) as [|l ls] eqn:Es;
        [now destruct (MarkdownFacts.split_newline_not_nil s)|].
      rewrite andb_true_iff, <- IH. split.
      * intros H. pose proof (Forall_inv H) as Hl.
        apply MarkdownFacts.is_blank_iff in Hl. cbn [all_chars] in Hl.
        apply andb_true_iff in Hl. destruct Hl as (Hc & Hl).
        split; [exact Hc|]. constructor.
        -- now apply MarkdownFacts.is_blank_iff.
        -- exact (Forall_inv_tail H).
      * intros (Hc & H). constructor; [|exact (Forall_inv_tail H)].
        apply MarkdownFacts.is_blank_iff. cbn [all_chars]. rewrite Hc.
        apply MarkdownFacts.is_blank_iff. exact (Forall_inv H).
Qed.

Lemma blank_or_not (lines : list string) :
  Forall (fun l => is_blank l = true) lines
  \/ Exists (fun l => is_blank l = false) lines.
Proof.
  induction lines as [|l lines [IH|IH]].
  - left. constructor.
  - destruct (is_blank l) eqn:E.
    + left. now constructor.
    + right. now constructor.
  - right. now constructor 2.
Qed.

Lemma renderMarkdown_visible text :
  is_blank text = false -> renderMarkdown text <> EmptyString.
Proof.
  intros Hb. unfold renderMarkdown, render_lines.
  destruct (blank_or_not (split_newline text)) as [H|H].
  - apply blank_lines_iff in H. congruence.
  - destruct (is_empty text) eqn:E.
    + destruct text; [discriminate Hb|discriminate E].
    + apply flushed_output, render_lines_output. now right.
Qed.

(** X18. The renderer writes nothing exactly for a blank text: the
    fragment is empty if and only if the text holds nothing but white
    space, so every text with a visible character gives a non-empty
    fragment. *)
Theorem renderMarkdown_empty_iff text :
  renderMarkdown text = EmptyString <-> is_blank text = true.
Proof.
  split.
  - intros H. destruct (is_blank text) eqn:E; [reflexivity|].
    now destruct (renderMarkdown_visible text E).
  - intros H. apply blank_lines_iff in H. unfold renderMarkdown, render_lines.
    destruct (is_empty text); [reflexivity|].
    now rewrite (MarkdownFacts.render_lines_blank _ H).
Qed.

Lemma renderMarkdown_empty_iff_witness :
  renderMarkdown " " = EmptyString.
Proof.
  apply (renderMarkdown_empty_iff " "). reflexivity.
Defined.

(** X19. The form sends a query exactly when it holds a visible
    character, and sends it as it was typed: then the field is
    cleared, the message handed on is the untrimmed text, and with an
    active store the new last entry of the history is a user turn
    whose bubble is not empty; otherwise nothing is sent and the field
    keeps its text. *)
Theorem handleSubmit_sends_visible query s store :
  activeRagStoreName s = Some store ->
  truthy store = true ->
  (is_blank query = true -> handleSubmit query = (None, query))
  /\ (is_blank query = false ->
      handleSubmit query = (Some query, EmptyString)
      /\ exists s1,
           handleSendMessage_begin query s = Some (s1, CallFileSearch store query)
           /\ exists m html,
                chatHistory s1 = chatHistory s ++ [m]
                /\ role m = user
                /\ bubble m = Some html
                /\ html = renderMarkdown query
                /\ html <> EmptyString).
Proof.
  intros Ha Ht. unfold handleSubmit, truthy, is_blank. split.
  - intros ->. reflexivity.
  - intros Hq. rewrite Hq. split; [reflexivity|].
    unfold handleSendMessage_begin. rewrite Ha, Ht.
    eexists. split; [reflexivity|].
    exists (mkChatMessage user [mkPart query] None), (renderMarkdown query).
    repeat split. now apply renderMarkdown_visible.
Qed.

Lemma handleSubmit_sends_visible_witness :
  handleSubmit " Come si accende? " = (Some " Come si accende? ", EmptyString).
Proof.
  destruct (handleSubmit_sends_visible " Come si accende? " chatting
              "fileSearchStores/s1" eq_refl eq_refl) as (_ & H).
  destruct (H eq_refl) as (H1 & _). exact H1.
Defined.

(** X20. The suggestions are the first five example questions at most,
    in their order, and are shown only while the history is empty:
    once a message has been sent to an active store they are gone, and
    after the chat is ended none is left. *)
Theorem shown_suggestions_prefix history exampleQuestions :
  length (shown_suggestions history exampleQuestions) <= 5
  /\ (history = [] ->
      shown_suggestions history exampleQuestions = firstn 5 exampleQuestions)
  /\ (history <> [] -> shown_suggestions history exampleQuestions = [])
  /\ (forall msg s s1 call,
        handleSendMessage_begin msg s = Some (s1, call) ->
        shown_suggestions (chatHistory s1) (App.exampleQuestions s1) = [])
  /\ (forall s,
        shown_suggestions (chatHistory (fst (handleEndChat s)))
          (App.exampleQuestions (fst (handleEndChat s))) = []).
Proof.
  unfold shown_suggestions. split; [|split; [|split; [|split]]].
  - destruct (_ && _); [rewrite length_firstn; lia|cbn; lia].
  - intros ->. cbn [length Nat.eqb andb].
    destruct (Nat.ltb 0 (length exampleQuestions)) eqn:E; [reflexivity|].
    destruct exampleQuestions; [reflexivity|discriminate E].
  - intros H. destruct history; [contradiction|reflexivity].
  - intros msg s s1 call H. unfold handleSendMessage_begin in H.
    destruct (activeRagStoreName s) as [n|]; [|discriminate].
    destruct (truthy n); [|discriminate].
    injection H as <- _. cbn [chatHistory setIsQueryLoading setChatHistory].
    rewrite length_app. cbn [length].
    replace (length (chatHistory s) + 1) with (S (length (chatHistory s))) by lia.
    reflexivity.
  - intros s. reflexivity.
Qed.

Lemma shown_suggestions_prefix_witness :
  shown_suggestions [] ["d1"; "d2"; "d3"; "d4"; "d5"; "d6"]
  = ["d1"; "d2"; "d3"; "d4"; "d5"].
Proof.
  destruct (shown_suggestions_prefix [] ["d1"; "d2"; "d3"; "d4"; "d5"; "d6"])
    as (_ & H & _).
  rewrite (H eq_refl). reflexivity.
Defined.

End ChatFacts.

(** ** The welcome screen *)
Module WelcomeFacts.
Import JS Gemini App Welcome Samples Scenarios.
#[local] Arguments String.append : simpl nomatch.

Lemma filter_index_remove {A} (i : nat) : forall (l : list A) (k : nat),
  filter_index (fun _ index => negb (Nat.eqb index i)) k l
  = if Nat.ltb i k then l
    else (firstn (i - k) l ++ skipn (S (i - k)) l)%list.
Proof.
  induction l as [|x l IH]; intros k; cbn [filter_index].
  - destruct (Nat.ltb i k); [reflexivity|].
    now rewrite firstn_nil, skipn_nil.
  - rewrite IH. destruct (Nat.eqb k i) eqn:E; cbn [negb].
    + apply Nat.eqb_eq in E. subst k.
      replace (Nat.ltb i (S i)) with true by (symmetry; apply Nat.ltb_lt; lia).
      replace (Nat.ltb i i) with false by (symmetry; apply Nat.ltb_ge; lia).
      now rewrite Nat.sub_diag.
    + apply Nat.eqb_neq in E.
      destruct (Nat.ltb i k) eqn:Ek.
      * apply Nat.ltb_lt in Ek.
        now replace (Nat.ltb i (S k)) with true
          by (symmetry; apply Nat.ltb_lt; lia).
      * apply Nat.ltb_ge in Ek.
        replace (Nat.ltb i (S k)) with false
          by (symmetry; apply Nat.ltb_ge; lia).
        replace (i - k) with (S (i - S k)) by lia. reflexivity.
Qed.

(** X21. The remove button takes out the file at its position and no
    other, whatever the names: the list becomes the files before that
    position followed by those after it; a position past the end
    changes nothing; and removing the position of a file that was just
    added gives back the list as it was. *)
Theorem handleRemoveFile_position indexToRemove prevFiles :
  handleRemoveFile indexToRemove prevFiles
  = (firstn indexToRemove prevFiles ++ skipn (S indexToRemove) prevFiles)%list
  /\ (indexToRemove < length prevFiles ->
      S (length (handleRemoveFile indexToRemove prevFiles)) = length prevFiles)
  /\ (length prevFiles <= indexToRemove ->
      handleRemoveFile indexToRemove prevFiles = prevFiles)
  /\ (forall f,
        handleRemoveFile (length prevFiles)
          (handleFileChange (Some [f]) prevFiles) = prevFiles).
Proof.
  assert (H : forall i (l : list File),
             handleRemoveFile i l = (firstn i l ++ skipn (S i) l)%list).
  { intros i l. unfold handleRemoveFile. rewrite filter_index_remove.
    cbn [Nat.ltb Nat.leb]. now rewrite Nat.sub_0_r. }
  split; [apply H|]. split; [|split].
  - intros Hi. rewrite H, length_app, length_firstn, length_skipn. lia.
  - intros Hi. rewrite H, firstn_all2 by exact Hi.
    rewrite skipn_all2 by lia. apply app_nil_r.
  - intros f. rewrite H. cbn [handleFileChange].
    rewrite firstn_app, firstn_all, Nat.sub_diag. cbn [firstn].
    rewrite skipn_all2 by (rewrite length_app; cbn [length]; lia).
    now rewrite !app_nil_r.
Qed.

Lemma handleRemoveFile_position_witness :
  handleRemoveFile 1 [manual_a; manual_a; manual_b] = [manual_a; manual_b].
Proof.
  destruct (handleRemoveFile_position 1 [manual_a; manual_a; manual_b])
    as (H & _).
  rewrite H. reflexivity.
Defined.

(** X22. A sample button adds at most one file, at the end and under
    the file name of the sample, and only when the response is [ok]
    and its body was read; while another sample is loading the click
    does nothing; otherwise the loading mark is cleared whatever
    happened, and an alert is shown only for a failure whose message
    contains "Failed to fetch", which leaves the files as they
    were. *)
Theorem handleSelectSample_outcomes name url fileName fetched st :
  ((exists l, loadingSample st = Some l /\ truthy l = true) ->
   handleSelectSample name url fileName fetched st = (st, false))
  /\ ((loadingSample st = None \/ loadingSample st = Some EmptyString) ->
      loadingSample (fst (handleSelectSample name url fileName fetched st))
      = None
      /\ (fetched = FetchOk None ->
          handleSelectSample name url fileName fetched st
          = (mkPicker (picked_files st ++ [mkFile fileName]) None, false))
      /\ (fetched <> FetchOk None ->
          picked_files (fst (handleSelectSample name url fileName fetched st))
          = picked_files st)
      /\ (forall e,
            fetched = FetchRejected e ->
            snd (handleSelectSample name url fileName fetched st)
            = is_error_object e && includes (thrown_text e) "Failed to fetch"))
  /\ (snd (handleSelectSample name url fileName fetched st) = true ->
      picked_files (fst (handleSelectSample name url fileName fetched st))
      = picked_files st).
Proof.
  unfold handleSelectSample. split; [|split].
  - intros (l & -> & ->). reflexivity.
  - intros H.
    assert (Hl : match loadingSample st with
                 | Some l => truthy l
                 | None => false
                 end = false) by (destruct H as [-> | ->]; reflexivity).
    rewrite Hl. split; [|split; [|split]].
    + destruct fetched as [e|t|[e|]]; reflexivity.
    + intros ->. reflexivity.
    + intros Hne. destruct fetched as [e|t|[e|]]; try reflexivity.
      now destruct Hne.
    + intros e ->. reflexivity.
  - destruct (match loadingSample st with
              | Some l => truthy l
              | None => false
              end); [reflexivity|].
    destruct fetched as [e|t|[e|]]; try reflexivity. discriminate.
Qed.

Lemma handleSelectSample_outcomes_witness :
  handleSelectSample "Manuale Lavatrice LG"
    "https://www.lg.com/us/support/products/documents/WM2077CW.pdf"
    "lg-washer-manual.pdf" (FetchOk None) (mkPicker [manual_a] None)
  = (mkPicker [manual_a; manual_b] None, false).
Proof.
  destruct (handleSelectSample_outcomes "Manuale Lavatrice LG"
              "https://www.lg.com/us/support/products/documents/WM2077CW.pdf"
              "lg-washer-manual.pdf" (FetchOk None) (mkPicker [manual_a] None))
    as (_ & H & _).
  destruct (H (or_introl eq_refl)) as (_ & H1 & _).
  exact (H1 eq_refl).
Defined.

(** X23. The button that starts the upload is offered only with a file
    chosen and is enabled only with a credential; a click on the
    enabled button therefore passes both guards of the upload: the
    service is initialised first, the handler of the button never
    rejects, and the inline message is cleared or reports an invalid
    key, never a missing one. *)
Theorem confirm_reaches_service fuel w s :
  upload_button s = Some false ->
  isApiKeySelected s = true /\ files s <> []
  /\ exists s' calls outcome,
       handleConfirmUpload fuel w s = (s', CallInitialize :: calls, outcome)
       /\ (outcome = Resolved \/ outcome = Awaiting)
       /\ (apiKeyError s' = None \/ apiKeyError s' = Some INVALID_KEY).
Proof.
  unfold upload_button, handleConfirmUpload, handleUploadAndStartChat.
  destruct (files s) as [|f fs] eqn:Hf; cbn [length Nat.ltb Nat.leb];
    [discriminate|].
  intros H. injection H as H. apply negb_false_iff in H. rewrite H.
  cbn [negb]. split; [reflexivity|]. split; [discriminate|].
  destruct (initialize None (env_API_KEY w)) as [e|k].
  - do 3 eexists. split; [reflexivity|]. split; [now left|]. now left.
  - destruct (upload_steps fuel w (f :: fs)) as [[cs p] [n q|e|]].
    + do 3 eexists. split; [reflexivity|]. split; [now left|]. now left.
    + do 3 eexists. split; [reflexivity|]. split; [now left|].
      destruct (is_invalid_key_error e); [now right|now left].
    + do 3 eexists. split; [reflexivity|]. split; [now right|]. now left.
Qed.

Lemma confirm_reaches_service_witness :
  exists s' calls outcome,
    handleConfirmUpload 0 remote_invalid_key welcome_ready
    = (s', CallInitialize :: calls, outcome)
    /\ (outcome = Resolved \/ outcome = Awaiting)
    /\ (apiKeyError s' = None \/ apiKeyError s' = Some INVALID_KEY).
Proof.
  destruct (confirm_reaches_service 0 remote_invalid_key welcome_ready eq_refl)
    as (_ & _ & H).
  exact H.
Defined.

End WelcomeFacts.

(** ** The persisted revision: credential, start of a visit *)
Module ResumeFacts.
Import JS Gemini App PersistedApp Resume Samples.
#[local] Arguments String.append : simpl nomatch.

Lemma truthy_false_empty (s : string) : truthy s = false -> s = EmptyString.
Proof. destruct s; [reflexivity|discriminate]. Qed.

Lemma not_blank_truthy (s : string) : is_empty (trim s) = false -> truthy s = true.
Proof. destruct s; [discriminate|reflexivity]. Qed.

Lemma apiKey_reload ph pq s (st : gmap string string) :
  apiKey (reload ph pq (persistApiKey s st)) = apiKey s.
Proof.
  unfold reload, persistApiKey, getItem_or. cbn [apiKey].
  destruct (truthy (apiKey s)) eqn:E.
  - rewrite lookup_insert_eq. now rewrite E.
  - rewrite lookup_delete_eq. symmetry. now apply truthy_false_empty.
Qed.

Lemma persistSession_other_keys sh sq s (st : gmap string string) key :
  key <> "ragStoreName" -> key <> "documentName" ->
  key <> "chatHistory" -> key <> "exampleQuestions" ->
  persistSession sh sq s st !! key = st !! key.
Proof.
  intros H1 H2 H3 H4. unfold persistSession.
  destruct (activeRagStoreName s) as [n|]; [destruct (truthy n)|];
    repeat (rewrite lookup_insert_ne by congruence);
    repeat (rewrite lookup_delete_ne by congruence); reflexivity.
Qed.

(** X24. The typed credential survives a visit: what the effect on the
    credential stores is read back as the same text at the next load,
    an empty credential included; that effect touches no other key,
    the effect on the session never touches the credential, and so the
    credential is still there after the chat was ended. *)
Theorem apiKey_round_trip
    (stringify_history : list ChatMessage -> string)
    (parse_history : string -> option (list ChatMessage))
    (stringify_questions : list string -> string)
    (parse_questions : string -> option (list string))
    s (st : gmap string string) :
  apiKey (reload parse_history parse_questions (persistApiKey s st)) = apiKey s
  /\ (forall key, key <> "geminiApiKey" -> persistApiKey s st !! key = st !! key)
  /\ persistSession stringify_history stringify_questions s st !! "geminiApiKey"
     = st !! "geminiApiKey"
  /\ (let ended := fst (handleEndChat s) in
      apiKey (reload parse_history parse_questions
                (persistSession stringify_history stringify_questions ended
                   (persistApiKey ended st)))
      = apiKey s).
Proof.
  split; [apply apiKey_reload|]. split; [|split].
  - intros key Hk. unfold persistApiKey. destruct (truthy (apiKey s)).
    + now rewrite lookup_insert_ne by congruence.
    + now rewrite lookup_delete_ne by congruence.
  - apply persistSession_other_keys; discriminate.
  - cbv zeta.
    transitivity (apiKey (reload parse_history parse_questions
                            (persistApiKey (fst (handleEndChat s)) st)));
      [|now rewrite apiKey_reload].
    unfold reload, getItem_or. cbn [apiKey].
    now rewrite persistSession_other_keys by discriminate.
Qed.

Lemma apiKey_round_trip_witness :
  persistApiKey persisted_ready ∅ !! "ragStoreName" = None.
Proof.
  destruct (apiKey_round_trip sample_stringify_history sample_parse_history
              sample_stringify_questions sample_parse_questions
              persisted_ready ∅) as (_ & H & _).
  rewrite (H "ragStoreName"%string) by discriminate. reflexivity.
Defined.

(** X25. Outside the hosted environment a session resumes by itself:
    after a completed upload the stored session and credential make
    the start-up of the next visit initialise the service with the
    typed credential and open the chat on the same store, without
    touching the storage, whatever the environment variable holds and
    whatever state the component has when the run settles. *)
Theorem session_resumes
    (stringify_history : list ChatMessage -> string)
    (parse_history : string -> option (list ChatMessage))
    (stringify_questions : list string -> string)
    (parse_questions : string -> option (list string))
    fuel w s s' calls (st : gmap string string) first second env_API_KEY cur :
  isAistudioAvailable s = false ->
  files s <> [] ->
  PersistedApp.handleUploadAndStartChat fuel w s = (s', calls, Resolved) ->
  let st' :=
    persistSession stringify_history stringify_questions s'
      (persistApiKey s' st) in
  let r := reload parse_history parse_questions st' in
  startup first second env_API_KEY r cur st'
  = (setStatus Chatting cur, st', [CallInitialize], Resolved)
  /\ activeRagStoreName r = activeRagStoreName s'
  /\ apiKey r = apiKey s
  /\ initialize (Some (apiKey r)) env_API_KEY = inr (apiKey s).
Proof.
  intros Ha Hne H st' r.
  assert (Hs : (exists n, activeRagStoreName s' = Some n /\ truthy n = true)
               /\ apiKey s' = apiKey s
               /\ is_empty (trim (apiKey s)) = false).
  { unfold PersistedApp.handleUploadAndStartChat, isApiKeyConfigured in H.
    rewrite Ha in H.
    destruct (is_empty (trim (apiKey s))) eqn:Ek; cbn [negb] in H;
      [discriminate|].
    destruct (files s) as [|f fs]; [contradiction|].
    destruct (initialize _ _); [discriminate|].
    destruct (upload_steps fuel w (f :: fs)) as [[cs p] [n q|e|]] eqn:E;
      try discriminate.
    injection H as <- _. split; [|split; reflexivity].
    exists n. split; [reflexivity|].
    exact (PersistedFacts.upload_steps_done_truthy _ _ _ _ _ _ _ E). }
  destruct Hs as ((n & Hn & Ht) & Hk & Hb).
  pose proof (not_blank_truthy _ Hb) as Hkt.
  assert (Lk : st' !! "geminiApiKey" = Some (apiKey s)).
  { subst st'. rewrite persistSession_other_keys by discriminate.
    unfold persistApiKey. rewrite Hk, Hkt. apply lookup_insert_eq. }
  assert (Ln : st' !! "ragStoreName" = Some n).
  { subst st'. unfold persistSession. rewrite Hn, Ht.
    repeat (rewrite lookup_insert_ne by discriminate). apply lookup_insert_eq. }
  assert (Hr : apiKey r = apiKey s).
  { subst r. unfold reload, getItem_or. cbn [apiKey]. now rewrite Lk, Hkt. }
  assert (Hi : initialize (Some (apiKey r)) env_API_KEY = inr (apiKey s)).
  { rewrite Hr. unfold initialize. rewrite Hkt. cbv iota. now rewrite Hkt. }
  split; [|split; [|split]].
  - unfold startup, checkAistudioApiKey.
    change (isAistudioAvailable r) with false. cbv iota.
    unfold getItem_or at 1. rewrite Lk, Hkt, Hb, Ln, Ht. cbn [negb andb].
    rewrite Hr, Hkt, <- Hr, Hi. reflexivity.
  - subst r. unfold reload. cbn [activeRagStoreName]. now rewrite Ln, Hn.
  - exact Hr.
  - exact Hi.
Qed.

Lemma session_resumes_witness :
  let '(s', _, _) :=
    PersistedApp.handleUploadAndStartChat 0 remote_ok persisted_ready in
  let st' :=
    persistSession sample_stringify_history sample_stringify_questions s'
      (persistApiKey s' ∅) in
  let r := reload sample_parse_history sample_parse_questions st' in
  startup (inr false) (inr false) None r r st'
  = (setStatus Chatting r, st', [CallInitialize], Resolved).
Proof.
  destruct (PersistedApp.handleUploadAndStartChat 0 remote_ok persisted_ready)
    as [[s' calls] o] eqn:E.
  assert (Ho : o = Resolved) by (vm_compute in E; now injection E as _ _ <-).
  subst o.
  assert (Hne : files persisted_ready <> []) by discriminate.
  destruct (session_resumes sample_stringify_history sample_parse_history
              sample_stringify_questions sample_parse_questions
              0 remote_ok persisted_ready s' calls ∅ (inr false) (inr false)
              None
              (reload sample_parse_history sample_parse_questions
                 (persistSession sample_stringify_history
                    sample_stringify_questions s' (persistApiKey s' ∅)))
              eq_refl Hne E)
    as (H & _).
  exact H.
Defined.

(** X26. The other ways a visit can start. Without a stored session
    the welcome screen is shown, with no call and the storage
    untouched. A run from a render without the host flag, as the mount
    render is, always settles with the status Welcome or Chatting; a
    later run in the hosted environment whose check of the credential
    is rejected makes no call and leaves that status, so the start
    screen does not stay. And when the service cannot be initialised
    for a stored session, only the stored handle is removed and the
    welcome screen is shown, while the state keeps its handle. *)
Theorem startup_without_session first second env_API_KEY s cur
    (st : gmap string string) :
  (st !! "ragStoreName" = None ->
   (isAistudioAvailable s = true -> exists hasKey, second = inr hasKey) ->
   startup first second env_API_KEY s cur st
   = (setStatus Welcome (checkAistudioApiKey first s cur), st, [], Resolved))
  /\ (isAistudioAvailable s = false ->
      exists c st1 calls,
        startup first second env_API_KEY s cur st = (c, st1, calls, Resolved)
        /\ (status c = Welcome \/ status c = Chatting)
        /\ forall hosted again e (st2 : gmap string string),
             isAistudioAvailable hosted = true ->
             startup again (inl e) env_API_KEY hosted c st2
             = (checkAistudioApiKey again hosted c, st2, [], Failed e)
             /\ status (checkAistudioApiKey again hosted c) = status c)
  /\ (isAistudioAvailable s = true ->
      second = inr true ->
      initialize None env_API_KEY = inl (ErrorObj KEY_NOT_CONFIGURED) ->
      forall n, st !! "ragStoreName" = Some n -> truthy n = true ->
        startup first second env_API_KEY s cur st
        = (setStatus Welcome (checkAistudioApiKey first s cur),
           delete "ragStoreName" st, [CallInitialize], Resolved)
        /\ activeRagStoreName
             (setStatus Welcome (checkAistudioApiKey first s cur))
           = activeRagStoreName cur
        /\ delete "ragStoreName" st !! "documentName" = st !! "documentName").
Proof.
  split; [|split].
  - unfold startup. intros Hn Hc. rewrite Hn.
    destruct (isAistudioAvailable s); [|reflexivity].
    destruct (Hc eq_refl) as (hasKey & ->). reflexivity.
  - intros Ha.
    assert (Hrej : forall c hosted again e (st2 : gmap string string),
               isAistudioAvailable hosted = true ->
               startup again (inl e) env_API_KEY hosted c st2
               = (checkAistudioApiKey again hosted c, st2, [], Failed e)
               /\ status (checkAistudioApiKey again hosted c) = status c).
    { intros c hosted again e st2 Hh. unfold startup. rewrite Hh.
      split; [reflexivity|].
      unfold checkAistudioApiKey. rewrite Hh. now destruct again. }
    unfold startup, checkAistudioApiKey. rewrite Ha.
    destruct (match st !! "ragStoreName" with
              | Some n => truthy n
              | None => false
              end
              && negb (is_empty (trim (getItem_or st "geminiApiKey" EmptyString))));
      [destruct (initialize _ env_API_KEY)|];
      do 3 eexists; (split; [reflexivity|]); (split; [|apply Hrej]);
      cbn [status setStatus]; auto.
  - unfold startup. intros Ha -> Hi n Hn Ht. rewrite Ha, Hn, Ht, Hi. cbn [andb].
    split; [reflexivity|]. split.
    + unfold checkAistudioApiKey. rewrite Ha. now destruct first.
    + now rewrite lookup_delete_ne by discriminate.
Qed.

Lemma startup_without_session_witness :
  let r := reload sample_parse_history sample_parse_questions ∅ in
  let c := fst (fst (fst (startup (inr false) (inr false) None r r ∅))) in
  status c = Welcome
  /\ startup (inr true) (inl network_down) None Scenarios.hosted_render c ∅
     = (checkAistudioApiKey (inr true) Scenarios.hosted_render c, ∅, [],
        Failed network_down)
  /\ status (checkAistudioApiKey (inr true) Scenarios.hosted_render c)
     = Welcome.
Proof.
  cbv zeta.
  destruct (startup_without_session (inr false) (inr false) None
              (reload sample_parse_history sample_parse_questions ∅)
              (reload sample_parse_history sample_parse_questions ∅) ∅)
    as (_ & H & _).
  destruct (H eq_refl) as (c & st1 & calls & E & _ & Hrej).
  rewrite E. cbn [fst].
  assert (Hc : status c = Welcome).
  { assert (E0 : fst (fst (fst (startup (inr false) (inr false) None
                  (reload sample_parse_history sample_parse_questions ∅)
                  (reload sample_parse_history sample_parse_questions ∅) ∅)))
                 = c) by now rewrite E.
    rewrite <- E0. reflexivity. }
  destruct (Hrej Scenarios.hosted_render (inr true) network_down ∅ eq_refl)
    as (H1 & H2).
  split; [exact Hc|]. split; [exact H1|]. now rewrite H2.
Defined.

(** X27. In the persisted revision a refused credential leads back to
    the welcome screen with the inline message, the typed credential
    is kept as it is, and so outside the hosted environment the
    credential still counts as configured, while inside it the
    selection is withdrawn. *)
Theorem refused_key_keeps_typed_credential fuel w s s' calls err :
  PersistedApp.handleUploadAndStartChat fuel w s = (s', calls, Failed err) ->
  is_invalid_key_error err = true ->
  status s' = Welcome
  /\ apiKeyError s' = Some KEY_INVALID
  /\ apiKey s' = apiKey s
  /\ files s' = files s
  /\ (isAistudioAvailable s = false -> isApiKeyConfigured s' = true)
  /\ (isAistudioAvailable s = true -> isApiKeyConfigured s' = false).
Proof.
  unfold PersistedApp.handleUploadAndStartChat. intros H He.
  destruct (isApiKeyConfigured s) eqn:Hc; cbn [negb] in H.
  - destruct (files s) as [|f fs] eqn:Hf; [discriminate|].
    destruct (initialize _ _) as [e|k] eqn:Hi.
    + injection H as _ _ <-. exfalso.
      unfold initialize in Hi.
      destruct (isAistudioAvailable s);
        repeat match type of Hi with
               | context [match ?x with _ => _ end] => destruct x
               end;
        try discriminate Hi; injection Hi as <-; vm_compute in He;
        discriminate He.
    + destruct (upload_steps fuel w (f :: fs)) as [[cs p] [n q|e|]];
        try discriminate.
      injection H as <- _ <-. rewrite He.
      unfold isApiKeyConfigured in *.
      destruct (isAistudioAvailable s) eqn:Ha; cbn; rewrite ?Ha, ?Hf;
        repeat split; try discriminate; try reflexivity.
      intros _. exact Hc.
  - injection H as _ _ <-. vm_compute in He. discriminate He.
Qed.

Lemma refused_key_keeps_typed_credential_witness :
  let '(s', _, _) :=
    PersistedApp.handleUploadAndStartChat 0 remote_invalid_key persisted_ready in
  status s' = Welcome /\ isApiKeyConfigured s' = true.
Proof.
  destruct (PersistedApp.handleUploadAndStartChat 0 remote_invalid_key
              persisted_ready) as [[s' calls] o] eqn:E.
  assert (Ho : o = Failed (ErrorObj "API key not valid. Please pass a valid API key."))
    by (vm_compute in E; now injection E as _ _ <-).
  subst o.
  destruct (refused_key_keeps_typed_credential _ _ _ _ _ _ E eq_refl)
    as (Hs & _ & Hk & _ & Hc & _).
  split; [exact Hs|]. apply Hc. reflexivity.
Defined.

End ResumeFacts.

(** ** The upload dialog of the document list *)
Module DocumentsFacts.
Import JS App Welcome Documents Samples.
#[local] Arguments String.append : simpl nomatch.

Lemma trimEnd_idempotent s : trimEnd (trimEnd s) = trimEnd s.
Proof.
  induction s as [|c s IH]; [reflexivity|]. cbn [trimEnd].
  destruct (is_whitespace c && is_empty (trimEnd s)) eqn:E; [reflexivity|].
  cbn [trimEnd]. now rewrite IH, E.
Qed.

Lemma trimStart_trim s : trimStart (trim s) = trim s.
Proof.
  unfold trim, trimStart.
  destruct (drop_while is_whitespace s) as [|c t] eqn:E; [reflexivity|].
  pose proof (MarkdownFacts.drop_while_head _ _ _ _ E) as Hc.
  cbn [trimEnd]. rewrite Hc. cbn [andb drop_while]. now rewrite Hc.
Qed.

Lemma trim_idempotent s : trim (trim s) = trim s.
Proof.
  unfold trim at 1. rewrite trimStart_trim. unfold trim.
  apply trimEnd_idempotent.
Qed.

Lemma formattedMetadata_trimmed rows :
  Forall (fun meta => truthy (meta_key meta) = true
                      /\ trim (meta_key meta) = meta_key meta
                      /\ trim (stringValue meta) = stringValue meta)
    (formattedMetadata rows).
Proof.
  unfold formattedMetadata. induction rows as [|row rows IH]; [constructor|].
  cbn [List.filter]. destruct (is_empty (trim (key row))) eqn:E; cbn [negb map].
  - exact IH.
  - constructor; [|exact IH]. cbn [meta_key stringValue].
    unfold truthy. rewrite E. repeat split; apply trim_idempotent.
Qed.

(** The entries handed over are those the rows stand for. *)
Lemma formattedMetadata_entries rows :
  entries_of_rows rows (formattedMetadata rows).
Proof.
  unfold formattedMetadata. induction rows as [|row rows IH]; [constructor|].
  cbn [List.filter].
  destruct (is_empty (trim (key row))) eqn:E; cbn [negb map].
  - apply entries_skip; [|exact IH].
    now apply MarkdownFacts.is_blank_iff.
  - apply entries_keep; [|exact IH].
    destruct (all_chars is_whitespace (key row)) eqn:Ew; [|reflexivity].
    apply MarkdownFacts.is_blank_iff in Ew. unfold Markdown.is_blank in Ew.
    congruence.
Qed.

(** The rows determine their entries. *)
Lemma entries_of_rows_unique rows : forall a b,
  entries_of_rows rows a -> entries_of_rows rows b -> a = b.
Proof.
  induction rows as [|row rows IH]; intros a b Ha Hb.
  - inversion Ha. inversion Hb. reflexivity.
  - inversion Ha as [|? ? ? Hw Hr|? ? ? Hw Hr]; subst;
      inversion Hb as [|? ? ? Hw' Hr'|? ? ? Hw' Hr']; subst;
      try congruence.
    + exact (IH _ _ Hr Hr').
    + f_equal. exact (IH _ _ Hr Hr').
Qed.

(** X28. Confirming the dialog without a file does nothing. With a
    file it hands the file over once, with exactly one entry for each
    row whose key holds a visible character, in the order of the rows,
    made of the key and the value of the row without the white space
    at their ends, and nothing else: every key sent is non-empty, so
    the document list shows every entry that was sent; the dialog is
    closed and reset to one empty row, and a second confirmation does
    nothing. *)
Theorem handleConfirmUpload_metadata m :
  (selectedFile m = None -> Documents.handleConfirmUpload m = (m, None))
  /\ (forall f,
        selectedFile m = Some f ->
        exists sent,
          Documents.handleConfirmUpload m
          = (mkModal false None [empty_row], Some (f, sent))
          /\ entries_of_rows (metadata m) sent
          /\ (forall other, entries_of_rows (metadata m) other -> other = sent)
          /\ Forall (fun meta => truthy (meta_key meta) = true
                                 /\ trim (meta_key meta) = meta_key meta
                                 /\ trim (stringValue meta) = stringValue meta)
               sent
          /\ length sent <= length (metadata m)
          /\ shown_metadata sent = sent
          /\ (Forall (fun row => is_empty (trim (key row)) = true) (metadata m) ->
              sent = [])
          /\ Documents.handleConfirmUpload
               (fst (Documents.handleConfirmUpload m))
             = (mkModal false None [empty_row], None)).
Proof.
  unfold Documents.handleConfirmUpload. split.
  - intros ->. reflexivity.
  - intros f ->. exists (formattedMetadata (metadata m)).
    split; [reflexivity|]. split; [apply formattedMetadata_entries|].
    split.
    { intros other Ho.
      exact (entries_of_rows_unique _ _ _ Ho (formattedMetadata_entries _)). }
    split; [apply formattedMetadata_trimmed|].
    split; [|split; [|split; [|reflexivity]]].
    + unfold formattedMetadata. rewrite length_map. apply filter_length_le.
    + pose proof (formattedMetadata_trimmed (metadata m)) as H.
      unfold shown_metadata.
      induction H as [|meta l (Hk & _) _ IH]; [reflexivity|].
      cbn [List.filter]. now rewrite Hk, IH.
    + unfold formattedMetadata. induction 1 as [|row rows Hr _ IH];
        [reflexivity|].
      cbn [List.filter]. rewrite Hr. exact IH.
Qed.

Lemma handleConfirmUpload_metadata_witness :
  Documents.handleConfirmUpload
    (mkModal true (Some manual_a)
       [mkRow "  " "x"; mkRow " anno " " 2024 "; mkRow "tipo" EmptyString])
  = (mkModal false None [empty_row],
     Some (manual_a, [mkMeta "anno" "2024"; mkMeta "tipo" EmptyString])).
Proof.
  destruct (handleConfirmUpload_metadata
              (mkModal true (Some manual_a)
                 [mkRow "  " "x"; mkRow " anno " " 2024 ";
                  mkRow "tipo" EmptyString])) as (_ & H).
  destruct (H manual_a eq_refl) as (sent & H1 & _ & Hu & _).
  rewrite H1. do 2 f_equal. f_equal. symmetry. apply Hu.
  apply entries_skip; [reflexivity|].
  apply (entries_keep (mkRow " anno " " 2024 ")); [reflexivity|].
  apply (entries_keep (mkRow "tipo" EmptyString)); [reflexivity|].
  apply entries_none.
Defined.

Lemma nth_error_replace {A} (x : A) : forall (l : list A) i j row,
  nth_error l i = Some row ->
  nth_error (firstn i l ++ x :: skipn (S i) l) j
  = if Nat.eqb j i then Some x else nth_error l j.
Proof.
  induction l as [|a l IH]; intros i j row H.
  - destruct i; discriminate H.
  - destruct i as [|i].
    + cbn [firstn skipn app]. destruct j; reflexivity.
    + cbn [firstn skipn app nth_error] in *. destruct j as [|j]; [reflexivity|].
      cbn [nth_error Nat.eqb]. exact (IH i j row H).
Qed.

(** X29. Editing the rows of the dialog: a change writes one field of
    the row at its position and leaves the number of rows, the other
    field and the other rows as they were, and it fails only for a
    position that holds no row; adding a row and then removing the
    last position gives back the rows as they were; and cancelling
    drops the file and the rows. *)
Theorem metadata_rows_edit index field text m :
  (index < length (metadata m) ->
   exists m' row,
     handleMetadataChange index field text m = Some m'
     /\ nth_error (metadata m) index = Some row
     /\ length (metadata m') = length (metadata m)
     /\ nth_error (metadata m') index = Some (set_field field text row)
     /\ (forall j, j <> index ->
           nth_error (metadata m') j = nth_error (metadata m) j)
     /\ selectedFile m' = selectedFile m)
  /\ (length (metadata m) <= index ->
      handleMetadataChange index field text m = None)
  /\ removeMetadataRow (length (metadata m)) (addMetadataRow m) = m
  /\ Documents.handleConfirmUpload (handleModalClose m)
     = (handleModalClose m, None).
Proof.
  unfold handleMetadataChange. split; [|split; [|split]].
  - intros Hi.
    destruct (nth_error (metadata m) index) as [row|] eqn:E;
      [|apply nth_error_None in E; lia].
    eexists. exists row. split; [reflexivity|]. split; [reflexivity|].
    cbn [metadata selectedFile]. split; [|split; [|split; [|reflexivity]]].
    + rewrite length_app, length_firstn. cbn [length]. rewrite length_skipn. lia.
    + rewrite (nth_error_replace _ _ _ _ _ E). now rewrite Nat.eqb_refl.
    + intros j Hj. rewrite (nth_error_replace _ _ _ _ _ E).
      apply Nat.eqb_neq in Hj. now rewrite Hj.
  - intros Hi. apply nth_error_None in Hi. now rewrite Hi.
  - unfold removeMetadataRow, addMetadataRow. cbn [metadata isUploadModalOpen
      selectedFile].
    rewrite WelcomeFacts.filter_index_remove. cbn [Nat.ltb Nat.leb].
    rewrite Nat.sub_0_r, firstn_app, firstn_all, Nat.sub_diag. cbn [firstn].
    rewrite skipn_all2 by (rewrite length_app; cbn [length]; lia).
    rewrite !app_nil_r. now destruct m.
  - reflexivity.
Qed.

Lemma metadata_rows_edit_witness :
  handleMetadataChange 0 FieldKey "anno" (mkModal true None [empty_row])
  <> None.
Proof.
  destruct (metadata_rows_edit 0 FieldKey "anno" (mkModal true None [empty_row]))
    as (H & _).
  destruct H as (m' & row & H & _); [cbn; lia|].
  rewrite H. discriminate.
Defined.

End DocumentsFacts.
